(** * HTTP CONNECT proxy support of the mosquitto client library

    A shallow embedding of [lib/mosquitto_proxy.c] (the proxy
    configuration setter [mosquitto_proxy_set]) and of
    [lib/net_mosq_proxy.c] (the tunnel handshake [net__proxy_connect]),
    with the properties their specification states about them.

    Conventions.
    - A [char] is an [ascii]; a block of memory and the value of a C
      string (the characters before its terminating NUL) are both
      [bytes].  A [const char *] argument that may be NULL is an
      [option bytes].
    - [int], [size_t] and [ssize_t] values are [Z].  All arithmetic on
      them in these two files stays inside [0, 2048], so no wrap-around
      is reachable; the bounds are part of the theorems below.
    - Everything outside the two files (allocator, socket, poll, log)
      is a primitive acting on an explicit [world], which carries the
      scripted behaviour of the environment and the trace of calls the
      code made. *)

From Stdlib Require Import ZArith Ascii String DecimalString.
From Stdlib Require Import List Bool Lia.
Import ListNotations.
Local Open Scope Z_scope.

(** * The model *)

(* ================================================================== *)
(** ** Bytes and the C string functions used by the code *)

Definition bytes := list ascii.

Definition NUL : ascii := "000"%char.
Definition CR : ascii := "013"%char.
Definition LF : ascii := "010"%char.

(** A string literal of the source, without its terminating NUL. *)
Definition lit (s : string) : bytes := list_ascii_of_string s.

Definition CRLF : bytes := [CR; LF].

(** The C string held in a block: the characters before the first NUL.
    The end of the block counts as a terminator, so that the value of a
    literal is the literal itself. *)
Fixpoint c_str (s : bytes) : bytes :=
  match s with
  | [] => []
  | c :: s' => if Ascii.eqb c NUL then [] else c :: c_str s'
  end.

Definition strlen (s : bytes) : Z := Z.of_nat (length (c_str s)).

(** [strncmp s1 s2 n]: compare at most [n] characters, stopping after a
    NUL; the result is the difference of the first two characters that
    differ, zero if there is none. *)
Fixpoint strncmp (s1 s2 : bytes) (n : nat) : Z :=
  match n with
  | O => 0
  | S n' =>
      let c1 := hd NUL s1 in
      let c2 := hd NUL s2 in
      if negb (Ascii.eqb c1 c2)
      then Z.of_nat (nat_of_ascii c1) - Z.of_nat (nat_of_ascii c2)
      else if Ascii.eqb c1 NUL then 0
      else strncmp (tl s1) (tl s2) n'
  end.

(** Does the C string at [s] start with the C string [needle]? *)
Fixpoint starts_with (needle s : bytes) : bool :=
  match needle with
  | [] => true
  | c :: needle' =>
      if Ascii.eqb c NUL then true
      else match s with
           | [] => false
           | d :: s' => Ascii.eqb d c && starts_with needle' s'
           end
  end.

(** [strstr haystack needle]: offset of the first occurrence of the C
    string [needle] in the C string [haystack]; [None] is the NULL
    result. *)
Fixpoint strstr (haystack needle : bytes) : option nat :=
  if starts_with needle haystack then Some O
  else match haystack with
       | [] => None
       | c :: haystack' =>
           if Ascii.eqb c NUL then None
           else option_map S (strstr haystack' needle)
       end.

(** [p[i] = c] on a block; [None] when [i] is outside the block (the
    store would be undefined behaviour). *)
Definition store (p : bytes) (i : Z) (c : ascii) : option bytes :=
  if (0 <=? i) && (i <? Z.of_nat (length p))
  then Some (firstn (Z.to_nat i) p ++ c :: skipn (Z.to_nat i + 1) p)
  else None.

(** Copy [data] into a block at offset [off]; [None] when it does not
    fit. *)
Definition store_bytes (p : bytes) (off : Z) (data : bytes) : option bytes :=
  if (0 <=? off) && (off + Z.of_nat (length data) <=? Z.of_nat (length p))
  then Some (firstn (Z.to_nat off) p ++ data
             ++ skipn (Z.to_nat off + length data) p)
  else None.

(** [%s] of a string argument. *)
Definition fmt_s (s : bytes) : bytes := c_str s.

(** [%d] of an [int]. *)
Definition fmt_d (n : Z) : bytes := lit (NilZero.string_of_int (Z.to_int n)).

Definition INT_MAX : Z := 2147483647.

(** [snprintf(buf, size, fmt, ...)], given the fully formatted text:
    [buf] receives at most [size - 1] characters of it, and the result
    is the length of the whole text, or a negative value when that
    length is not representable as an [int]. *)
Definition snprintf (size : Z) (text : bytes) : bytes * Z :=
  (firstn (Z.to_nat (size - 1)) text,
   if Z.of_nat (length text) <=? INT_MAX then Z.of_nat (length text) else -1).

(* ================================================================== *)
(** ** Types of [mosquitto.h] and [mosquitto_internal.h] *)

(** The members of [enum mosq_err_t] that the two files return. *)
Inductive mosq_err_t : Set :=
| MOSQ_ERR_SUCCESS
| MOSQ_ERR_NOMEM
| MOSQ_ERR_INVAL
| MOSQ_ERR_PROXY.

Inductive log_level : Set := MOSQ_LOG_INFO | MOSQ_LOG_ERR.

(** [mosq->proxy]: the three fields the code reads and writes. *)
Record proxy_t : Set := mk_proxy {
  proxy_host : option bytes;
  proxy_port : Z;
  proxy_auth_header : option bytes
}.

(** The part of [struct mosquitto] the two files touch. *)
Record mosquitto : Set := mk_mosquitto {
  sock : Z;
  proxy : proxy_t
}.

Definition set_proxy_host (m : mosquitto) (h : option bytes) : mosquitto :=
  mk_mosquitto (sock m)
    (mk_proxy h (proxy_port (proxy m)) (proxy_auth_header (proxy m))).
Definition set_proxy_port (m : mosquitto) (p : Z) : mosquitto :=
  mk_mosquitto (sock m)
    (mk_proxy (proxy_host (proxy m)) p (proxy_auth_header (proxy m))).
Definition set_proxy_auth_header (m : mosquitto) (a : option bytes) : mosquitto :=
  mk_mosquitto (sock m)
    (mk_proxy (proxy_host (proxy m)) (proxy_port (proxy m)) a).

(* ================================================================== *)
(** ** The environment *)

(** What the next allocation does. *)
Inductive alloc_ev : Set :=
| AllocFail                      (* NULL *)
| AllocOk (junk : bytes).        (* a block, with indeterminate content *)

(** What the next [net__write] does. *)
Inductive write_ev : Set :=
| WriteAll                       (* returns [count] *)
| WriteSome (n : Z)              (* returns [n] without setting errno *)
| WriteFail (errno : Z).         (* returns -1 *)

(** What the socket does next, as seen by [poll]: after [delay]
    milliseconds either the call fails or events are reported. *)
Inductive poll_what : Set :=
| PollFail (errno : Z)           (* returns -1 *)
| PollEvents (revents : Z).      (* returns 1 *)

Record poll_ev : Set := mk_poll_ev { delay : Z; what : poll_what }.

(** What the next [net__read] does. *)
Inductive read_ev : Set :=
| ReadFail (errno : Z)           (* returns -1 *)
| ReadData (data : bytes).       (* at most [count] bytes of [data];
                                    no data is end of stream *)

Inductive log_arg : Set :=
| ArgStr (s : bytes)
| ArgStrerror (errno : Z).

(** The calls the code makes, with their arguments and results. *)
Inductive event : Set :=
| EvAlloc (size : Z) (ok : bool)
| EvFree (block : bytes)
| EvWrite (data : bytes) (n : Z)
| EvPoll (fd events timeout : Z) (n : Z)
| EvRead (offset count : Z) (data : bytes) (n : Z)
| EvLog (level : log_level) (format : string) (args : list log_arg).

Record world : Set := mk_world {
  w_allocs : list alloc_ev;
  w_writes : list write_ev;
  w_polls : list poll_ev;
  w_reads : list read_ev;
  w_errno : Z;
  w_clock : Z;                   (* milliseconds spent blocked *)
  w_trace : list event
}.

Definition emit (e : event) (w : world) : world :=
  mk_world (w_allocs w) (w_writes w) (w_polls w) (w_reads w)
           (w_errno w) (w_clock w) (w_trace w ++ [e]).

(** [POLLIN] of [<poll.h>]. *)
Definition POLLIN : Z := 1.

(** Modelled from the spec: [mosquitto__malloc] of [memory_mosq.c], an
    allocator that may fail.  A script that has run out allocates. *)
Definition mosquitto__malloc (size : Z) (w : world) : option bytes * world :=
  let '(r, rest) :=
    match w_allocs w with
    | [] => (Some [], [])
    | AllocFail :: rest => (None, rest)
    | AllocOk junk :: rest => (Some junk, rest)
    end in
  let w := mk_world rest (w_writes w) (w_polls w) (w_reads w)
                    (w_errno w) (w_clock w) (w_trace w) in
  match r with
  | None => (None, emit (EvAlloc size false) w)
  | Some junk =>
      (Some (firstn (Z.to_nat size) (junk ++ repeat NUL (Z.to_nat size))),
       emit (EvAlloc size true) w)
  end.

(** Modelled from the spec: [mosquitto__strdup] of [memory_mosq.c]: a
    copy of the string, or NULL when the allocation fails. *)
Definition mosquitto__strdup (s : bytes) (w : world) : option bytes * world :=
  match mosquitto__malloc (strlen s + 1) w with
  | (None, w) => (None, w)
  | (Some _, w) => (Some (fmt_s s), w)
  end.

(** Modelled from the spec: [mosquitto__free] of [memory_mosq.c]; the
    trace keeps what the block held when it was released. *)
Definition mosquitto__free (p : bytes) (w : world) : world :=
  emit (EvFree p) w.

(** Modelled from the spec: [log__printf] of [logging_mosq.c], the
    logging collaborator. *)
Definition log__printf (level : log_level) (format : string)
    (args : list log_arg) (w : world) : world :=
  emit (EvLog level format args) w.

(** Modelled from the spec: [net__write] of [net_mosq.c], a write to
    the socket that may be short or fail.  A script that has run out
    writes everything. *)
Definition net__write (buf : bytes) (count : Z) (w : world) : Z * world :=
  let '(ev, rest) :=
    match w_writes w with
    | [] => (WriteAll, [])
    | ev :: rest => (ev, rest)
    end in
  let n :=
    match ev with
    | WriteAll => count
    | WriteSome n => n
    | WriteFail _ => -1
    end in
  let errno :=
    match ev with
    | WriteFail e => e
    | _ => w_errno w
    end in
  (n, emit (EvWrite (firstn (Z.to_nat count) buf) n)
           (mk_world (w_allocs w) rest (w_polls w) (w_reads w)
                     errno (w_clock w) (w_trace w))).

(** [poll(&pfd, 1, timeout)] on the socket: the call blocks until the
    socket's next event or for [timeout] milliseconds, whichever comes
    first; a negative [timeout] waits without limit.  The result is the
    return value and [pfd.revents].  A script that has run out is a
    socket on which nothing happens any more. *)
Definition poll (fd events timeout : Z) (w : world) : Z * Z * world :=
  let upd polls errno clock n :=
    emit (EvPoll fd events timeout n)
         (mk_world (w_allocs w) (w_writes w) polls (w_reads w)
                   errno clock (w_trace w)) in
  match w_polls w with
  | [] => (0, 0, upd [] (w_errno w) (w_clock w + Z.max 0 timeout) 0)
  | ev :: rest =>
      if (0 <=? timeout) && (timeout <=? delay ev)
      then (0, 0, upd (mk_poll_ev (delay ev - timeout) (what ev) :: rest)
                      (w_errno w) (w_clock w + timeout) 0)
      else
        match what ev with
        | PollFail e =>
            (-1, 0, upd rest e (w_clock w + Z.max 0 (delay ev)) (-1))
        | PollEvents revents =>
            (1, revents,
             upd rest (w_errno w) (w_clock w + Z.max 0 (delay ev)) 1)
        end
  end.

(** Modelled from the spec: [net__read] of [net_mosq.c], a read from
    the socket into [buf + offset]: at most [count] bytes are stored.
    The result is the return value and the block afterwards ([None]
    when the bytes do not fit the block).  A script that has run out is
    a closed stream. *)
Definition net__read (buf : bytes) (offset count : Z) (w : world)
  : Z * option bytes * world :=
  let '(ev, rest) :=
    match w_reads w with
    | [] => (ReadData [], [])
    | ev :: rest => (ev, rest)
    end in
  let upd errno data n :=
    emit (EvRead offset count data n)
         (mk_world (w_allocs w) (w_writes w) (w_polls w) rest
                   errno (w_clock w) (w_trace w)) in
  match ev with
  | ReadFail e => (-1, Some buf, upd e [] (-1))
  | ReadData data =>
      let got := firstn (Z.to_nat count) data in
      let n := Z.of_nat (length got) in
      (n, store_bytes buf offset got, upd (w_errno w) got n)
  end.

(* ================================================================== *)
(** ** [lib/mosquitto_proxy.c] *)

(** [mosquitto_proxy_set(mosq, host, port, auth_value)].  The result is
    the return value and [*mosq] afterwards. *)
Definition mosquitto_proxy_set (mosq : option mosquitto) (host : option bytes)
    (port : Z) (auth_value : option bytes) (w : world)
  : mosq_err_t * option mosquitto * world :=
  match mosq, host with
  | None, _ | _, None => (MOSQ_ERR_INVAL, mosq, w)
  | Some m, Some h =>
    if (port <=? 0) || (port >? 65535) then (MOSQ_ERR_INVAL, mosq, w) else
    (* Clear any existing proxy settings first *)
    let '(m, w) :=
      match proxy_host (proxy m) with
      | Some old => (set_proxy_host m None, mosquitto__free old w)
      | None => (m, w)
      end in
    let '(m, w) :=
      match proxy_auth_header (proxy m) with
      | Some old => (set_proxy_auth_header m None, mosquitto__free old w)
      | None => (m, w)
      end in
    let '(p, w) := mosquitto__strdup h w in
    let m := set_proxy_host m p in
    match proxy_host (proxy m) with
    | None => (MOSQ_ERR_NOMEM, Some m, w)
    | Some copy =>
      let m := set_proxy_port m port in
      match auth_value with
      | Some v =>
        if 0 <? strlen v then
          let prefix := lit "Proxy-Authorization: " in
          let suffix := CRLF in
          let len := strlen prefix + strlen v + strlen suffix + 1 in
          let '(p, w) := mosquitto__malloc len w in
          match p with
          | None =>
              let w := mosquitto__free copy w in
              let m := set_proxy_host m None in
              (MOSQ_ERR_NOMEM, Some m, w)
          | Some _ =>
              let '(line, _) :=
                snprintf len (fmt_s prefix ++ fmt_s v ++ fmt_s suffix) in
              (MOSQ_ERR_SUCCESS, Some (set_proxy_auth_header m (Some line)), w)
          end
        else (MOSQ_ERR_SUCCESS, Some (set_proxy_auth_header m None), w)
      | None => (MOSQ_ERR_SUCCESS, Some (set_proxy_auth_header m None), w)
      end
    end
  end.

(** The file holds an earlier definition of the function as well, with
    the parameters [username] and [password]: [username] is used as the
    auth value, and [password] only in a local buffer that is not
    read. *)
Module Draft.
Definition mosquitto_proxy_set (mosq : option mosquitto) (host : option bytes)
    (port : Z) (username password : option bytes) (w : world)
  : mosq_err_t * option mosquitto * world :=
  match mosq, host with
  | None, _ | _, None => (MOSQ_ERR_INVAL, mosq, w)
  | Some m, Some h =>
    if (port <=? 0) || (port >? 65535) then (MOSQ_ERR_INVAL, mosq, w) else
    (* Clear any existing proxy settings first *)
    let '(m, w) :=
      match proxy_host (proxy m) with
      | Some old => (set_proxy_host m None, mosquitto__free old w)
      | None => (m, w)
      end in
    let '(m, w) :=
      match proxy_auth_header (proxy m) with
      | Some old => (set_proxy_auth_header m None, mosquitto__free old w)
      | None => (m, w)
      end in
    let '(p, w) := mosquitto__strdup h w in
    let m := set_proxy_host m p in
    match proxy_host (proxy m) with
    | None => (MOSQ_ERR_NOMEM, Some m, w)
    | Some copy =>
      let m := set_proxy_port m port in
      match username with
      | Some u =>
        if 0 <? strlen u then
          (* Basic Proxy Authentication *)
          let '(credentials, _) :=
            snprintf 256 (fmt_s u ++ lit ":"
                          ++ fmt_s (match password with
                                    | Some p => p
                                    | None => []
                                    end)) in
          (* Clearing previous auth_header if any *)
          let '(m, w) :=
            match proxy_auth_header (proxy m) with
            | Some old => (set_proxy_auth_header m None, mosquitto__free old w)
            | None => (m, w)
            end in
          if 0 <? strlen u then
            let len := strlen (lit "Proxy-Authorization: ") + strlen u
                       + strlen CRLF + 1 in
            let '(p, w) := mosquitto__malloc len w in
            match p with
            | None =>
                let w := mosquitto__free copy w in
                let m := set_proxy_host m None in
                (MOSQ_ERR_NOMEM, Some m, w)
            | Some _ =>
                let '(line, _) :=
                  snprintf len (lit "Proxy-Authorization: " ++ fmt_s u ++ CRLF) in
                (MOSQ_ERR_SUCCESS, Some (set_proxy_auth_header m (Some line)), w)
            end
          else (MOSQ_ERR_SUCCESS, Some (set_proxy_auth_header m None), w)
        else (MOSQ_ERR_SUCCESS, Some (set_proxy_auth_header m None), w)
      | None => (MOSQ_ERR_SUCCESS, Some (set_proxy_auth_header m None), w)
      end
    end
  end.
End Draft.

(* ================================================================== *)
(** ** [lib/net_mosq_proxy.c] *)

Definition sizeof_request : Z := 1024.
Definition terminator : bytes := CRLF ++ CRLF.
Definition response_size : Z := 2048.
Definition connect_timeout_ms : Z := 10000.

(** The text the two [snprintf] calls format. *)
Definition format_request (mosq : mosquitto) (dest_host : bytes)
    (dest_port : Z) : bytes :=
  match proxy_auth_header (proxy mosq) with
  | Some auth =>
      lit "CONNECT " ++ fmt_s dest_host ++ lit ":" ++ fmt_d dest_port
        ++ lit " HTTP/1.1" ++ CRLF
        ++ lit "Host: " ++ fmt_s dest_host ++ lit ":" ++ fmt_d dest_port
        ++ CRLF
        ++ fmt_s auth
        ++ CRLF
  | None =>
      lit "CONNECT " ++ fmt_s dest_host ++ lit ":" ++ fmt_d dest_port
        ++ lit " HTTP/1.1" ++ CRLF
        ++ lit "Host: " ++ fmt_s dest_host ++ lit ":" ++ fmt_d dest_port
        ++ CRLF
        ++ CRLF
  end.

(** How a call ends. *)
Inductive outcome : Set :=
| Returns (rc : mosq_err_t)
| Undefined            (* a store outside the response block *)
| OutOfFuel.

(** How one pass through the body of the [while] ends. *)
Inductive iteration : Set :=
| Continue (total_read : Z) (response : bytes)
| Break (total_read : Z) (response : bytes)
| Return (rc : mosq_err_t)
| Fault.

(** The body of the [while] loop. *)
Definition loop_body (mosq : mosquitto) (total_read : Z) (response : bytes)
    (w : world) : iteration * world :=
  let '(n, revents, w) := poll (sock mosq) POLLIN connect_timeout_ms w in
  if n <? 0 then (* Error *)
    let w := mosquitto__free response w in
    let w := log__printf MOSQ_LOG_ERR "Proxy poll error: %s."
                         [ArgStrerror (w_errno w)] w in
    (Return MOSQ_ERR_PROXY, w)
  else if n =? 0 then (* Timeout *)
    let w := mosquitto__free response w in
    let w := log__printf MOSQ_LOG_ERR "Proxy connect timed out." [] w in
    (Return MOSQ_ERR_PROXY, w)
  else if negb (Z.land revents POLLIN =? 0) then
    let '(n, stored, w) :=
      net__read response total_read (response_size - 1 - total_read) w in
    match stored with
    | None => (Fault, w)
    | Some response =>
      if n <=? 0 then
        let w := mosquitto__free response w in
        let w :=
          if n =? 0
          then log__printf MOSQ_LOG_ERR
                           "Proxy connection closed prematurely." [] w
          else log__printf MOSQ_LOG_ERR "Error reading from proxy: %s."
                           [ArgStrerror (w_errno w)] w in
        (Return MOSQ_ERR_PROXY, w)
      else
        let total_read := total_read + n in
        match store response total_read NUL with
        | None => (Fault, w)
        | Some response =>
          match strstr response terminator with
          | Some _ => (Break total_read response, w) (* Full headers received *)
          | None => (Continue total_read response, w)
          end
        end
    end
  else (* Some other event or error on the socket *)
    let w := mosquitto__free response w in
    let w := log__printf MOSQ_LOG_ERR "Proxy socket error during connect." [] w in
    (Return MOSQ_ERR_PROXY, w).

(** [while(total_read < response_size-1){ ... }]: the result is how
    control leaves the loop, [Break] standing for both ways of reaching
    the statement after it. *)
Fixpoint response_loop (fuel : nat) (mosq : mosquitto) (total_read : Z)
    (response : bytes) (w : world) : option (iteration * world) :=
  match fuel with
  | O => None
  | S fuel =>
    if total_read <? response_size - 1 then
      match loop_body mosq total_read response w with
      | (Continue total_read response, w) =>
          response_loop fuel mosq total_read response w
      | r => Some r
      end
    else Some (Break total_read response, w)
  end.

(** The statements after the loop. *)
Definition check_response (response : bytes) (w : world) : outcome * world :=
  match strstr response terminator with
  | None =>
    let w := mosquitto__free response w in
    let w := log__printf MOSQ_LOG_ERR
               "Proxy response headers too long or incomplete." [] w in
    (Returns MOSQ_ERR_PROXY, w)
  | Some _ =>
    (* Check for HTTP 200 response *)
    if negb (strncmp response (lit "HTTP/1.1 200") 12 =? 0)
       && negb (strncmp response (lit "HTTP/1.0 200") 12 =? 0)
    then
      (* Log the actual response for debugging *)
      match strstr response CRLF with
      | Some i =>
        match store response (Z.of_nat i) NUL with
        | None => (Undefined, w)
        | Some cut =>
          let w := log__printf MOSQ_LOG_ERR "Proxy CONNECT failed: %s"
                               [ArgStr (fmt_s cut)] w in
          match store cut (Z.of_nat i) CR with
          | None => (Undefined, w)
          | Some response =>
            let w := mosquitto__free response w in
            (Returns MOSQ_ERR_PROXY, w)
          end
        end
      | None =>
        let w := log__printf MOSQ_LOG_ERR "Proxy CONNECT failed: %s"
                             [ArgStr (fmt_s response)] w in
        let w := mosquitto__free response w in
        (Returns MOSQ_ERR_PROXY, w)
      end
    else
      let w := log__printf MOSQ_LOG_INFO
                 "Successfully connected to MQTT broker via proxy." [] w in
      let w := mosquitto__free response w in
      (Returns MOSQ_ERR_SUCCESS, w)
  end.

(** [net__proxy_connect(mosq, dest_host, dest_port)]. *)
Definition net__proxy_connect (mosq : mosquitto) (dest_host : bytes)
    (dest_port : Z) (w : world) : outcome * world :=
  let total_read := 0 in
  let '(response, w) := mosquitto__malloc response_size w in
  match response with
  | None => (Returns MOSQ_ERR_NOMEM, w)
  | Some response =>
    let '(request, len) :=
      snprintf sizeof_request (format_request mosq dest_host dest_port) in
    if (len <=? 0) || (sizeof_request <=? len) then
      let w := mosquitto__free response w in
      let w := log__printf MOSQ_LOG_ERR "Proxy CONNECT request too long." [] w in
      (Returns MOSQ_ERR_PROXY, w)
    else
      let '(n, w) := net__write request len w in
      if negb (n =? len) then
        let w := mosquitto__free response w in
        let w := log__printf MOSQ_LOG_ERR "Error writing to proxy: %s."
                             [ArgStrerror (w_errno w)] w in
        (Returns MOSQ_ERR_PROXY, w)
      else
        match response_loop (Z.to_nat response_size) mosq total_read response w with
        | None => (OutOfFuel, w)
        | Some (Return rc, w) => (Returns rc, w)
        | Some (Fault, w) => (Undefined, w)
        | Some (Continue _ response, w)
        | Some (Break _ response, w) => check_response response w
        end
  end.

(* ================================================================== *)
(** * The vocabulary of the properties *)

(** ** Strings *)

#[local] Arguments Ascii.eqb : simpl never.

Definition nul_free (s : bytes) : Prop := Forall (fun c => c <> NUL) s.

(** [t] occurs in [s]. *)
Definition contains (s t : bytes) : Prop := exists l1 l2, s = l1 ++ t ++ l2.

(** ** The configuration *)

(** The header line [mosquitto_proxy_set] builds from an auth value. *)
Definition auth_line (auth_value : bytes) : bytes :=
  lit "Proxy-Authorization: " ++ fmt_s auth_value ++ CRLF.

(** The auth header a successful call installs. *)
Definition auth_header_of (auth_value : option bytes) : option bytes :=
  match auth_value with
  | Some v => if 0 <? strlen v then Some (auth_line v) else None
  | None => None
  end.

(** ** One pass through the loop *)

(** The world after a step: the allocator and the write script are not
    touched by the loop. *)
Definition after (w : world) (polls : list poll_ev) (reads : list read_ev)
    (errno clock : Z) (evs : list event) : world :=
  mk_world (w_allocs w) (w_writes w) polls reads errno clock
           (w_trace w ++ evs).

(** Nothing happens on the socket for the whole timeout. *)
Definition poll_times_out (w : world) : Prop :=
  match w_polls w with
  | [] => True
  | ev :: _ => connect_timeout_ms <= delay ev
  end.

Definition polls_after_timeout (w : world) : list poll_ev :=
  match w_polls w with
  | [] => []
  | ev :: rest =>
      mk_poll_ev (delay ev - connect_timeout_ms) (what ev) :: rest
  end.

(** The bytes one read stores when the cursor is at [t]. *)
Definition read_chunk (t : Z) (data : bytes) : bytes :=
  firstn (Z.to_nat (response_size - 1 - t)) data.

(** The block after [got] was stored at the cursor [t] and the string
    was terminated. *)
Definition block_after (t : Z) (r got : bytes) : bytes :=
  (firstn (Z.to_nat t) r ++ got)
  ++ NUL :: skipn (Z.to_nat t + length got + 1) r.

Definition ev_poll (mosq : mosquitto) (n : Z) : event :=
  EvPoll (sock mosq) POLLIN connect_timeout_ms n.

Definition ev_read (t : Z) (got : bytes) (n : Z) : event :=
  EvRead t (response_size - 1 - t) got n.

Inductive iter_step (mosq : mosquitto) (t : Z) (r : bytes) (w : world)
  : iteration -> world -> Prop :=
| Step_timeout :
    poll_times_out w ->
    iter_step mosq t r w (Return MOSQ_ERR_PROXY)
      (after w (polls_after_timeout w) (w_reads w) (w_errno w)
         (w_clock w + connect_timeout_ms)
         [ev_poll mosq 0; EvFree r;
          EvLog MOSQ_LOG_ERR "Proxy connect timed out." []])
| Step_poll_error d e rest :
    w_polls w = mk_poll_ev d (PollFail e) :: rest ->
    d < connect_timeout_ms ->
    iter_step mosq t r w (Return MOSQ_ERR_PROXY)
      (after w rest (w_reads w) e (w_clock w + Z.max 0 d)
         [ev_poll mosq (-1); EvFree r;
          EvLog MOSQ_LOG_ERR "Proxy poll error: %s." [ArgStrerror e]])
| Step_no_pollin d revents rest :
    w_polls w = mk_poll_ev d (PollEvents revents) :: rest ->
    d < connect_timeout_ms ->
    Z.land revents POLLIN = 0 ->
    iter_step mosq t r w (Return MOSQ_ERR_PROXY)
      (after w rest (w_reads w) (w_errno w) (w_clock w + Z.max 0 d)
         [ev_poll mosq 1; EvFree r;
          EvLog MOSQ_LOG_ERR "Proxy socket error during connect." []])
| Step_read_error d revents rest e rs :
    w_polls w = mk_poll_ev d (PollEvents revents) :: rest ->
    d < connect_timeout_ms ->
    Z.land revents POLLIN <> 0 ->
    w_reads w = ReadFail e :: rs ->
    iter_step mosq t r w (Return MOSQ_ERR_PROXY)
      (after w rest rs e (w_clock w + Z.max 0 d)
         [ev_poll mosq 1; ev_read t [] (-1); EvFree r;
          EvLog MOSQ_LOG_ERR "Error reading from proxy: %s." [ArgStrerror e]])
| Step_closed d revents rest :
    w_polls w = mk_poll_ev d (PollEvents revents) :: rest ->
    d < connect_timeout_ms ->
    Z.land revents POLLIN <> 0 ->
    w_reads w = [] \/ w_reads w = ReadData [] :: tl (w_reads w) ->
    iter_step mosq t r w (Return MOSQ_ERR_PROXY)
      (after w rest (tl (w_reads w)) (w_errno w) (w_clock w + Z.max 0 d)
         [ev_poll mosq 1; ev_read t [] 0; EvFree r;
          EvLog MOSQ_LOG_ERR "Proxy connection closed prematurely." []])
| Step_data d revents rest data rs :
    w_polls w = mk_poll_ev d (PollEvents revents) :: rest ->
    d < connect_timeout_ms ->
    Z.land revents POLLIN <> 0 ->
    w_reads w = ReadData data :: rs ->
    data <> [] ->
    iter_step mosq t r w
      (match strstr (firstn (Z.to_nat t) r ++ read_chunk t data) terminator with
       | Some _ =>
           Break (t + Z.of_nat (length (read_chunk t data)))
                 (block_after t r (read_chunk t data))
       | None =>
           Continue (t + Z.of_nat (length (read_chunk t data)))
                    (block_after t r (read_chunk t data))
       end)
      (after w rest rs (w_errno w) (w_clock w + Z.max 0 d)
         [ev_poll mosq 1;
          ev_read t (read_chunk t data)
                  (Z.of_nat (length (read_chunk t data)))]).

(** The loop as a relation: it runs steps until one leaves the
    function, one breaks, or the block is full. *)
Inductive loop_run (mosq : mosquitto)
  : Z -> bytes -> world -> iteration -> world -> Prop :=
| Loop_full t r w :
    ~ t < response_size - 1 ->
    loop_run mosq t r w (Break t r) w
| Loop_return t r w rc w' :
    t < response_size - 1 ->
    iter_step mosq t r w (Return rc) w' ->
    loop_run mosq t r w (Return rc) w'
| Loop_break t r w t' r' w' :
    t < response_size - 1 ->
    iter_step mosq t r w (Break t' r') w' ->
    loop_run mosq t r w (Break t' r') w'
| Loop_next t r w t' r' w' it w'' :
    t < response_size - 1 ->
    iter_step mosq t r w (Continue t' r') w' ->
    loop_run mosq t' r' w' it w'' ->
    loop_run mosq t r w it w''.

(** ** The check of the response *)

(** The world after more calls were traced. *)
Definition emits (w : world) (evs : list event) : world :=
  after w (w_polls w) (w_reads w) (w_errno w) (w_clock w) evs.

(** The response starts with one of the two accepted status prefixes. *)
Definition status_ok (response : bytes) : Prop :=
  firstn 12 response = lit "HTTP/1.1 200"
  \/ firstn 12 response = lit "HTTP/1.0 200".

(** The text logged for a rejected response: the C string in the block
    once a NUL is stored over the first CR LF. *)
Definition status_line (response : bytes) : bytes :=
  match strstr response CRLF with
  | Some i => fmt_s (firstn i response)
  | None => fmt_s response
  end.

Inductive check_case (response : bytes) (w : world) : outcome -> world -> Prop :=
| Check_too_large :
    strstr response terminator = None ->
    check_case response w (Returns MOSQ_ERR_PROXY)
      (emits w [EvFree response;
                EvLog MOSQ_LOG_ERR
                      "Proxy response headers too long or incomplete." []])
| Check_rejected :
    strstr response terminator <> None ->
    ~ status_ok response ->
    check_case response w (Returns MOSQ_ERR_PROXY)
      (emits w [EvLog MOSQ_LOG_ERR "Proxy CONNECT failed: %s"
                      [ArgStr (status_line response)];
                EvFree response])
| Check_success :
    strstr response terminator <> None ->
    status_ok response ->
    check_case response w (Returns MOSQ_ERR_SUCCESS)
      (emits w [EvLog MOSQ_LOG_INFO
                      "Successfully connected to MQTT broker via proxy." [];
                EvFree response]).

(** ** The handshake *)

Definition alloc_fails (w : world) : Prop :=
  hd_error (w_allocs w) = Some AllocFail.

Definition after_alloc (w : world) (ok : bool) : world :=
  mk_world (tl (w_allocs w)) (w_writes w) (w_polls w) (w_reads w)
           (w_errno w) (w_clock w) (w_trace w ++ [EvAlloc response_size ok]).

(** The block the allocation of the response yields. *)
Definition alloc_block (w : world) : bytes :=
  let junk := match w_allocs w with
              | AllocOk junk :: _ => junk
              | _ => []
              end in
  firstn (Z.to_nat response_size) (junk ++ repeat NUL (Z.to_nat response_size)).

(** What [net__write] returns for [count] bytes. *)
Definition write_returns (w : world) (count : Z) : Z :=
  match w_writes w with
  | [] | WriteAll :: _ => count
  | WriteSome n :: _ => n
  | WriteFail _ :: _ => -1
  end.

Definition errno_after_write (w : world) : Z :=
  match w_writes w with
  | WriteFail e :: _ => e
  | _ => w_errno w
  end.

Definition after_write (w : world) (data : bytes) : world :=
  mk_world (w_allocs w) (tl (w_writes w)) (w_polls w) (w_reads w)
           (errno_after_write w) (w_clock w)
           (w_trace w
            ++ [EvWrite data (write_returns w (Z.of_nat (length data)))]).

Inductive connect_run (mosq : mosquitto) (dest_host : bytes) (dest_port : Z)
    (w : world) : outcome -> world -> Prop :=
| Run_nomem :
    alloc_fails w ->
    connect_run mosq dest_host dest_port w
      (Returns MOSQ_ERR_NOMEM) (after_alloc w false)
| Run_too_large :
    ~ alloc_fails w ->
    sizeof_request <= Z.of_nat (length (format_request mosq dest_host dest_port)) ->
    connect_run mosq dest_host dest_port w
      (Returns MOSQ_ERR_PROXY)
      (emits (after_alloc w true)
         [EvFree (alloc_block w);
          EvLog MOSQ_LOG_ERR "Proxy CONNECT request too long." []])
| Run_write_error :
    let req := format_request mosq dest_host dest_port in
    let w1 := after_alloc w true in
    ~ alloc_fails w ->
    Z.of_nat (length req) < sizeof_request ->
    write_returns w1 (Z.of_nat (length req)) <> Z.of_nat (length req) ->
    connect_run mosq dest_host dest_port w
      (Returns MOSQ_ERR_PROXY)
      (emits (after_write w1 req)
         [EvFree (alloc_block w);
          EvLog MOSQ_LOG_ERR "Error writing to proxy: %s."
                [ArgStrerror (errno_after_write w1)]])
| Run_loop_return rc w3 :
    let req := format_request mosq dest_host dest_port in
    let w1 := after_alloc w true in
    ~ alloc_fails w ->
    Z.of_nat (length req) < sizeof_request ->
    write_returns w1 (Z.of_nat (length req)) = Z.of_nat (length req) ->
    loop_run mosq 0 (alloc_block w) (after_write w1 req) (Return rc) w3 ->
    connect_run mosq dest_host dest_port w (Returns rc) w3
| Run_checked t r w3 o w4 :
    let req := format_request mosq dest_host dest_port in
    let w1 := after_alloc w true in
    ~ alloc_fails w ->
    Z.of_nat (length req) < sizeof_request ->
    write_returns w1 (Z.of_nat (length req)) = Z.of_nat (length req) ->
    loop_run mosq 0 (alloc_block w) (after_write w1 req) (Break t r) w3 ->
    check_case r w3 o w4 ->
    connect_run mosq dest_host dest_port w o w4.

(** ** The calls the loop makes *)

(** What the loop may emit: polls of the socket for input with the
    full timeout, reads at the cursor that stay below the last byte of
    the block, frees and log lines. *)
Definition loop_event_ok (mosq : mosquitto) (e : event) : Prop :=
  match e with
  | EvPoll fd events timeout n =>
      fd = sock mosq /\ events = POLLIN /\ timeout = connect_timeout_ms
  | EvRead offset count data n =>
      0 <= offset /\ count = response_size - 1 - offset /\
      Z.of_nat (length data) <= count /\
      (n = Z.of_nat (length data) \/ n = -1 /\ data = [])
  | EvFree _ | EvLog _ _ _ => True
  | EvAlloc _ _ | EvWrite _ _ => False
  end.

(** ** The calls a handshake makes *)

(** What a handshake may emit: the allocation of the response block,
    one write of the whole formatted request, and what the loop
    emits. *)
Definition run_event_ok (mosq : mosquitto) (dest_host : bytes)
    (dest_port : Z) (e : event) : Prop :=
  match e with
  | EvAlloc size _ => size = response_size
  | EvWrite data _ =>
      data = format_request mosq dest_host dest_port /\
      Z.of_nat (length data) < sizeof_request
  | _ => loop_event_ok mosq e
  end.

(** The calls [net__proxy_connect] made, given the world before. *)
Definition events_since (w w' : world) : list event :=
  skipn (length (w_trace w)) (w_trace w').

(** ** The request *)

(** The first two lines of the request. *)
Definition request_line (dest_host : bytes) (dest_port : Z) : bytes :=
  lit "CONNECT " ++ fmt_s dest_host ++ lit ":" ++ fmt_d dest_port
  ++ lit " HTTP/1.1" ++ CRLF.

Definition host_line (dest_host : bytes) (dest_port : Z) : bytes :=
  lit "Host: " ++ fmt_s dest_host ++ lit ":" ++ fmt_d dest_port ++ CRLF.

(** The configurations that calls of [mosquitto_proxy_set] lead to,
    from a client that has no auth header. *)
Inductive configured : mosquitto -> Prop :=
| Configured_fresh s h p :
    configured (mk_mosquitto s (mk_proxy h p None))
| Configured_set m host port auth_value w rc m' w' :
    configured m ->
    mosquitto_proxy_set (Some m) host port auth_value w = (rc, Some m', w') ->
    configured m'.

(** The auth header is absent or a line built by the setter. *)
Definition auth_header_wf (m : mosquitto) : Prop :=
  match proxy_auth_header (proxy m) with
  | None => True
  | Some a => exists v, a = auth_line v
  end.

(** ** What the loop accumulates *)

(** The bytes the reads of a trace stored, in order. *)
Definition received (evs : list event) : bytes :=
  flat_map (fun e => match e with
                     | EvRead _ _ data _ => data
                     | _ => []
                     end) evs.

(** A block that holds [acc] and then a NUL. *)
Definition holds (r acc : bytes) : Prop :=
  exists tail, r = acc ++ NUL :: tail.

(** ** A socket that delivers data *)

(** The wait ends before the timeout with input to read. *)
Definition ready (p : poll_ev) : Prop :=
  delay p < connect_timeout_ms /\
  match what p with
  | PollEvents revents => Z.land revents POLLIN <> 0
  | PollFail _ => False
  end.

(** The socket hands over [chunks], one for each wait. *)
Fixpoint delivers (polls : list poll_ev) (reads : list read_ev)
    (chunks : list bytes) : Prop :=
  match chunks with
  | [] => True
  | c :: cs =>
      match polls, reads with
      | p :: ps, ReadData data :: rs =>
          ready p /\ data = c /\ c <> [] /\ delivers ps rs cs
      | _, _ => False
      end
  end.

(** The socket calls of the loop while it takes [chunks] that fit, from
    the cursor [t] on. *)
Fixpoint chunk_events (mosq : mosquitto) (t : Z) (chunks : list bytes)
  : list event :=
  match chunks with
  | [] => []
  | c :: cs =>
      EvPoll (sock mosq) POLLIN connect_timeout_ms 1
      :: EvRead t (response_size - 1 - t) c (Z.of_nat (length c))
      :: chunk_events mosq (t + Z.of_nat (length c)) cs
  end.

(** ** The shape of a run of the loop *)

(** The time the waits of a list of socket events take when none of
    them times out. *)
Definition waited (ps : list poll_ev) : Z :=
  fold_right (fun p acc => Z.max 0 (delay p) + acc) 0 ps.

(** A poll that found input, or a read that stored data. *)
Definition data_event (e : event) : Prop :=
  match e with
  | EvPoll _ _ _ n => n = 1
  | EvRead _ _ data n => n = Z.of_nat (length data) /\ data <> []
  | _ => False
  end.

(** Nothing, or calls that end with a read that stored data. *)
Definition ends_with_data (evs : list event) : Prop :=
  evs = [] \/
  exists evs0 offset count data,
    evs = evs0 ++ [EvRead offset count data (Z.of_nat (length data))] /\
    data <> [].

(** ** The timeout of the waits *)

Definition timeout_log : event :=
  EvLog MOSQ_LOG_ERR "Proxy connect timed out." [].

Definition is_poll (e : event) : bool :=
  match e with EvPoll _ _ _ _ => true | _ => false end.

(** ** What a failure tells the caller *)

(** The ways the handshake fails. *)
Inductive failure : Set :=
| RequestTooLarge
| WriteError
| PollError
| Timeout
| SocketError
| ConnectionClosed
| ReadError
| ResponseTooLarge
| ProxyRejected.

(** The format of the line the function logs for each. *)
Definition failure_text (k : failure) : string :=
  match k with
  | RequestTooLarge => "Proxy CONNECT request too long."
  | WriteError => "Error writing to proxy: %s."
  | PollError => "Proxy poll error: %s."
  | Timeout => "Proxy connect timed out."
  | SocketError => "Proxy socket error during connect."
  | ConnectionClosed => "Proxy connection closed prematurely."
  | ReadError => "Error reading from proxy: %s."
  | ResponseTooLarge => "Proxy response headers too long or incomplete."
  | ProxyRejected => "Proxy CONNECT failed: %s"
  end.

(** A call to the allocator or to the socket. *)
Definition is_call (e : event) : bool :=
  match e with
  | EvFree _ | EvLog _ _ _ => false
  | _ => true
  end.

Fixpoint last_call (evs : list event) : option event :=
  match evs with
  | [] => None
  | e :: evs' =>
      match last_call evs' with
      | Some e' => Some e'
      | None => if is_call e then Some e else None
      end
  end.

(** The last line logged. *)
Fixpoint diagnostic (evs : list event) : option (log_level * string) :=
  match evs with
  | [] => None
  | e :: evs' =>
      match diagnostic evs' with
      | Some d => Some d
      | None => match e with
                | EvLog level format _ => Some (level, format)
                | _ => None
                end
      end
  end.

Definition status_okb (response : bytes) : bool :=
  negb (negb (strncmp response (lit "HTTP/1.1 200") 12 =? 0)
        && negb (strncmp response (lit "HTTP/1.0 200") 12 =? 0)).

(** Why a handshake failed, read off the calls it made to the allocator
    and to the socket: the last of them decides, together with the
    bytes received when that call is a read that stored data. *)
Definition cause (evs : list event) : option failure :=
  match last_call evs with
  | Some (EvAlloc _ true) => Some RequestTooLarge
  | Some (EvWrite data n) =>
      if n =? Z.of_nat (length data) then None else Some WriteError
  | Some (EvPoll _ _ _ n) =>
      if n <? 0 then Some PollError
      else if n =? 0 then Some Timeout
      else Some SocketError
  | Some (EvRead _ _ _ n) =>
      if n <? 0 then Some ReadError
      else if n =? 0 then Some ConnectionClosed
      else match strstr (received evs) terminator with
           | None => Some ResponseTooLarge
           | Some _ =>
               if status_okb (received evs) then None else Some ProxyRejected
           end
  | _ => None
  end.

(** ** The calls of the setter *)

(** Does the [k]-th allocation of the script succeed? *)
Definition alloc_ok (w : world) (k : nat) : bool :=
  match nth_error (w_allocs w) k with
  | Some AllocFail => false
  | _ => true
  end.

(** The frees that clear the previous settings. *)
Definition clear_events (m : mosquitto) : list event :=
  match proxy_host (proxy m) with Some old => [EvFree old] | None => [] end
  ++ match proxy_auth_header (proxy m) with
     | Some old => [EvFree old]
     | None => []
     end.

(** The auth value, when there is one and it is not empty. *)
Definition wants_auth (auth_value : option bytes) : option bytes :=
  match auth_value with
  | Some v => if 0 <? strlen v then Some v else None
  | None => None
  end.

(** What a call with a host and a valid port does, given the outcome of
    its two allocations: the result, the client afterwards, and the
    calls to the allocator. *)
Definition setter_outcome (m : mosquitto) (h : bytes) (port : Z)
    (auth_value : option bytes) (ok0 ok1 : bool)
  : mosq_err_t * mosquitto * list event :=
  let copy_size := strlen h + 1 in
  if negb ok0 then
    (MOSQ_ERR_NOMEM,
     mk_mosquitto (sock m) (mk_proxy None (proxy_port (proxy m)) None),
     clear_events m ++ [EvAlloc copy_size false])
  else
    match wants_auth auth_value with
    | None =>
        (MOSQ_ERR_SUCCESS,
         mk_mosquitto (sock m) (mk_proxy (Some (fmt_s h)) port None),
         clear_events m ++ [EvAlloc copy_size true])
    | Some v =>
        let line_size := Z.of_nat (length (auth_line v)) + 1 in
        if ok1 then
          (MOSQ_ERR_SUCCESS,
           mk_mosquitto (sock m)
             (mk_proxy (Some (fmt_s h)) port (Some (auth_line v))),
           clear_events m ++ [EvAlloc copy_size true; EvAlloc line_size true])
        else
          (MOSQ_ERR_NOMEM,
           mk_mosquitto (sock m) (mk_proxy None port None),
           clear_events m ++ [EvAlloc copy_size true; EvAlloc line_size false;
                              EvFree (fmt_s h)])
    end.

(** The strings a client holds for its proxy. *)
Definition held (m : mosquitto) : list bytes :=
  match proxy_host (proxy m) with Some s => [s] | None => [] end
  ++ match proxy_auth_header (proxy m) with Some s => [s] | None => [] end.

Definition is_alloc (e : event) : bool :=
  match e with EvAlloc _ true => true | _ => false end.

Definition is_free (e : event) : bool :=
  match e with EvFree _ => true | _ => false end.


(** What the setter keeps true of a client: a host is a C string and
    comes with a port in range; an auth header comes with a host and is
    the header line of an auth value that is not empty. *)
Definition proxy_inv (m : mosquitto) : Prop :=
  (forall h, proxy_host (proxy m) = Some h ->
             nul_free h /\ 1 <= proxy_port (proxy m) <= 65535) /\
  (forall a, proxy_auth_header (proxy m) = Some a ->
             proxy_host (proxy m) <> None /\
             exists v, v <> [] /\ nul_free v /\
                       a = lit "Proxy-Authorization: " ++ v ++ CRLF).

(** ** The calls of a handshake, in order *)

(** The socket calls of the pass that leaves the function with the
    cursor at [t]: a poll that did not report input, or a poll that did
    and a read that stored nothing. *)
Definition leaving_calls (mosq : mosquitto) (t : Z) (calls : list event)
  : Prop :=
  (exists n, -1 <= n <= 1 /\ calls = [ev_poll mosq n])
  \/ (exists n, -1 <= n <= 0 /\ calls = [ev_poll mosq 1; ev_read t [] n]).

(** An error line of the log. *)
Definition is_err (e : event) : Prop :=
  exists format args, e = EvLog MOSQ_LOG_ERR format args.

Definition success_log : event :=
  EvLog MOSQ_LOG_INFO "Successfully connected to MQTT broker via proxy." [].

(** The result and the calls of a handshake that formats [req], by the
    way it ends.  [chunks] are the pieces of data the reads stored, and
    [block] is the response block at the time it is freed. *)
Inductive handshake_calls (mosq : mosquitto) (req : bytes)
  : mosq_err_t -> list event -> Prop :=
| Calls_nomem :
    handshake_calls mosq req MOSQ_ERR_NOMEM [EvAlloc response_size false]
| Calls_too_long block l :
    Z.of_nat (length block) = response_size -> is_err l ->
    sizeof_request <= Z.of_nat (length req) ->
    handshake_calls mosq req MOSQ_ERR_PROXY
      [EvAlloc response_size true; EvFree block; l]
| Calls_write_error n block l :
    Z.of_nat (length block) = response_size -> is_err l ->
    Z.of_nat (length req) < sizeof_request ->
    n <> Z.of_nat (length req) ->
    handshake_calls mosq req MOSQ_ERR_PROXY
      [EvAlloc response_size true; EvWrite req n; EvFree block; l]
| Calls_left chunks calls block l :
    Z.of_nat (length block) = response_size -> is_err l ->
    Z.of_nat (length req) < sizeof_request ->
    Forall (fun c => c <> []) chunks ->
    Z.of_nat (length (concat chunks)) < response_size - 1 ->
    ~ contains (c_str (concat chunks)) terminator ->
    leaving_calls mosq (Z.of_nat (length (concat chunks))) calls ->
    handshake_calls mosq req MOSQ_ERR_PROXY
      ([EvAlloc response_size true; EvWrite req (Z.of_nat (length req))]
       ++ chunk_events mosq 0 chunks ++ calls ++ [EvFree block; l])
| Calls_incomplete chunks block l :
    Z.of_nat (length block) = response_size -> is_err l ->
    Z.of_nat (length req) < sizeof_request ->
    Forall (fun c => c <> []) chunks ->
    Z.of_nat (length (concat chunks)) = response_size - 1 ->
    ~ contains (c_str (concat chunks)) terminator ->
    holds block (concat chunks) ->
    handshake_calls mosq req MOSQ_ERR_PROXY
      ([EvAlloc response_size true; EvWrite req (Z.of_nat (length req))]
       ++ chunk_events mosq 0 chunks ++ [EvFree block; l])
| Calls_rejected chunks block :
    Z.of_nat (length block) = response_size ->
    Z.of_nat (length req) < sizeof_request ->
    Forall (fun c => c <> []) chunks -> chunks <> [] ->
    Z.of_nat (length (concat chunks)) <= response_size - 1 ->
    contains (c_str (concat chunks)) terminator ->
    ~ status_ok (concat chunks) ->
    holds block (concat chunks) ->
    handshake_calls mosq req MOSQ_ERR_PROXY
      ([EvAlloc response_size true; EvWrite req (Z.of_nat (length req))]
       ++ chunk_events mosq 0 chunks
       ++ [EvLog MOSQ_LOG_ERR "Proxy CONNECT failed: %s"
                 [ArgStr (status_line (concat chunks))];
           EvFree block])
| Calls_success chunks block :
    Z.of_nat (length block) = response_size ->
    Z.of_nat (length req) < sizeof_request ->
    Forall (fun c => c <> []) chunks -> chunks <> [] ->
    Z.of_nat (length (concat chunks)) <= response_size - 1 ->
    contains (c_str (concat chunks)) terminator ->
    status_ok (concat chunks) ->
    holds block (concat chunks) ->
    handshake_calls mosq req MOSQ_ERR_SUCCESS
      ([EvAlloc response_size true; EvWrite req (Z.of_nat (length req))]
       ++ chunk_events mosq 0 chunks ++ [success_log; EvFree block]).

Definition is_write (e : event) : bool :=
  match e with EvWrite _ _ => true | _ => false end.

Definition is_read (e : event) : bool :=
  match e with EvRead _ _ _ _ => true | _ => false end.


(** A call on the socket that waits for data or reads it. *)
Definition is_sock (e : event) : bool := is_poll e || is_read e.

(** ** Tactics *)

Ltac trace_eq :=
  unfold after, mosquitto__free, log__printf, emit, ev_poll, ev_read;
  cbn [w_allocs w_writes w_polls w_reads w_errno w_clock w_trace];
  rewrite <- ?app_assoc; cbn [app]; reflexivity.

Ltac emits_eq :=
  unfold emits, after, mosquitto__free, log__printf, emit;
  cbn [w_allocs w_writes w_polls w_reads w_errno w_clock w_trace];
  rewrite <- ?app_assoc; cbn [app]; reflexivity.

Ltac split_all := repeat match goal with |- _ /\ _ => split end.

Ltac since_eq :=
  unfold events_since, mosquitto__free, emit; cbn [w_trace];
  rewrite <- ?app_assoc;
  rewrite skipn_app, skipn_all, Nat.sub_diag; reflexivity.

(* ================================================================== *)
(** * The properties *)

(* ================================================================== *)
(** ** Facts about the C string functions *)

Lemma c_str_nul_free s : nul_free (c_str s).
Proof.
  induction s as [|c s IH]; simpl; [constructor|].
  destruct (Ascii.eqb_spec c NUL); constructor; assumption.
Qed.

Lemma c_str_id s : nul_free s -> c_str s = s.
Proof.
  induction 1 as [|c s Hc _ IH]; simpl; [reflexivity|].
  destruct (Ascii.eqb_spec c NUL); congruence.
Qed.

Lemma c_str_app_nul a b : c_str (a ++ NUL :: b) = c_str a.
Proof.
  induction a as [|c a IH]; simpl; [reflexivity|].
  destruct (Ascii.eqb c NUL); congruence.
Qed.

(** The C string in a block is an initial part of the block. *)
Lemma c_str_prefix s : exists rest, s = c_str s ++ rest.
Proof.
  induction s as [|c s [rest IH]]; simpl.
  - exists []. reflexivity.
  - destruct (Ascii.eqb c NUL).
    + exists (c :: s). reflexivity.
    + exists rest. simpl. congruence.
Qed.

(** Extending a block extends the C string in it. *)
Lemma c_str_app_prefix a b : exists rest, c_str (a ++ b) = c_str a ++ rest.
Proof.
  induction a as [|c a [rest IH]]; simpl.
  - exists (c_str b). reflexivity.
  - destruct (Ascii.eqb c NUL).
    + exists []. reflexivity.
    + exists rest. simpl. congruence.
Qed.

Lemma nul_free_app a b : nul_free (a ++ b) <-> nul_free a /\ nul_free b.
Proof. apply Forall_app. Qed.

Lemma starts_with_c_str needle s :
  starts_with needle (c_str s) = starts_with needle s.
Proof.
  revert s. induction needle as [|c needle IH]; intros s; simpl; [reflexivity|].
  destruct (Ascii.eqb_spec c NUL) as [->|Hc]; [reflexivity|].
  destruct s as [|d s]; simpl; [reflexivity|].
  destruct (Ascii.eqb_spec d NUL) as [->|Hd]; simpl.
  - destruct (Ascii.eqb_spec NUL c); [congruence|reflexivity].
  - rewrite IH. reflexivity.
Qed.

Lemma strstr_c_str h needle : strstr (c_str h) needle = strstr h needle.
Proof.
  induction h as [|c h IH]; [reflexivity|].
  cbn [c_str].
  destruct (Ascii.eqb_spec c NUL) as [->|Hc].
  - cbn [strstr]. rewrite <- (starts_with_c_str needle (NUL :: h)). simpl.
    reflexivity.
  - cbn [strstr].
    rewrite <- (starts_with_c_str needle (c :: h)). cbn [c_str].
    destruct (Ascii.eqb_spec c NUL); [congruence|].
    rewrite IH. reflexivity.
Qed.

(** What follows the first NUL of a block is not searched. *)
Lemma strstr_app_nul a b needle : strstr (a ++ NUL :: b) needle = strstr a needle.
Proof.
  rewrite <- strstr_c_str, c_str_app_nul, strstr_c_str. reflexivity.
Qed.

Lemma starts_with_spec needle s :
  nul_free needle ->
  starts_with needle s = true <-> exists rest, s = needle ++ rest.
Proof.
  intros Hn. revert s. induction Hn as [|c needle Hc _ IH]; intros s; simpl.
  - split; [intros _; exists s; reflexivity | reflexivity].
  - destruct (Ascii.eqb_spec c NUL); [congruence|].
    destruct s as [|d s].
    + split; [discriminate | intros [rest H]; discriminate].
    + rewrite andb_true_iff, IH. split.
      * intros [Hd [rest ->]]. apply Ascii.eqb_eq in Hd. subst d.
        exists rest. reflexivity.
      * intros [rest H]. injection H as -> ->. split.
        -- apply Ascii.eqb_refl.
        -- exists rest. reflexivity.
Qed.

Lemma contains_cons c s t :
  contains (c :: s) t <-> (exists rest, c :: s = t ++ rest) \/ contains s t.
Proof.
  split.
  - intros [[|d l1] [l2 H]]; simpl in H.
    + left. exists l2. exact H.
    + right. injection H as -> ->. exists l1, l2. reflexivity.
  - intros [[rest H]|[l1 [l2 ->]]].
    + exists [], rest. exact H.
    + exists (c :: l1), l2. reflexivity.
Qed.

Lemma contains_nil t : contains [] t <-> t = [].
Proof.
  split.
  - intros [l1 [l2 H]]. symmetry in H.
    apply app_eq_nil in H as [_ H]. apply app_eq_nil in H as [H _]. exact H.
  - intros ->. exists [], []. reflexivity.
Qed.

Lemma contains_app_l s rest t : contains s t -> contains (s ++ rest) t.
Proof.
  intros [l1 [l2 ->]]. exists l1, (l2 ++ rest).
  rewrite <- !app_assoc. reflexivity.
Qed.

(** [strstr] finds the needle exactly when it occurs in the C string
    of the haystack. *)
Lemma strstr_spec h needle :
  nul_free needle ->
  strstr h needle <> None <-> contains (c_str h) needle.
Proof.
  intros Hn. induction h as [|c h IH].
  - cbn [strstr c_str].
    destruct (starts_with needle []) eqn:E.
    + apply (starts_with_spec _ _ Hn) in E as [rest E].
      split; [intros _|discriminate].
      exists [], rest. exact E.
    + split; [congruence|]. intros H. apply contains_nil in H. subst needle.
      discriminate.
  - cbn [strstr]. rewrite <- (starts_with_c_str needle (c :: h)).
    cbn [c_str].
    destruct (Ascii.eqb_spec c NUL) as [->|Hc].
    + destruct (starts_with needle []) eqn:E.
      * apply (starts_with_spec _ _ Hn) in E as [rest E].
        split; [intros _|discriminate]. exists [], rest. exact E.
      * split; [congruence|]. intros H. apply contains_nil in H. subst needle.
        discriminate.
    + destruct (starts_with needle (c :: c_str h)) eqn:E.
      * apply (starts_with_spec _ _ Hn) in E.
        split; [intros _|discriminate]. apply contains_cons. left. exact E.
      * rewrite contains_cons, <- IH. split.
        -- intros H. right. destruct (strstr h needle); [discriminate|].
           exfalso. apply H. reflexivity.
        -- intros [H|H].
           ++ apply (starts_with_spec _ _ Hn) in H. congruence.
           ++ destruct (strstr h needle); [discriminate|]. congruence.
Qed.

Lemma strstr_none_spec h needle :
  nul_free needle ->
  strstr h needle = None <-> ~ contains (c_str h) needle.
Proof.
  intros Hn. rewrite <- (strstr_spec h needle Hn).
  destruct (strstr h needle); split; try congruence.
  intros H. exfalso. apply H. discriminate.
Qed.

(** The offset [strstr] returns lies inside the haystack. *)
Lemma strstr_bound h needle i :
  needle <> [] -> nul_free needle ->
  strstr h needle = Some i -> (i < length h)%nat.
Proof.
  intros Hne Hn. revert i. induction h as [|c h IH]; intros i; cbn [strstr].
  - destruct (starts_with needle []) eqn:E; [|discriminate].
    apply (starts_with_spec _ _ Hn) in E as [rest E].
    destruct needle; [congruence|discriminate].
  - destruct (starts_with needle (c :: h)).
    + intros [= <-]. simpl. lia.
    + destruct (Ascii.eqb c NUL); [discriminate|].
      destruct (strstr h needle) as [j|]; [|discriminate].
      intros [= <-]. specialize (IH j eq_refl). simpl. lia.
Qed.

(** The haystack has the first character of the needle at the offset
    [strstr] returns. *)
Lemma strstr_at h c needle i :
  c <> NUL -> strstr h (c :: needle) = Some i -> nth_error h i = Some c.
Proof.
  intros Hc. revert i. induction h as [|d h IH]; intros i; cbn [strstr].
  - cbn [starts_with]. destruct (Ascii.eqb_spec c NUL); [congruence|].
    discriminate.
  - destruct (starts_with (c :: needle) (d :: h)) eqn:E.
    + intros [= <-]. cbn [starts_with] in E.
      destruct (Ascii.eqb_spec c NUL); [congruence|].
      apply andb_true_iff in E as [E _]. apply Ascii.eqb_eq in E.
      subst d. reflexivity.
    + destruct (Ascii.eqb d NUL); [discriminate|].
      destruct (strstr h (c :: needle)) as [j|]; [|discriminate].
      intros [= <-]. cbn [nth_error]. apply IH. reflexivity.
Qed.

Lemma nat_of_ascii_diff c1 c2 :
  Z.of_nat (nat_of_ascii c1) - Z.of_nat (nat_of_ascii c2) = 0 -> c1 = c2.
Proof.
  intros H. assert (E : nat_of_ascii c1 = nat_of_ascii c2) by lia.
  rewrite <- (ascii_nat_embedding c1), <- (ascii_nat_embedding c2), E.
  reflexivity.
Qed.

(** [strncmp] against a literal of [n] characters is a comparison of
    the first [n] bytes. *)
Lemma strncmp_prefix p s :
  nul_free p -> strncmp s p (length p) = 0 <-> firstn (length p) s = p.
Proof.
  intros Hp. revert s. induction Hp as [|c p Hc _ IH]; intros s.
  - simpl. split; reflexivity.
  - cbn [length strncmp hd tl].
    destruct s as [|d s]; cbn [hd tl firstn].
    + destruct (Ascii.eqb_spec NUL c) as [E|E]; [congruence|]. cbn [negb].
      split; [|discriminate]. intros H. apply nat_of_ascii_diff in H.
      congruence.
    + destruct (Ascii.eqb_spec d c) as [->|E]; cbn [negb].
      * destruct (Ascii.eqb_spec c NUL); [congruence|].
        rewrite IH. split; [congruence|]. intros [= H]. exact H.
      * split.
        -- intros H. apply nat_of_ascii_diff in H. congruence.
        -- intros [= H _]. congruence.
Qed.

Lemma snprintf_fits size text :
  Z.of_nat (length text) < size -> fst (snprintf size text) = text.
Proof.
  intros H. unfold snprintf. cbn [fst].
  apply firstn_all2. lia.
Qed.

(* ================================================================== *)
(** ** The configuration setter *)

Lemma auth_line_nul_free v : nul_free (auth_line v).
Proof.
  unfold auth_line. apply nul_free_app. split.
  - repeat constructor; discriminate.
  - apply nul_free_app. split; [apply c_str_nul_free|].
    repeat constructor; discriminate.
Qed.

Lemma auth_line_formatted v :
  fst (snprintf (strlen (lit "Proxy-Authorization: ") + strlen v
                 + strlen CRLF + 1)
         (fmt_s (lit "Proxy-Authorization: ") ++ fmt_s v ++ fmt_s CRLF))
  = auth_line v.
Proof.
  rewrite snprintf_fits.
  - reflexivity.
  - unfold strlen, fmt_s. rewrite !length_app. lia.
Qed.

(** A successful call installs a copy of the host, the port and the
    header line of the auth value. *)
Lemma mosquitto_proxy_set_success mosq host port auth_value w m' w' :
  mosquitto_proxy_set mosq host port auth_value w
    = (MOSQ_ERR_SUCCESS, Some m', w') ->
  exists m h,
    mosq = Some m /\ host = Some h /\ 1 <= port <= 65535 /\
    m' = mk_mosquitto (sock m)
           (mk_proxy (Some (fmt_s h)) port (auth_header_of auth_value)).
Proof.
  unfold mosquitto_proxy_set.
  destruct mosq as [m|]; [|discriminate].
  destruct host as [h|]; [|discriminate].
  destruct (port <=? 0) eqn:E1; [discriminate|].
  destruct (port >? 65535) eqn:E2; [discriminate|]. cbn [orb].
  assert (Hport : 1 <= port <= 65535) by lia.
  set (c1 := match proxy_host (proxy m) with
             | Some _ => _ | None => _ end).
  destruct c1 as [m1 w1] eqn:Ec1.
  assert (Hm1 : sock m1 = sock m).
  { subst c1. destruct (proxy_host (proxy m)); injection Ec1 as <- _; reflexivity. }
  set (c2 := match proxy_auth_header (proxy m1) with
             | Some _ => _ | None => _ end).
  destruct c2 as [m2 w2] eqn:Ec2.
  assert (Hm2 : sock m2 = sock m).
  { subst c2. destruct (proxy_auth_header (proxy m1));
      injection Ec2 as <- _; simpl; congruence. }
  unfold mosquitto__strdup.
  destruct (mosquitto__malloc (strlen h + 1) w2) as [[junk|] w3];
    cbn [set_proxy_host proxy proxy_host]; [|discriminate].
  unfold auth_header_of.
  destruct auth_value as [v|].
  - destruct (0 <? strlen v).
    + destruct (mosquitto__malloc _ w3) as [[junk'|] w4]; [|discriminate].
      destruct (snprintf _ _) as [line n] eqn:Es.
      intros [= <- <-]. exists m, h. repeat split; try lia.
      unfold set_proxy_auth_header, set_proxy_port. simpl.
      rewrite Hm2. do 3 f_equal.
      rewrite <- (auth_line_formatted v). cbv zeta in Es. rewrite Es.
      reflexivity.
    + intros [= <- <-]. exists m, h. repeat split; try lia.
      unfold set_proxy_auth_header, set_proxy_port. simpl. rewrite Hm2.
      reflexivity.
  - intros [= <- <-]. exists m, h. repeat split; try lia.
    unfold set_proxy_auth_header, set_proxy_port. simpl. rewrite Hm2.
    reflexivity.
Qed.

(** The state the clearing of the previous settings leaves. *)
Lemma mosquitto_proxy_set_nomem mosq host port auth_value w m' w' :
  mosquitto_proxy_set mosq host port auth_value w
    = (MOSQ_ERR_NOMEM, Some m', w') ->
  exists m,
    mosq = Some m /\
    proxy_host (proxy m') = None /\
    proxy_auth_header (proxy m') = None /\
    (proxy_port (proxy m') = proxy_port (proxy m)
     \/ proxy_port (proxy m') = port).
Proof.
  unfold mosquitto_proxy_set.
  destruct mosq as [m|]; [|discriminate].
  destruct host as [h|]; [|discriminate].
  destruct ((port <=? 0) || (port >? 65535)); [discriminate|].
  destruct m as [s [ph pp pa]].
  unfold mosquitto__strdup.
  destruct ph, pa; cbn -[mosquitto__malloc snprintf strlen Z.add];
    (destruct (mosquitto__malloc (strlen h + 1) _) as [[junk|] w3];
     cbn -[mosquitto__malloc snprintf strlen Z.add];
     [ destruct auth_value as [v|];
       [ destruct (0 <? strlen v);
         [ destruct (mosquitto__malloc _ w3) as [[junk'|] w4];
           cbn -[mosquitto__malloc snprintf strlen Z.add]
         | ]
       | ]
     | ]);
    try discriminate;
    intros [= <- <-]; eexists; cbn; auto.
Qed.

(** **** C6 (as amended)
    A call to [mosquitto_proxy_set] with a NULL host or with a port
    outside [1, 65535] fails with [MOSQ_ERR_INVAL] and leaves the
    configuration, and everything else, as it was.  No other call on a
    client fails with [MOSQ_ERR_INVAL]: a host that is not NULL is not
    looked into, so that the empty string is accepted. *)
Theorem proxy_set_invalid_argument mosq host port auth_value w :
  (host = None \/ port < 1 \/ 65535 < port ->
   mosquitto_proxy_set mosq host port auth_value w = (MOSQ_ERR_INVAL, mosq, w))
  /\
  (forall m h,
     mosq = Some m -> host = Some h -> 1 <= port <= 65535 ->
     fst (fst (mosquitto_proxy_set mosq host port auth_value w))
     <> MOSQ_ERR_INVAL).
Proof.
  split.
  - intros H. unfold mosquitto_proxy_set.
    destruct mosq as [m|]; [|reflexivity].
    destruct host as [h|]; [|reflexivity].
    destruct H as [H|H]; [discriminate|].
    replace ((port <=? 0) || (port >? 65535)) with true; [reflexivity|].
    symmetry. apply orb_true_iff. lia.
  - intros m h -> -> Hport.
    destruct (mosquitto_proxy_set (Some m) (Some h) port auth_value w)
      as [[rc mosq'] w'] eqn:E.
    cbn [fst]. intros ->.
    unfold mosquitto_proxy_set in E.
    replace ((port <=? 0) || (port >? 65535)) with false in E
      by (symmetry; apply orb_false_iff; lia).
    repeat match type of E with
           | context [match ?x with _ => _ end] => destruct x eqn:?
           end; discriminate.
Qed.

Lemma proxy_set_invalid_argument_witness :
  let m := mk_mosquitto 3 (mk_proxy (Some (lit "old-proxy")) 1080
                                    (Some (auth_line (lit "Basic b2xk")))) in
  let w := mk_world [] [] [] [] 0 0 [] in
  (Some (lit "proxy") = None \/ 70000 < 1 \/ 65535 < 70000) /\
  mosquitto_proxy_set (Some m) (Some (lit "proxy")) 70000 None w
    = (MOSQ_ERR_INVAL, Some m, w).
Proof.
  intros m w.
  assert (H : Some (lit "proxy") = None \/ 70000 < 1 \/ 65535 < 70000)
    by (right; right; lia).
  split; [exact H|].
  exact (proj1 (proxy_set_invalid_argument (Some m) (Some (lit "proxy")) 70000
                  None w) H).
Defined.

(** The empty string is a host like any other: the call succeeds and
    replaces the previous configuration. *)
Lemma proxy_set_empty_host_accepted :
  let m := mk_mosquitto 3 (mk_proxy (Some (lit "old-proxy")) 1080
                                    (Some (auth_line (lit "Basic b2xk")))) in
  let w := mk_world [] [] [] [] 0 0 [] in
  let r := mosquitto_proxy_set (Some m) (Some (lit EmptyString)) 8080 None w in
  fst (fst r) = MOSQ_ERR_SUCCESS /\
  fst (fst r) <> MOSQ_ERR_INVAL /\
  snd (fst r) = Some (mk_mosquitto 3 (mk_proxy (Some []) 8080 None)) /\
  snd (fst r) <> Some m.
Proof.
  vm_compute. repeat split; discriminate.
Qed.

(** **** C7 (as amended)
    When an allocation fails, [mosquitto_proxy_set] returns
    [MOSQ_ERR_NOMEM] and leaves the host and the auth header cleared.
    The port is not reset: it keeps its previous value when the copy of
    the host fails, and is the new port when the allocation of the
    header line fails. *)
Theorem proxy_set_out_of_memory m h port auth_value w :
  1 <= port <= 65535 ->
  let r := mosquitto_proxy_set (Some m) (Some h) port auth_value w in
  (* the copy of the host cannot be allocated *)
  ((exists rest, w_allocs w = AllocFail :: rest) ->
   fst (fst r) = MOSQ_ERR_NOMEM /\
   snd (fst r) = Some (mk_mosquitto (sock m)
                         (mk_proxy None (proxy_port (proxy m)) None))) /\
  (* the header line cannot be allocated *)
  ((exists junk rest v, w_allocs w = AllocOk junk :: AllocFail :: rest /\
                        auth_value = Some v /\ 0 < strlen v) ->
   fst (fst r) = MOSQ_ERR_NOMEM /\
   snd (fst r) = Some (mk_mosquitto (sock m) (mk_proxy None port None))) /\
  (* every failure for lack of memory leaves host and header cleared *)
  (fst (fst r) = MOSQ_ERR_NOMEM ->
   exists m', snd (fst r) = Some m' /\
              proxy_host (proxy m') = None /\
              proxy_auth_header (proxy m') = None).
Proof.
  intros Hport r. split; [|split].
  - intros [rest Hw]. subst r. unfold mosquitto_proxy_set.
    replace ((port <=? 0) || (port >? 65535)) with false
      by (symmetry; apply orb_false_iff; lia).
    destruct m as [s [ph pp pa]]. unfold mosquitto__strdup, mosquitto__malloc.
    destruct ph, pa; cbn -[strlen Z.add]; rewrite Hw; cbn; auto.
  - intros (junk & rest & v & Hw & -> & Hv). subst r.
    unfold mosquitto_proxy_set.
    replace ((port <=? 0) || (port >? 65535)) with false
      by (symmetry; apply orb_false_iff; lia).
    replace (0 <? strlen v) with true by (symmetry; apply Z.ltb_lt; exact Hv).
    destruct m as [s [ph pp pa]]. unfold mosquitto__strdup, mosquitto__malloc.
    destruct ph, pa; cbn -[strlen Z.add]; rewrite Hw; cbn; auto.
  - intros Hrc. destruct r as [[rc mosq'] w'] eqn:Er. cbn in Hrc. subst rc.
    assert (Hsome : exists m', mosq' = Some m').
    { subst r. unfold mosquitto_proxy_set in Er.
      repeat match type of Er with
             | context [match ?x with _ => _ end] => destruct x eqn:?
             end;
        try discriminate; inversion Er; eexists; reflexivity. }
    destruct Hsome as [m' ->]. exists m'. split; [reflexivity|].
    destruct (mosquitto_proxy_set_nomem _ _ _ _ _ _ _ Er) as (m0 & _ & H1 & H2 & _).
    auto.
Qed.

Lemma proxy_set_out_of_memory_witness :
  let m := mk_mosquitto 3 (mk_proxy (Some (lit "old-proxy")) 1080 None) in
  let w := mk_world [AllocFail] [] [] [] 0 0 [] in
  1 <= 8080 <= 65535 /\
  fst (fst (mosquitto_proxy_set (Some m) (Some (lit "proxy")) 8080
                                (Some (lit "Basic dXNlcjpwYXNz")) w))
    = MOSQ_ERR_NOMEM.
Proof.
  intros m w.
  assert (H : 1 <= 8080 <= 65535) by lia.
  split; [exact H|].
  destruct (proxy_set_out_of_memory m (lit "proxy") 8080
              (Some (lit "Basic dXNlcjpwYXNz")) w H) as [Hcopy _].
  apply Hcopy. exists []. reflexivity.
Defined.

(** When the header line cannot be allocated, the new port stays
    installed next to a cleared host; when the copy of the host cannot
    be allocated, the previous port stays. *)
Lemma proxy_set_nomem_port_not_reset :
  let m := mk_mosquitto 3 (mk_proxy (Some (lit "old-proxy")) 1080 None) in
  let w1 := mk_world [AllocOk []; AllocFail] [] [] [] 0 0 [] in
  let w2 := mk_world [AllocFail] [] [] [] 0 0 [] in
  let r1 := mosquitto_proxy_set (Some m) (Some (lit "proxy")) 8080
                                (Some (lit "Basic dXNlcjpwYXNz")) w1 in
  let r2 := mosquitto_proxy_set (Some m) (Some (lit "proxy")) 8080
                                (Some (lit "Basic dXNlcjpwYXNz")) w2 in
  (fst (fst r1) = MOSQ_ERR_NOMEM /\
   snd (fst r1) = Some (mk_mosquitto 3 (mk_proxy None 8080 None))) /\
  (fst (fst r2) = MOSQ_ERR_NOMEM /\
   snd (fst r2) = Some (mk_mosquitto 3 (mk_proxy None 1080 None))).
Proof.
  vm_compute. repeat split.
Qed.

(** The two definitions of the function agree, [username] being the
    auth value. *)
Lemma draft_agrees mosq host port username password w :
  Draft.mosquitto_proxy_set mosq host port username password w
  = mosquitto_proxy_set mosq host port username w.
Proof.
  unfold Draft.mosquitto_proxy_set, mosquitto_proxy_set.
  destruct mosq as [[s [ph pp pa]]|]; [|reflexivity].
  destruct host as [h|]; [|reflexivity].
  destruct ((port <=? 0) || (port >? 65535)); [reflexivity|].
  unfold mosquitto__strdup.
  destruct ph, pa; cbn -[mosquitto__malloc snprintf strlen Z.add];
    (destruct (mosquitto__malloc (strlen h + 1) _) as [[junk|] w3];
     cbn -[mosquitto__malloc snprintf strlen Z.add]; [|reflexivity];
     destruct username as [u|]; [|reflexivity];
     destruct (0 <? strlen u); [|reflexivity];
     cbn -[mosquitto__malloc snprintf strlen Z.add];
     destruct (mosquitto__malloc _ w3) as [[junk'|] w4]; reflexivity).
Qed.

(* ================================================================== *)
(** ** Stores into the response block *)

Lemma store_inside p i c :
  0 <= i < Z.of_nat (length p) ->
  store p i c = Some (firstn (Z.to_nat i) p ++ c :: skipn (Z.to_nat i + 1) p).
Proof.
  intros Hi. unfold store.
  replace ((0 <=? i) && _) with true; [reflexivity|].
  symmetry. apply andb_true_iff. lia.
Qed.

(** Storing a character over another and storing the first one back
    gives the block back. *)
Lemma store_restore p i c d :
  nth_error p i = Some c ->
  exists cut,
    store p (Z.of_nat i) d = Some cut /\
    cut = firstn i p ++ d :: skipn (i + 1) p /\
    store cut (Z.of_nat i) c = Some p.
Proof.
  intros Hnth.
  assert (Hi : (i < length p)%nat) by (apply nth_error_Some; congruence).
  apply nth_error_split in Hnth as (l1 & l2 & Hp & Hl1).
  eexists. split; [apply store_inside; lia|].
  rewrite Nat2Z.id. split; [reflexivity|].
  rewrite store_inside
    by (rewrite length_app, length_cons, length_firstn, length_skipn; lia).
  rewrite Nat2Z.id. f_equal. subst p i.
  rewrite !firstn_app, !firstn_all, Nat.sub_diag. cbn [firstn].
  rewrite app_nil_r.
  rewrite !skipn_app, !skipn_all2 by lia.
  replace (length l1 + 1 - length l1)%nat with 1%nat by lia.
  cbn [skipn app].
  rewrite Nat.sub_diag. cbn [firstn]. rewrite app_nil_r. reflexivity.
Qed.

(** A read that returns nothing leaves the block as it was. *)
Lemma store_bytes_nil r t :
  0 <= t <= Z.of_nat (length r) -> store_bytes r t [] = Some r.
Proof.
  intros Ht. unfold store_bytes. cbn [length Z.of_nat app].
  replace ((0 <=? t) && _) with true
    by (symmetry; apply andb_true_iff; lia).
  rewrite Nat.add_0_r, firstn_skipn. reflexivity.
Qed.

(** Reading [got] at the cursor [t] and terminating the string: the
    block then holds what it held before the cursor, [got], and a
    NUL. *)
Lemma store_data_nul r t got :
  0 <= t -> t + Z.of_nat (length got) < Z.of_nat (length r) ->
  exists r1,
    store_bytes r t got = Some r1 /\
    store r1 (t + Z.of_nat (length got)) NUL
    = Some ((firstn (Z.to_nat t) r ++ got)
            ++ NUL :: skipn (Z.to_nat t + length got + 1) r).
Proof.
  intros Ht Hfit. eexists. split.
  - unfold store_bytes.
    replace ((0 <=? t) && _) with true; [reflexivity|].
    symmetry. apply andb_true_iff. lia.
  - assert (Hacc : length (firstn (Z.to_nat t) r ++ got)
                   = Z.to_nat (t + Z.of_nat (length got))).
    { rewrite length_app, length_firstn. lia. }
    unfold store. rewrite !length_app, length_firstn, length_skipn.
    replace ((0 <=? _) && _) with true
      by (symmetry; apply andb_true_iff;
          split; [apply Z.leb_le | apply Z.ltb_lt]; lia).
    f_equal.
    rewrite <- Hacc, app_assoc. rewrite firstn_app, firstn_all, Nat.sub_diag.
    cbn [firstn]. rewrite app_nil_r. f_equal. f_equal.
    rewrite skipn_app, skipn_all2 by lia.
    replace (length (firstn (Z.to_nat t) r ++ got) + 1
             - length (firstn (Z.to_nat t) r ++ got))%nat with 1%nat by lia.
    rewrite skipn_skipn. cbn [app]. f_equal. lia.
Qed.

(* ================================================================== *)
(** ** One pass through the loop, case by case *)

Lemma strstr_block_after t r got needle :
  strstr (block_after t r got) needle
  = strstr (firstn (Z.to_nat t) r ++ got) needle.
Proof. unfold block_after. apply strstr_app_nul. Qed.

Lemma iter_step_eq mosq t r w it w1 w2 :
  iter_step mosq t r w it w1 -> w1 = w2 -> iter_step mosq t r w it w2.
Proof. intros H <-. exact H. Qed.

Lemma read_chunk_length t data :
  0 <= t < response_size - 1 ->
  Z.of_nat (length (read_chunk t data)) <= response_size - 1 - t.
Proof.
  intros Ht. unfold read_chunk. rewrite length_firstn. lia.
Qed.

Lemma read_chunk_nonempty t data :
  0 <= t < response_size - 1 -> data <> [] -> read_chunk t data <> [].
Proof.
  intros Ht Hd. unfold read_chunk.
  destruct data as [|c data]; [congruence|].
  destruct (Z.to_nat (response_size - 1 - t)) eqn:E; [lia|]. discriminate.
Qed.


(** The body of the loop does one of the six steps. *)
Lemma loop_body_step mosq t r w :
  0 <= t < response_size - 1 ->
  Z.of_nat (length r) = response_size ->
  iter_step mosq t r w (fst (loop_body mosq t r w)) (snd (loop_body mosq t r w)).
Proof.
  intros Ht Hr. unfold loop_body, poll.
  change (0 <=? connect_timeout_ms) with true. cbn [andb].
  destruct (w_polls w) as [|[d wh] rest] eqn:Hp.
  - (* nothing happens any more *)
    cbn [Z.ltb Z.eqb Z.compare fst snd].
    eapply iter_step_eq.
    + apply Step_timeout. unfold poll_times_out. rewrite Hp. exact I.
    + unfold polls_after_timeout. rewrite Hp. trace_eq.
  - cbn [delay what].
    destruct (connect_timeout_ms <=? d) eqn:Hd.
    + cbn [Z.ltb Z.eqb Z.compare fst snd].
      eapply iter_step_eq.
      * apply Step_timeout. unfold poll_times_out. rewrite Hp. cbn. lia.
      * unfold polls_after_timeout. rewrite Hp. trace_eq.
    + apply Z.leb_gt in Hd.
      destruct wh as [e|revents].
      * cbn [Z.ltb Z.eqb Z.compare fst snd].
        eapply iter_step_eq; [eapply Step_poll_error; eassumption|trace_eq].
      * cbn [Z.ltb Z.eqb Z.compare fst snd].
        destruct (Z.land revents POLLIN =? 0) eqn:Hin; cbn [negb fst snd].
        -- apply Z.eqb_eq in Hin.
           eapply iter_step_eq; [eapply Step_no_pollin; eassumption|trace_eq].
        -- apply Z.eqb_neq in Hin. unfold net__read.
           cbn [w_allocs w_writes w_polls w_reads w_errno w_clock w_trace emit].
           destruct (w_reads w) as [|[e|data] rs] eqn:Hrd.
           ++ rewrite firstn_nil, store_bytes_nil by lia.
              cbn [length Z.of_nat Z.leb Z.eqb Z.compare fst snd].
              eapply iter_step_eq;
                [eapply Step_closed; try eassumption; left; exact Hrd|].
              rewrite Hrd. trace_eq.
           ++ cbn [Z.leb Z.eqb Z.compare fst snd].
              eapply iter_step_eq;
                [eapply Step_read_error; eassumption|trace_eq].
           ++ fold (read_chunk t data).
              destruct data as [|c data].
              ** unfold read_chunk. rewrite firstn_nil, store_bytes_nil by lia.
                 cbn [length Z.of_nat Z.leb Z.eqb Z.compare fst snd].
                 eapply iter_step_eq;
                   [eapply Step_closed; try eassumption; right;
                    rewrite Hrd; reflexivity|].
                 rewrite Hrd. trace_eq.
              ** assert (Hne : c :: data <> []) by discriminate.
                 pose proof (read_chunk_nonempty t _ Ht Hne) as Hgot.
                 pose proof (read_chunk_length t (c :: data) Ht) as Hlen.
                 set (got := read_chunk t (c :: data)) in *.
                 destruct (store_data_nul r t got) as (r1 & Hs1 & Hs2);
                   [lia|lia|].
                 rewrite Hs1.
                 replace (Z.of_nat (length got) <=? 0) with false
                   by (symmetry; apply Z.leb_gt; destruct got;
                       [congruence|cbn [length]; lia]).
                 rewrite Hs2. fold (block_after t r got).
                 rewrite strstr_block_after.
                 pose proof (Step_data mosq t r w d revents rest (c :: data) rs
                               Hp Hd Hin Hrd Hne) as Hstep.
                 fold got in Hstep.
                 destruct (strstr (firstn (Z.to_nat t) r ++ got) terminator);
                   cbn [fst snd]; (eapply iter_step_eq; [exact Hstep|trace_eq]).
Qed.

Lemma block_after_length t r got :
  0 <= t -> t + Z.of_nat (length got) < Z.of_nat (length r) ->
  length (block_after t r got) = length r.
Proof.
  intros Ht Hfit. unfold block_after.
  rewrite !length_app, length_cons, length_firstn, length_skipn. lia.
Qed.

(** What was stored before the new cursor. *)
Lemma block_after_firstn t r got :
  0 <= t -> t + Z.of_nat (length got) < Z.of_nat (length r) ->
  firstn (Z.to_nat (t + Z.of_nat (length got))) (block_after t r got)
  = firstn (Z.to_nat t) r ++ got.
Proof.
  intros Ht Hfit. unfold block_after.
  assert (Hacc : length (firstn (Z.to_nat t) r ++ got)
                 = Z.to_nat (t + Z.of_nat (length got))).
  { rewrite length_app, length_firstn. lia. }
  rewrite <- Hacc, firstn_app, firstn_all, Nat.sub_diag. cbn [firstn].
  apply app_nil_r.
Qed.

(** A step that stays in the function moved the cursor forward, inside
    the block. *)
Lemma iter_step_cursor mosq t r w it w' t' r' :
  0 <= t < response_size - 1 ->
  Z.of_nat (length r) = response_size ->
  iter_step mosq t r w it w' ->
  it = Continue t' r' \/ it = Break t' r' ->
  t < t' <= response_size - 1 /\ Z.of_nat (length r') = response_size.
Proof.
  intros Ht Hr Hstep Hit.
  destruct Hstep as [| | | | |d revents rest data rs Hp Hd Hin Hrd Hdata];
    try (destruct Hit; discriminate).
  pose proof (read_chunk_length t data Ht) as Hlen.
  pose proof (read_chunk_nonempty t data Ht Hdata) as Hne.
  assert (0 < Z.of_nat (length (read_chunk t data))).
  { destruct (read_chunk t data); [congruence|cbn [length]; lia]. }
  assert (Ht' : t' = t + Z.of_nat (length (read_chunk t data))
                /\ r' = block_after t r (read_chunk t data)).
  { destruct (strstr _ terminator); destruct Hit as [Hit|Hit];
      try discriminate; injection Hit as <- <-; auto. }
  destruct Ht' as [-> ->]. split; [lia|].
  rewrite block_after_length; lia.
Qed.

Lemma iter_step_no_fault mosq t r w w' : ~ iter_step mosq t r w Fault w'.
Proof.
  intros H. inversion H. destruct (strstr _ terminator); discriminate.
Qed.

(** The loop ends before its fuel does, and ends as [loop_run] says. *)
Lemma response_loop_run mosq fuel t r w :
  0 <= t <= response_size - 1 ->
  Z.of_nat (length r) = response_size ->
  response_size - 1 - t < Z.of_nat fuel ->
  exists it w',
    response_loop fuel mosq t r w = Some (it, w') /\
    loop_run mosq t r w it w'.
Proof.
  revert t r w. induction fuel as [|fuel IH]; intros t r w Ht Hr Hfuel; [lia|].
  cbn [response_loop].
  destruct (t <? response_size - 1) eqn:Hlt.
  - apply Z.ltb_lt in Hlt.
    pose proof (loop_body_step mosq t r w (conj (proj1 Ht) Hlt) Hr) as Hstep.
    destruct (loop_body mosq t r w) as [it w1]. cbn [fst snd] in Hstep.
    destruct it as [t' r'|t' r'|rc|].
    + destruct (iter_step_cursor _ _ _ _ _ _ t' r' (conj (proj1 Ht) Hlt) Hr Hstep)
        as [Ht' Hr']; [left; reflexivity|].
      destruct (IH t' r' w1) as (it & w' & Heq & Hrun); [lia|exact Hr'|lia|].
      exists it, w'. split; [exact Heq|].
      eapply Loop_next; eassumption.
    + exists (Break t' r'), w1. split; [reflexivity|].
      apply Loop_break; assumption.
    + exists (Return rc), w1. split; [reflexivity|].
      apply Loop_return; assumption.
    + exfalso. eapply iter_step_no_fault. exact Hstep.
  - apply Z.ltb_ge in Hlt.
    exists (Break t r), w. split; [reflexivity|].
    apply Loop_full. lia.
Qed.

(* ================================================================== *)
(** ** The check of the response, case by case *)

Lemma nul_free_terminator : nul_free terminator.
Proof. repeat constructor; discriminate. Qed.

Lemma nul_free_CRLF : nul_free CRLF.
Proof. repeat constructor; discriminate. Qed.

Lemma status_ok_strncmp response :
  negb (strncmp response (lit "HTTP/1.1 200") 12 =? 0)
  && negb (strncmp response (lit "HTTP/1.0 200") 12 =? 0) = false
  <-> status_ok response.
Proof.
  assert (H1 := strncmp_prefix (lit "HTTP/1.1 200") response).
  assert (H0 := strncmp_prefix (lit "HTTP/1.0 200") response).
  change (length (lit "HTTP/1.1 200")) with 12%nat in H1.
  change (length (lit "HTTP/1.0 200")) with 12%nat in H0.
  unfold status_ok. rewrite <- H1, <- H0
    by (repeat constructor; discriminate).
  rewrite andb_false_iff, !negb_false_iff, !Z.eqb_eq. reflexivity.
Qed.

Lemma check_case_eq response w o w1 w2 :
  check_case response w o w1 -> w1 = w2 -> check_case response w o w2.
Proof. intros H <-. exact H. Qed.

(** The statements after the loop do one of three things. *)
Lemma check_response_case response w :
  check_case response w (fst (check_response response w))
                        (snd (check_response response w)).
Proof.
  unfold check_response.
  destruct (strstr response terminator) as [k|] eqn:Hterm.
  - destruct (negb _ && negb _) eqn:Hst.
    + assert (Hno : ~ status_ok response).
      { intros H. apply status_ok_strncmp in H. congruence. }
      assert (Hfound : strstr response terminator <> None) by congruence.
      pose proof (Check_rejected response w Hfound Hno) as Hcase.
      unfold status_line in Hcase.
      destruct (strstr response CRLF) as [i|] eqn:Hcrlf.
      * assert (Hnth : nth_error response i = Some CR).
        { eapply strstr_at; [|exact Hcrlf]. discriminate. }
        destruct (store_restore response i CR NUL Hnth)
          as (cut & Hs1 & Hcut & Hs2).
        rewrite Hs1, Hs2. cbn [fst snd].
        eapply check_case_eq; [exact Hcase|].
        unfold fmt_s. rewrite Hcut, c_str_app_nul.
        emits_eq.
      * cbn [fst snd]. eapply check_case_eq; [exact Hcase|]. emits_eq.
    + cbn [fst snd]. apply status_ok_strncmp in Hst.
      eapply check_case_eq.
      * apply Check_success; [congruence|exact Hst].
      * emits_eq.
  - cbn [fst snd]. eapply check_case_eq.
    + apply Check_too_large. exact Hterm.
    + emits_eq.
Qed.

(* ================================================================== *)
(** ** The handshake, case by case *)

Lemma connect_run_eq mosq dh dp w o w1 w2 :
  connect_run mosq dh dp w o w1 -> w1 = w2 -> connect_run mosq dh dp w o w2.
Proof. intros H <-. exact H. Qed.

Lemma format_request_nonempty mosq dh dp :
  0 < Z.of_nat (length (format_request mosq dh dp)).
Proof.
  unfold format_request.
  destruct (proxy_auth_header (proxy mosq));
    rewrite length_app; cbn [lit list_ascii_of_string length]; lia.
Qed.

Lemma alloc_block_length w : Z.of_nat (length (alloc_block w)) = response_size.
Proof.
  unfold alloc_block. rewrite length_firstn, length_app, repeat_length.
  unfold response_size. lia.
Qed.

Lemma loop_run_no_continue mosq t r w it w' :
  loop_run mosq t r w it w' -> forall t' r', it <> Continue t' r'.
Proof. induction 1; intros; try discriminate. apply IHloop_run. Qed.

Lemma loop_run_no_fault mosq t r w it w' :
  loop_run mosq t r w it w' -> it <> Fault.
Proof. induction 1; intros; try discriminate. exact IHloop_run. Qed.

(** Every call ends in one of the five ways of [connect_run]: in
    particular it returns. *)
Lemma net__proxy_connect_run mosq dest_host dest_port w :
  connect_run mosq dest_host dest_port w
    (fst (net__proxy_connect mosq dest_host dest_port w))
    (snd (net__proxy_connect mosq dest_host dest_port w)).
Proof.
  unfold net__proxy_connect.
  set (req := format_request mosq dest_host dest_port).
  assert (Hmalloc :
    (alloc_fails w /\
     mosquitto__malloc response_size w = (None, after_alloc w false))
    \/ (~ alloc_fails w /\
        mosquitto__malloc response_size w
        = (Some (alloc_block w), after_alloc w true))).
  { unfold mosquitto__malloc, alloc_fails, after_alloc, alloc_block, emit.
    destruct (w_allocs w) as [|[|junk] rest]; cbn [hd_error tl].
    - right. split; [discriminate|]. reflexivity.
    - left. split; reflexivity.
    - right. split; [discriminate|]. reflexivity. }
  pose proof (alloc_block_length w) as Hlen.
  destruct Hmalloc as [[Hfail ->]|[Hok ->]].
  - cbn [fst snd]. apply Run_nomem. exact Hfail.
  - set (w1 := after_alloc w true).
    pose proof (format_request_nonempty mosq dest_host dest_port) as Hpos.
    fold req in Hpos.
    unfold snprintf.
    destruct (Z.of_nat (length req) <=? INT_MAX) eqn:Hint.
    + destruct (Z.of_nat (length req) <=? 0) eqn:H0; [lia|]. cbn [orb].
      destruct (sizeof_request <=? Z.of_nat (length req)) eqn:Hbig.
      * cbn [fst snd]. eapply connect_run_eq.
        -- apply Run_too_large; [exact Hok|fold req; lia].
        -- emits_eq.
      * apply Z.leb_gt in Hbig.
        assert (Hreq : firstn (Z.to_nat (Z.of_nat (length req)))
                         (firstn (Z.to_nat (sizeof_request - 1)) req) = req).
        { rewrite !firstn_all2; [reflexivity|lia|].
          rewrite firstn_all2; lia. }
        assert (Hwrite :
          net__write (firstn (Z.to_nat (sizeof_request - 1)) req)
                     (Z.of_nat (length req)) w1
          = (write_returns w1 (Z.of_nat (length req)), after_write w1 req)).
        { unfold net__write, after_write, write_returns, errno_after_write,
            emit. rewrite Hreq.
          destruct (w_writes w1) as [|[|n|e] rest]; reflexivity. }
        rewrite Hwrite.
        destruct (write_returns w1 (Z.of_nat (length req))
                  =? Z.of_nat (length req)) eqn:Hn; cbn [negb].
        -- apply Z.eqb_eq in Hn.
           destruct (response_loop_run mosq (Z.to_nat response_size) 0
                       (alloc_block w) (after_write w1 req))
             as (it & w3 & Hloop & Hrun);
             [unfold response_size; lia|exact Hlen|unfold response_size; lia|].
           rewrite Hloop.
           destruct it as [t r|t r|rc|].
           ++ exfalso. eapply loop_run_no_continue; [exact Hrun|reflexivity].
           ++ eapply Run_checked; try eassumption.
              apply check_response_case.
           ++ cbn [fst snd]. eapply Run_loop_return; eassumption.
           ++ exfalso. eapply loop_run_no_fault; [exact Hrun|reflexivity].
        -- apply Z.eqb_neq in Hn. cbn [fst snd].
           eapply connect_run_eq.
           ++ apply Run_write_error; assumption.
           ++ unfold emits, after, mosquitto__free, log__printf, emit,
                after_write.
              cbn [w_allocs w_writes w_polls w_reads w_errno w_clock w_trace].
              rewrite <- ?app_assoc. reflexivity.
    + apply Z.leb_gt in Hint. cbn [Z.leb Z.compare orb fst snd].
      eapply connect_run_eq.
      * apply Run_too_large; [exact Hok|].
        fold req. unfold INT_MAX, sizeof_request in *. lia.
      * emits_eq.
Qed.

(* ================================================================== *)
(** ** The calls the loop makes *)

Lemma iter_step_events mosq t r w it w' :
  0 <= t < response_size - 1 ->
  iter_step mosq t r w it w' ->
  exists evs,
    w_trace w' = w_trace w ++ evs /\ Forall (loop_event_ok mosq) evs /\
    w_allocs w' = w_allocs w /\ w_writes w' = w_writes w.
Proof.
  intros Ht Hstep.
  pose proof (read_chunk_length t) as Hchunk.
  destruct Hstep; (eexists; split; [reflexivity|]);
    (split; [|split; reflexivity]);
    repeat match goal with
           | |- Forall _ (_ :: _) => apply Forall_cons
           | |- Forall _ [] => apply Forall_nil
           end;
    unfold ev_poll, ev_read, loop_event_ok; cbn [length Z.of_nat];
    repeat split; auto; try lia;
    try (left; reflexivity); try (right; split; reflexivity).
Qed.

Lemma loop_run_events mosq t r w it w' :
  loop_run mosq t r w it w' ->
  0 <= t <= response_size - 1 ->
  Z.of_nat (length r) = response_size ->
  exists evs,
    w_trace w' = w_trace w ++ evs /\ Forall (loop_event_ok mosq) evs /\
    w_allocs w' = w_allocs w /\ w_writes w' = w_writes w.
Proof.
  induction 1 as [t r w Hfull|t r w rc w' Hlt Hstep|t r w t' r' w' Hlt Hstep
                  |t r w t' r' w' it w'' Hlt Hstep Hrun IH]; intros Ht Hr.
  - exists []. rewrite app_nil_r. repeat split. constructor.
  - eapply iter_step_events; [|exact Hstep]. lia.
  - eapply iter_step_events; [|exact Hstep]. lia.
  - destruct (iter_step_events _ _ _ _ _ _ (conj (proj1 Ht) Hlt) Hstep)
      as (evs1 & Htr1 & Hok1 & Ha1 & Hw1).
    destruct (iter_step_cursor _ _ _ _ _ _ t' r' (conj (proj1 Ht) Hlt) Hr Hstep)
      as [Ht' Hr']; [left; reflexivity|].
    destruct IH as (evs2 & Htr2 & Hok2 & Ha2 & Hw2); [lia|exact Hr'|].
    exists (evs1 ++ evs2). repeat split.
    + rewrite Htr2, Htr1, app_assoc. reflexivity.
    + apply Forall_app. split; assumption.
    + congruence.
    + congruence.
Qed.

Lemma check_case_events response w o w' :
  check_case response w o w' ->
  exists evs,
    w_trace w' = w_trace w ++ evs /\
    Forall (fun e => match e with EvFree _ | EvLog _ _ _ => True | _ => False end)
           evs.
Proof.
  intros H. destruct H; (eexists; split; [reflexivity|]); repeat constructor.
Qed.

(** **** C5
    When the formatted request does not fit the 1024 bytes of the
    request buffer, [net__proxy_connect] returns without having called
    [net__write]: once the response block is allocated (the first thing
    the function does, and the only thing when the allocation fails) it
    frees the block, logs that the request is too long and returns
    [MOSQ_ERR_PROXY]. *)
Theorem request_too_large_no_write mosq dest_host dest_port w :
  sizeof_request
    <= Z.of_nat (length (format_request mosq dest_host dest_port)) ->
  let r := net__proxy_connect mosq dest_host dest_port w in
  exists evs,
    w_trace (snd r) = w_trace w ++ evs /\
    (forall data n, ~ In (EvWrite data n) evs) /\
    w_writes (snd r) = w_writes w /\
    ((~ alloc_fails w /\
      fst r = Returns MOSQ_ERR_PROXY /\
      evs = [EvAlloc response_size true; EvFree (alloc_block w);
             EvLog MOSQ_LOG_ERR "Proxy CONNECT request too long." []])
     \/ (alloc_fails w /\
         fst r = Returns MOSQ_ERR_NOMEM /\
         evs = [EvAlloc response_size false])).
Proof.
  intros Hbig r.
  pose proof (net__proxy_connect_run mosq dest_host dest_port w) as Hrun.
  fold r in Hrun. destruct r as [o w']. cbn [fst snd] in *.
  destruct Hrun as [Hfail|Hok Hsz|req w1 Hok Hfit Hwr
                    |rc w3 req w1 Hok Hfit Hwr Hloop
                    |t r w3 o w4 req w1 Hok Hfit Hwr Hloop Hcheck];
    try (subst req; lia).
  - eexists. split; [reflexivity|]. split; [|split; [reflexivity|]].
    + intros data n [Hin|[]]. discriminate.
    + right. auto.
  - eexists. split.
    + unfold emits, after, after_alloc. cbn [w_trace].
      rewrite <- app_assoc. reflexivity.
    + split; [|split; [reflexivity|]].
      * intros data n [Hin|[Hin|[Hin|[]]]]; discriminate.
      * left. auto.
Qed.

Lemma request_too_large_no_write_witness :
  let mosq := mk_mosquitto 3 (mk_proxy (Some (lit "proxy")) 8080 None) in
  let dest_host := repeat "a"%char 1000 in
  let w := mk_world [] [] [] [] 0 0 [] in
  sizeof_request <= Z.of_nat (length (format_request mosq dest_host 1883)) /\
  exists evs,
    w_trace (snd (net__proxy_connect mosq dest_host 1883 w))
    = w_trace w ++ evs /\
    (forall data n, ~ In (EvWrite data n) evs).
Proof.
  intros mosq dest_host w.
  assert (H : sizeof_request
              <= Z.of_nat (length (format_request mosq dest_host 1883)))
    by (vm_compute; discriminate).
  split; [exact H|].
  destruct (request_too_large_no_write mosq dest_host 1883 w H)
    as (evs & Htr & Hno & _).
  exists evs. split; assumption.
Defined.

(* ================================================================== *)
(** ** The calls a handshake makes *)

Lemma loop_event_run_event mosq dh dp e :
  loop_event_ok mosq e -> run_event_ok mosq dh dp e.
Proof. destruct e; cbn; tauto. Qed.

Lemma connect_run_events mosq dh dp w o w' :
  connect_run mosq dh dp w o w' ->
  exists evs,
    w_trace w' = w_trace w ++ evs /\ Forall (run_event_ok mosq dh dp) evs.
Proof.
  intros Hrun.
  pose proof (alloc_block_length w) as Hlen.
  destruct Hrun as [Hfail|Hok Hsz|req w1 Hok Hfit Hwr
                    |rc w3 req w1 Hok Hfit Hwr Hloop
                    |t r w3 o w4 req w1 Hok Hfit Hwr Hloop Hcheck].
  - eexists. split; [reflexivity|]. repeat constructor.
  - eexists. split.
    + unfold emits, after, after_alloc. cbn [w_trace].
      rewrite <- app_assoc. reflexivity.
    + repeat constructor.
  - eexists. split.
    + unfold emits, after, after_write. subst w1. unfold after_alloc.
      cbn [w_trace]. rewrite <- !app_assoc. reflexivity.
    + repeat constructor. exact Hfit.
  - destruct (loop_run_events _ _ _ _ _ _ Hloop) as (evs & Htr & Hev & _);
      [unfold response_size; lia|exact Hlen|].
    exists ([EvAlloc response_size true;
             EvWrite req (write_returns w1 (Z.of_nat (length req)))] ++ evs).
    split.
    + rewrite Htr. unfold after_write. subst w1. unfold after_alloc.
      cbn [w_trace]. rewrite <- !app_assoc. reflexivity.
    + apply Forall_app. split.
      * repeat constructor. exact Hfit.
      * eapply Forall_impl; [|exact Hev]. apply loop_event_run_event.
  - destruct (loop_run_events _ _ _ _ _ _ Hloop) as (evs & Htr & Hev & _);
      [unfold response_size; lia|exact Hlen|].
    destruct (check_case_events _ _ _ _ Hcheck) as (evs' & Htr' & Hev').
    exists ([EvAlloc response_size true;
             EvWrite req (write_returns w1 (Z.of_nat (length req)))]
            ++ evs ++ evs').
    split.
    + rewrite Htr', Htr. unfold after_write. subst w1. unfold after_alloc.
      cbn [w_trace]. rewrite <- !app_assoc. reflexivity.
    + apply Forall_app. split; [|apply Forall_app; split].
      * repeat constructor. exact Hfit.
      * eapply Forall_impl; [|exact Hev]. apply loop_event_run_event.
      * eapply Forall_impl; [|exact Hev'].
        intros [] He; cbn; tauto.
Qed.

Lemma events_since_app w w' evs :
  w_trace w' = w_trace w ++ evs -> events_since w w' = evs.
Proof.
  intros H. unfold events_since. rewrite H, skipn_app, skipn_all, Nat.sub_diag.
  reflexivity.
Qed.

Lemma net__proxy_connect_events mosq dh dp w :
  Forall (run_event_ok mosq dh dp)
         (events_since w (snd (net__proxy_connect mosq dh dp w))).
Proof.
  destruct (connect_run_events _ _ _ _ _ _ (net__proxy_connect_run mosq dh dp w))
    as (evs & Htr & Hev).
  rewrite (events_since_app _ _ _ Htr). exact Hev.
Qed.

(* ================================================================== *)
(** ** The request *)

Lemma mosquitto_proxy_set_inval mosq host port auth_value w mosq' w' :
  mosquitto_proxy_set mosq host port auth_value w = (MOSQ_ERR_INVAL, mosq', w') ->
  mosq' = mosq.
Proof.
  unfold mosquitto_proxy_set.
  repeat match goal with
         | |- context [match ?x with _ => _ end] => destruct x eqn:?
         end; intros [= <-]; reflexivity.
Qed.

Lemma configured_auth_header m : configured m -> auth_header_wf m.
Proof.
  induction 1 as [s h p|m host port auth_value w rc m' w' _ IH Hset].
  - exact I.
  - destruct rc.
    + apply mosquitto_proxy_set_success in Hset
        as (m0 & h0 & _ & _ & _ & ->).
      unfold auth_header_wf, auth_header_of. cbn.
      destruct auth_value as [v|]; [|exact I].
      destruct (0 <? strlen v); [|exact I]. exists v. reflexivity.
    + apply mosquitto_proxy_set_nomem in Hset as (m0 & _ & _ & Ha & _).
      unfold auth_header_wf. rewrite Ha. exact I.
    + apply mosquitto_proxy_set_inval in Hset. injection Hset as <-. exact IH.
    + exfalso. revert Hset. unfold mosquitto_proxy_set.
      repeat match goal with
             | |- context [match ?x with _ => _ end] => destruct x eqn:?
             end; discriminate.
Qed.

(* ================================================================== *)
(** ** An event other than input *)

(** **** C10
    In a pass through the loop in which the wait reports events that do
    not include [POLLIN], the function frees the response block as it
    was before the pass, logs a socket error and returns
    [MOSQ_ERR_PROXY]; it calls [net__read] neither before nor after, so
    the read script of the socket is where it was. *)
Theorem no_pollin_returns_without_read mosq total_read response w d revents rest :
  w_polls w = mk_poll_ev d (PollEvents revents) :: rest ->
  d < connect_timeout_ms ->
  Z.land revents POLLIN = 0 ->
  let r := loop_body mosq total_read response w in
  fst r = Return MOSQ_ERR_PROXY /\
  events_since w (snd r)
  = [EvPoll (sock mosq) POLLIN connect_timeout_ms 1;
     EvFree response;
     EvLog MOSQ_LOG_ERR "Proxy socket error during connect." []] /\
  (forall offset count data n,
     ~ In (EvRead offset count data n) (events_since w (snd r))) /\
  w_reads (snd r) = w_reads w.
Proof.
  intros Hp Hd Hin r.
  assert (Hr : r = (Return MOSQ_ERR_PROXY,
                    after w rest (w_reads w) (w_errno w)
                      (w_clock w + Z.max 0 d)
                      [ev_poll mosq 1; EvFree response;
                       EvLog MOSQ_LOG_ERR
                             "Proxy socket error during connect." []])).
  { subst r. unfold loop_body, poll. rewrite Hp. cbn [delay what].
    change (0 <=? connect_timeout_ms) with true. cbn [andb].
    replace (connect_timeout_ms <=? d) with false
      by (symmetry; apply Z.leb_gt; exact Hd).
    cbn [Z.ltb Z.eqb Z.compare]. rewrite Hin.
    cbn [Z.eqb negb]. f_equal. trace_eq. }
  rewrite Hr. cbn [fst snd].
  assert (Hev : events_since w
                  (after w rest (w_reads w) (w_errno w)
                     (w_clock w + Z.max 0 d)
                     [ev_poll mosq 1; EvFree response;
                      EvLog MOSQ_LOG_ERR
                            "Proxy socket error during connect." []])
                = [ev_poll mosq 1; EvFree response;
                   EvLog MOSQ_LOG_ERR
                         "Proxy socket error during connect." []]).
  { apply events_since_app. reflexivity. }
  rewrite Hev. repeat split.
  intros offset count data n [H|[H|[H|[]]]]; discriminate.
Qed.

Lemma no_pollin_returns_without_read_witness :
  let mosq := mk_mosquitto 3 (mk_proxy (Some (lit "proxy")) 8080 None) in
  let response := lit "HTTP/1.1 2" ++ repeat NUL 2038 in
  let w := mk_world [] [] [mk_poll_ev 20 (PollEvents 24)]
                    [ReadData (lit "00 OK")] 0 0 [] in
  (w_polls w = [mk_poll_ev 20 (PollEvents 24)] /\
   20 < connect_timeout_ms /\
   Z.land 24 POLLIN = 0) /\
  fst (loop_body mosq 10 response w) = Return MOSQ_ERR_PROXY /\
  w_reads (snd (loop_body mosq 10 response w)) = [ReadData (lit "00 OK")].
Proof.
  intros mosq response w.
  assert (H1 : w_polls w = [mk_poll_ev 20 (PollEvents 24)]) by reflexivity.
  assert (H2 : 20 < connect_timeout_ms) by (unfold connect_timeout_ms; lia).
  assert (H3 : Z.land 24 POLLIN = 0) by reflexivity.
  split; [auto|].
  destruct (no_pollin_returns_without_read mosq 10 response w 20 24 [] H1 H2 H3)
    as (Hret & _ & _ & Hreads).
  split; [exact Hret|exact Hreads].
Defined.

(* ================================================================== *)
(** ** What the loop accumulates *)

Lemma received_app evs1 evs2 :
  received (evs1 ++ evs2) = received evs1 ++ received evs2.
Proof. apply flat_map_app. Qed.

(** A step that stays in the function is a read of data. *)
Lemma iter_step_data_inv mosq t r w it w' t' r' :
  0 <= t < response_size - 1 ->
  iter_step mosq t r w it w' ->
  it = Continue t' r' \/ it = Break t' r' ->
  exists d revents rest data rs,
    let got := read_chunk t data in
    w_polls w = mk_poll_ev d (PollEvents revents) :: rest /\
    d < connect_timeout_ms /\
    Z.land revents POLLIN <> 0 /\
    w_reads w = ReadData data :: rs /\
    data <> [] /\ got <> [] /\
    Z.of_nat (length got) <= response_size - 1 - t /\
    t' = t + Z.of_nat (length got) /\
    r' = block_after t r got /\
    w' = after w rest rs (w_errno w) (w_clock w + Z.max 0 d)
           [ev_poll mosq 1; ev_read t got (Z.of_nat (length got))] /\
    (it = Continue t' r' ->
     strstr (firstn (Z.to_nat t) r ++ got) terminator = None) /\
    (it = Break t' r' ->
     strstr (firstn (Z.to_nat t) r ++ got) terminator <> None).
Proof.
  intros Ht Hstep Hit.
  destruct Hstep as [| | | | |d revents rest data rs Hp Hd Hin Hrd Hne];
    try (destruct Hit; discriminate).
  exists d, revents, rest, data, rs. cbn zeta.
  pose proof (read_chunk_length t data Ht) as Hlen.
  pose proof (read_chunk_nonempty t data Ht Hne) as Hgot.
  destruct (strstr _ terminator) eqn:Hs; destruct Hit as [Hit|Hit];
    try discriminate; injection Hit as <- <-;
    repeat split; auto; try discriminate.
Qed.

(** A step that leaves the function stored nothing. *)
Lemma iter_step_return_inv mosq t r w rc w' :
  iter_step mosq t r w (Return rc) w' ->
  rc = MOSQ_ERR_PROXY /\
  exists evs, w_trace w' = w_trace w ++ evs /\ received evs = [].
Proof.
  intros Hstep. inversion Hstep; subst;
    try (split; [reflexivity|]; eexists; split; reflexivity).
  destruct (strstr _ terminator); discriminate.
Qed.

Lemma block_after_holds t r got :
  holds (block_after t r got) (firstn (Z.to_nat t) r ++ got).
Proof. eexists. reflexivity. Qed.

Lemma holds_strstr r acc needle :
  holds r acc -> strstr r needle = strstr acc needle.
Proof. intros [tail ->]. apply strstr_app_nul. Qed.

Lemma holds_c_str r acc : holds r acc -> c_str r = c_str acc.
Proof. intros [tail ->]. apply c_str_app_nul. Qed.

(** The loop invariant: the block holds what was received, and the
    terminator has not been seen while the loop goes on. *)
Lemma loop_run_received mosq t r w it w' :
  loop_run mosq t r w it w' ->
  0 <= t <= response_size - 1 ->
  Z.of_nat (length r) = response_size ->
  strstr (firstn (Z.to_nat t) r) terminator = None ->
  t = 0 \/ holds r (firstn (Z.to_nat t) r) ->
  exists evs,
    w_trace w' = w_trace w ++ evs /\
    match it with
    | Return rc =>
        rc = MOSQ_ERR_PROXY /\
        strstr (firstn (Z.to_nat t) r ++ received evs) terminator = None
    | Break t' r' =>
        t' = t + Z.of_nat (length (received evs)) /\
        0 < t' <= response_size - 1 /\
        Z.of_nat (length r') = response_size /\
        holds r' (firstn (Z.to_nat t) r ++ received evs) /\
        (strstr r' terminator = None -> t' = response_size - 1)
    | _ => False
    end.
Proof.
  induction 1 as [t r w Hfull|t r w rc w' Hlt Hstep|t r w t' r' w' Hlt Hstep
                  |t r w t' r' w' it w'' Hlt Hstep Hrun IH];
    intros Ht Hr Hnone Hheld.
  - exists []. rewrite !app_nil_r. split; [reflexivity|].
    cbn [received flat_map length Z.of_nat].
    assert (t = response_size - 1) by lia.
    repeat split; try lia.
    + unfold response_size in *. lia.
    + destruct Hheld as [->|Hheld]; [unfold response_size in *; lia|exact Hheld].
  - apply iter_step_return_inv in Hstep as (-> & evs & Htr & Hrecv).
    exists evs. split; [exact Htr|]. split; [reflexivity|].
    rewrite Hrecv, app_nil_r. exact Hnone.
  - destruct (iter_step_data_inv _ _ _ _ _ _ t' r' (conj (proj1 Ht) Hlt) Hstep)
      as (d & revents & rest & data & rs & Hp & Hd & Hin & Hrd & Hne & Hgot
          & Hlen & -> & -> & -> & _ & Hfound); [right; reflexivity|].
    eexists. split; [reflexivity|].
    cbn [received flat_map ev_poll ev_read app]. rewrite app_nil_r.
    assert (0 < Z.of_nat (length (read_chunk t data))).
    { destruct (read_chunk t data); [congruence|cbn [length]; lia]. }
    repeat split; try lia.
    + rewrite block_after_length; lia.
    + apply block_after_holds.
    + intros Hs. rewrite strstr_block_after in Hs.
      exfalso. apply Hfound; [reflexivity|exact Hs].
  - destruct (iter_step_data_inv _ _ _ _ _ _ t' r' (conj (proj1 Ht) Hlt) Hstep)
      as (d & revents & rest & data & rs & Hp & Hd & Hin & Hrd & Hne & Hgot
          & Hlen & Ht' & Hr' & Hw' & Hnone' & _); [left; reflexivity|].
    cbn zeta in *.
    set (got := read_chunk t data) in *.
    assert (Hpos : 0 < Z.of_nat (length got)).
    { destruct got; [congruence|cbn [length]; lia]. }
    assert (Hfirst : firstn (Z.to_nat t') r' = firstn (Z.to_nat t) r ++ got).
    { subst t' r'. apply block_after_firstn; lia. }
    destruct IH as (evs & Htr & Hit).
    + lia.
    + subst r'. rewrite block_after_length; lia.
    + rewrite Hfirst. apply Hnone'. reflexivity.
    + right. rewrite Hfirst. subst r'. apply block_after_holds.
    + exists ([ev_poll mosq 1; ev_read t got (Z.of_nat (length got))] ++ evs).
      split.
      * rewrite Htr, Hw'. cbn [after w_trace]. rewrite <- app_assoc.
        reflexivity.
      * rewrite received_app.
        cbn [received flat_map ev_poll ev_read app].
        rewrite app_nil_r. fold (received evs).
        rewrite Hfirst, <- app_assoc in Hit.
        destruct it as [t2 r2|t2 r2|rc|]; try exact Hit.
        rewrite length_app. destruct Hit as (-> & Hit). split; [lia|exact Hit].
Qed.

Lemma firstn_holds r acc p :
  holds r acc -> nul_free p ->
  firstn (length p) r = p <-> firstn (length p) acc = p.
Proof.
  intros [tail ->] Hp.
  destruct (Nat.le_gt_cases (length p) (length acc)) as [Hle|Hgt].
  - rewrite firstn_app.
    replace (length p - length acc)%nat with 0%nat by lia.
    cbn [firstn]. rewrite app_nil_r. reflexivity.
  - split; intros H.
    + exfalso. rewrite firstn_app, firstn_all2 in H by lia.
      destruct (length p - length acc)%nat eqn:E; [lia|].
      cbn [firstn] in H. rewrite <- H in Hp.
      apply nul_free_app in Hp as [_ Hp]. inversion Hp. congruence.
    + exfalso. apply (f_equal (@length ascii)) in H.
      rewrite length_firstn in H. lia.
Qed.

Lemma status_ok_holds r acc : holds r acc -> status_ok r <-> status_ok acc.
Proof.
  intros H. unfold status_ok.
  change 12%nat with (length (lit "HTTP/1.1 200")) at 1 3.
  change 12%nat with (length (lit "HTTP/1.0 200")).
  rewrite !(firstn_holds r acc _ H) by (repeat constructor; discriminate).
  reflexivity.
Qed.

Lemma status_line_holds r acc : holds r acc -> status_line r = status_line acc.
Proof.
  intros H. unfold status_line.
  rewrite (holds_strstr r acc CRLF H).
  destruct (strstr acc CRLF) as [i|] eqn:Hi.
  - f_equal. destruct H as [tail ->].
    assert ((i < length acc)%nat).
    { eapply strstr_bound; [|apply nul_free_CRLF|exact Hi]. discriminate. }
    rewrite firstn_app. replace (i - length acc)%nat with 0%nat by lia.
    cbn [firstn]. apply app_nil_r.
  - unfold fmt_s. apply holds_c_str. exact H.
Qed.

(** What a handshake that got to read did: it allocated the block,
    wrote the request, and ran the loop from an empty block. *)
Lemma received_run_prefix size ok data n evs :
  received ([EvAlloc size ok; EvWrite data n] ++ evs) = received evs.
Proof. reflexivity. Qed.

Lemma check_case_received response w o w' evs :
  check_case response w o w' ->
  w_trace w = evs ->
  exists evs', w_trace w' = evs ++ evs' /\ received evs' = [].
Proof.
  intros H <-. destruct H; eexists; split; reflexivity.
Qed.

(** **** C2 (as amended)
    Whenever the C string of the response accumulated by
    [net__proxy_connect], that is the bytes its reads stored up to the
    first NUL among them, which is all that [strstr] and [strncmp]
    see, contains CR LF CR LF, the function returns
    [MOSQ_ERR_SUCCESS] if and only if the response starts with the 12
    bytes ["HTTP/1.1 200"] or ["HTTP/1.0 200"]; with any other start it
    logs ["Proxy CONNECT failed: "] with the status line, frees the
    block and returns [MOSQ_ERR_PROXY]. *)
Theorem status_prefix_decides mosq dest_host dest_port w :
  let r := net__proxy_connect mosq dest_host dest_port w in
  let response := received (events_since w (snd r)) in
  contains (c_str response) terminator ->
  (fst r = Returns MOSQ_ERR_SUCCESS <-> status_ok response) /\
  (~ status_ok response ->
   fst r = Returns MOSQ_ERR_PROXY /\
   exists evs block,
     events_since w (snd r)
     = evs ++ [EvLog MOSQ_LOG_ERR "Proxy CONNECT failed: %s"
                     [ArgStr (status_line response)];
               EvFree block]).
Proof.
  intros r response Hterm.
  pose proof (net__proxy_connect_run mosq dest_host dest_port w) as Hrun.
  fold r in Hrun. subst response.
  destruct r as [o w']. cbn [fst snd] in *.
  pose proof (alloc_block_length w) as Hlen.
  destruct Hrun as [Hfail|Hok Hsz|req w1 Hok Hfit Hwr
                    |rc w3 req w1 Hok Hfit Hwr Hloop
                    |t r w3 o w4 req w1 Hok Hfit Hwr Hloop Hcheck].
  - exfalso. rewrite (events_since_app w _ [EvAlloc response_size false])
      in Hterm by reflexivity.
    apply contains_nil in Hterm. discriminate.
  - exfalso.
    rewrite (events_since_app w _
               [EvAlloc response_size true; EvFree (alloc_block w);
                EvLog MOSQ_LOG_ERR "Proxy CONNECT request too long." []])
      in Hterm
      by (unfold emits, after, after_alloc; cbn [w_trace];
          rewrite <- app_assoc; reflexivity).
    apply contains_nil in Hterm. discriminate.
  - exfalso.
    rewrite (events_since_app w _
               [EvAlloc response_size true;
                EvWrite req (write_returns w1 (Z.of_nat (length req)));
                EvFree (alloc_block w);
                EvLog MOSQ_LOG_ERR "Error writing to proxy: %s."
                      [ArgStrerror (errno_after_write w1)]])
      in Hterm
      by (unfold emits, after, after_write; subst w1; unfold after_alloc;
          cbn [w_trace]; rewrite <- !app_assoc; reflexivity).
    apply contains_nil in Hterm. discriminate.
  - exfalso.
    destruct (loop_run_received _ _ _ _ _ _ Hloop) as (evs & Htr & _ & Hnone);
      [unfold response_size; lia|exact Hlen|reflexivity|left; reflexivity|].
    cbn [Z.to_nat firstn app] in Hnone.
    rewrite (events_since_app w _
               ([EvAlloc response_size true;
                 EvWrite req (write_returns w1 (Z.of_nat (length req)))]
                ++ evs)) in Hterm
      by (rewrite Htr; unfold after_write; subst w1; unfold after_alloc;
          cbn [w_trace]; rewrite <- !app_assoc; reflexivity).
    rewrite received_run_prefix in Hterm.
    apply (strstr_none_spec _ _ nul_free_terminator) in Hnone.
    contradiction.
  - destruct (loop_run_received _ _ _ _ _ _ Hloop)
      as (evs & Htr & _ & _ & _ & Hheld & _);
      [unfold response_size; lia|exact Hlen|reflexivity|left; reflexivity|].
    cbn [Z.to_nat firstn app] in Hheld.
    destruct (check_case_received _ _ _ _ _ Hcheck eq_refl)
      as (evs' & Htr' & Hrecv').
    assert (Hev : events_since w w4
                  = [EvAlloc response_size true;
                     EvWrite req (write_returns w1 (Z.of_nat (length req)))]
                    ++ evs ++ evs').
    { apply events_since_app. rewrite Htr', Htr. unfold after_write.
      subst w1. unfold after_alloc. cbn [w_trace].
      rewrite <- !app_assoc. reflexivity. }
    rewrite Hev in *. rewrite received_run_prefix, received_app, Hrecv',
      app_nil_r in *.
    rewrite <- (status_ok_holds r _ Hheld), <- (status_line_holds r _ Hheld).
    apply (strstr_spec _ _ nul_free_terminator) in Hterm.
    rewrite <- (holds_strstr r _ _ Hheld) in Hterm.
    destruct Hcheck as [Hnone|Hfound Hno|Hfound Hyes].
    + contradiction.
    + split.
      * split; [discriminate|contradiction].
      * intros _. split; [reflexivity|].
        exists ([EvAlloc response_size true;
                 EvWrite req (write_returns w1 (Z.of_nat (length req)))]
                ++ evs), r.
        rewrite <- !app_assoc. f_equal. f_equal.
        apply (app_inv_head (w_trace w3)). rewrite <- Htr'. reflexivity.
    + split.
      * split; [intros _; exact Hyes|reflexivity].
      * intros Hno. contradiction.
Qed.

Lemma status_prefix_decides_witness :
  let mosq := mk_mosquitto 3 (mk_proxy (Some (lit "proxy")) 8080 None) in
  let w := mk_world [] [] [mk_poll_ev 5 (PollEvents POLLIN)]
             [ReadData (lit "HTTP/1.0 200 Connection established"
                        ++ CRLF ++ CRLF)] 0 0 [] in
  let r := net__proxy_connect mosq (lit "broker") 1883 w in
  contains (c_str (received (events_since w (snd r)))) terminator /\
  fst r = Returns MOSQ_ERR_SUCCESS.
Proof.
  intros mosq w r.
  assert (H : contains (c_str (received (events_since w (snd r)))) terminator).
  { exists (lit "HTTP/1.0 200 Connection established"), []. reflexivity. }
  split; [exact H|].
  apply (status_prefix_decides mosq (lit "broker") 1883 w H).
  right. reflexivity.
Defined.

(** The claim as it was, for every accumulated response that contains
    CR LF CR LF: a response that starts with ["HTTP/1.1 200"] and
    contains CR LF CR LF, but only after a NUL.  The NUL ends the string
    the function scans, so the terminator is not seen: the function
    waits for more, the wait times out, and it returns
    [MOSQ_ERR_PROXY]. *)
Lemma status_prefix_after_nul_refused :
  let mosq := mk_mosquitto 3 (mk_proxy (Some (lit "proxy")) 8080 None) in
  let w := mk_world [] [] [mk_poll_ev 5 (PollEvents POLLIN)]
             [ReadData (lit "HTTP/1.1 200 OK" ++ NUL :: CRLF ++ CRLF)]
             0 0 [] in
  let r := net__proxy_connect mosq (lit "broker") 1883 w in
  let response := received (events_since w (snd r)) in
  response = lit "HTTP/1.1 200 OK" ++ NUL :: CRLF ++ CRLF /\
  contains response terminator /\
  status_ok response /\
  ~ contains (c_str response) terminator /\
  fst r = Returns MOSQ_ERR_PROXY /\
  diagnostic (events_since w (snd r))
  = Some (MOSQ_LOG_ERR, "Proxy connect timed out."%string).
Proof.
  intros mosq w r response. split_all.
  - reflexivity.
  - exists (lit "HTTP/1.1 200 OK" ++ [NUL]), []. reflexivity.
  - left. reflexivity.
  - apply (strstr_none_spec _ _ nul_free_terminator). reflexivity.
  - reflexivity.
  - reflexivity.
Qed.

(* ================================================================== *)
(** ** A socket that delivers data *)

(** With data to read the step is determined. *)
Lemma iter_step_data_det mosq t r w it w' p ps data rs :
  0 <= t < response_size - 1 ->
  w_polls w = p :: ps -> ready p ->
  w_reads w = ReadData data :: rs -> data <> [] ->
  iter_step mosq t r w it w' ->
  let got := read_chunk t data in
  it = match strstr (firstn (Z.to_nat t) r ++ got) terminator with
       | Some _ => Break (t + Z.of_nat (length got)) (block_after t r got)
       | None => Continue (t + Z.of_nat (length got)) (block_after t r got)
       end /\
  w' = after w ps rs (w_errno w) (w_clock w + Z.max 0 (delay p))
         [ev_poll mosq 1; ev_read t got (Z.of_nat (length got))].
Proof.
  intros Ht Hp [Hd Hwhat] Hrd Hne Hstep got.
  destruct Hstep as [Hto|d e rest Hp' Hd'|d revents rest Hp' Hd' Hin
                     |d revents rest e rs' Hp' Hd' Hin Hrd'
                     |d revents rest Hp' Hd' Hin Hrd'
                     |d revents rest data' rs' Hp' Hd' Hin Hrd' Hne'].
  - exfalso. unfold poll_times_out in Hto. rewrite Hp in Hto. lia.
  - exfalso. rewrite Hp in Hp'. injection Hp' as -> _. exact Hwhat.
  - exfalso. rewrite Hp in Hp'. injection Hp' as -> _. cbn in Hwhat. tauto.
  - exfalso. rewrite Hrd in Hrd'. discriminate.
  - exfalso. destruct Hrd' as [Hrd'|Hrd']; rewrite Hrd in Hrd';
      [discriminate|]. injection Hrd' as ->. congruence.
  - rewrite Hp in Hp'. injection Hp' as -> ->.
    rewrite Hrd in Hrd'. injection Hrd' as -> ->.
    split; reflexivity.
Qed.

(** With data to read the loop either breaks on the terminator or goes
    on from the next cursor. *)
Lemma loop_run_data mosq t r w it w' p ps data rs :
  0 <= t < response_size - 1 ->
  w_polls w = p :: ps -> ready p ->
  w_reads w = ReadData data :: rs -> data <> [] ->
  loop_run mosq t r w it w' ->
  let got := read_chunk t data in
  let t' := t + Z.of_nat (length got) in
  let r' := block_after t r got in
  let w1 := after w ps rs (w_errno w) (w_clock w + Z.max 0 (delay p))
              [ev_poll mosq 1; ev_read t got (Z.of_nat (length got))] in
  match strstr (firstn (Z.to_nat t) r ++ got) terminator with
  | Some _ => it = Break t' r' /\ w' = w1
  | None => loop_run mosq t' r' w1 it w'
  end.
Proof.
  intros Ht Hp Hready Hrd Hne Hrun got t' r' w1.
  destruct Hrun as [t r w Hfull|t r w rc w' Hlt Hstep|t r w t2 r2 w' Hlt Hstep
                    |t r w t2 r2 w2 it w' Hlt Hstep Hrun]; [lia| | |];
    destruct (iter_step_data_det _ _ _ _ _ _ _ _ _ _ Ht Hp Hready Hrd Hne Hstep)
      as [Hit Hw]; fold got in Hit, Hw; fold t' r' in Hit; fold w1 in Hw;
    destruct (strstr (firstn (Z.to_nat t) r ++ got) terminator);
    try discriminate.
  - injection Hit as <- <-. split; [reflexivity|exact Hw].
  - injection Hit as <- <-. subst w2. exact Hrun.
Qed.

(** A terminator that is not in a longer block is not in a shorter
    one. *)
Lemma strstr_app_none a b needle :
  nul_free needle ->
  strstr (a ++ b) needle = None -> strstr a needle = None.
Proof.
  intros Hn H. apply (strstr_none_spec _ _ Hn). intros Hc.
  apply (strstr_none_spec _ _ Hn) in H. apply H.
  destruct (c_str_app_prefix a b) as [rest ->].
  apply contains_app_l. exact Hc.
Qed.


Lemma write_returns_after_alloc w ok count :
  write_returns (after_alloc w ok) count = write_returns w count.
Proof. reflexivity. Qed.



(* ================================================================== *)
(** ** A response without terminator *)

Lemma loop_run_full mosq t r w it w' :
  loop_run mosq t r w it w' ->
  ~ t < response_size - 1 -> it = Break t r /\ w' = w.
Proof.
  intros Hrun Hfull. destruct Hrun; try contradiction. split; reflexivity.
Qed.

(** The loop on a stream that has no terminator in the room of the
    block: it reads until the cursor is on the last byte of the
    block. *)
Lemma loop_run_flood mosq chunks :
  forall t r w it w',
    loop_run mosq t r w it w' ->
    0 <= t <= response_size - 1 ->
    Z.of_nat (length r) = response_size ->
    t = 0 \/ holds r (firstn (Z.to_nat t) r) ->
    delivers (w_polls w) (w_reads w) chunks ->
    response_size - 1 <= t + Z.of_nat (length (concat chunks)) ->
    strstr (firstn (Z.to_nat t) r
            ++ firstn (Z.to_nat (response_size - 1 - t)) (concat chunks))
           terminator = None ->
    exists r' evs,
      it = Break (response_size - 1) r' /\
      holds r' (firstn (Z.to_nat t) r
                ++ firstn (Z.to_nat (response_size - 1 - t)) (concat chunks)) /\
      w_trace w' = w_trace w ++ evs /\
      received evs = firstn (Z.to_nat (response_size - 1 - t)) (concat chunks).
Proof.
  assert (Hsize : 0 < response_size - 1) by (unfold response_size; lia).
  assert (Hfull : forall t r w it w' l,
    loop_run mosq t r w it w' ->
    0 <= t <= response_size - 1 ->
    t = 0 \/ holds r (firstn (Z.to_nat t) r) ->
    response_size - 1 <= t ->
    exists r' evs,
      it = Break (response_size - 1) r' /\
      holds r' (firstn (Z.to_nat t) r
                ++ firstn (Z.to_nat (response_size - 1 - t)) l) /\
      w_trace w' = w_trace w ++ evs /\
      received evs = firstn (Z.to_nat (response_size - 1 - t)) l).
  { intros t r w it w' l Hrun Ht Hheld Hge.
    destruct (loop_run_full _ _ _ _ _ _ Hrun) as [-> ->]; [lia|].
    replace (Z.to_nat (response_size - 1 - t)) with 0%nat by lia.
    cbn [firstn]. rewrite app_nil_r.
    exists r, []. rewrite app_nil_r.
    split; [f_equal; lia|]. split; [|split; reflexivity].
    destruct Hheld as [->|Hheld]; [lia|exact Hheld]. }
  induction chunks as [|c cs IH];
    intros t r w it w' Hrun Ht Hr Hheld Hdel Hlen Hnone.
  - cbn [concat length Z.of_nat] in Hlen.
    apply (Hfull _ _ _ _ _ _ Hrun Ht Hheld). lia.
  - destruct (Z.lt_ge_cases t (response_size - 1)) as [Hlt|Hge];
      [|apply (Hfull _ _ _ _ _ _ Hrun Ht Hheld Hge)].
    cbn [delivers] in Hdel.
    destruct (w_polls w) as [|p ps] eqn:Hp; [contradiction|].
    destruct (w_reads w) as [|[e|data] rs] eqn:Hrd; try contradiction.
    destruct Hdel as (Hready & -> & Hne & Hdel).
    pose proof (loop_run_data mosq t r w it w' p ps c rs
                  ltac:(lia) Hp Hready Hrd Hne Hrun) as Hstep.
    cbn zeta in Hstep.
    pose proof (read_chunk_length t c ltac:(lia)) as Hgot.
    set (got := read_chunk t c) in *.
    set (n := Z.to_nat (response_size - 1 - t)) in *.
    cbn [concat] in Hnone, Hlen |- *.
    assert (Hsplit : firstn n (c ++ concat cs)
                     = got ++ firstn (Z.to_nat (response_size - 1
                                                - (t + Z.of_nat (length got))))
                                     (concat cs)).
    { rewrite firstn_app. fold (read_chunk t c). fold got. f_equal. f_equal.
      subst got n. unfold read_chunk. rewrite length_firstn. lia. }
    rewrite Hsplit in *. rewrite app_assoc in Hnone.
    rewrite (strstr_app_none _ _ _ nul_free_terminator Hnone) in Hstep.
    assert (Hfirst : firstn (Z.to_nat (t + Z.of_nat (length got)))
                       (block_after t r got)
                     = firstn (Z.to_nat t) r ++ got).
    { apply block_after_firstn; lia. }
    destruct (IH _ _ _ _ _ Hstep) as (r' & evs & -> & Hheld' & Htr & Hrecv).
    + lia.
    + rewrite block_after_length; lia.
    + right. rewrite Hfirst. apply block_after_holds.
    + exact Hdel.
    + rewrite length_app in Hlen.
      assert (length got = Nat.min n (length c)).
      { subst got n. unfold read_chunk. apply length_firstn. }
      lia.
    + rewrite Hfirst. exact Hnone.
    + rewrite Hfirst in Hheld'.
      exists r', ([ev_poll mosq 1; ev_read t got (Z.of_nat (length got))] ++ evs).
      split; [reflexivity|]. split; [rewrite app_assoc; exact Hheld'|].
      split.
      * rewrite Htr. cbn [after w_trace]. rewrite <- app_assoc. reflexivity.
      * rewrite received_app, Hrecv.
        cbn [received flat_map ev_poll ev_read app]. rewrite app_nil_r.
        reflexivity.
Qed.

Lemma connect_run_returns mosq dh dp w o w' :
  connect_run mosq dh dp w o w' -> exists rc, o = Returns rc.
Proof.
  intros H. destruct H as [| | | |t r w3 o w4 req w1 _ _ _ _ Hcheck];
    try (eexists; reflexivity).
  destruct Hcheck; eexists; reflexivity.
Qed.

(** What is not in a block is not in the C string in it. *)
Lemma not_contains_c_str s t : ~ contains s t -> ~ contains (c_str s) t.
Proof.
  intros H Hc. apply H. destruct (c_str_prefix s) as [rest Hs].
  rewrite Hs. apply contains_app_l. exact Hc.
Qed.

(** **** C3
    No store of [net__proxy_connect] falls outside the response block:
    every call returns, none ends in [Undefined], which is how a store
    outside the block ends; and every read is made at a cursor that is
    at least 0, for the room that is left below the last byte of the
    block, so that the cursor after it is at most [response_size - 1],
    where the NUL goes.  And when the
    socket delivers a stream that has no CR LF CR LF in the first
    [response_size - 1] bytes, which is the room the block has for
    data, the function fills the block, leaves the loop, frees the
    block, logs that the response headers are too long or incomplete
    and returns [MOSQ_ERR_PROXY]. *)
Theorem response_too_large mosq dest_host dest_port w :
  let req := format_request mosq dest_host dest_port in
  let r := net__proxy_connect mosq dest_host dest_port w in
  let evs := events_since w (snd r) in
  ((exists rc, fst r = Returns rc) /\
   (forall offset count data n,
      In (EvRead offset count data n) evs ->
      0 <= offset /\
      count = response_size - 1 - offset /\
      offset + Z.of_nat (length data) <= response_size - 1)) /\
  (forall chunks,
     ~ alloc_fails w ->
     Z.of_nat (length req) < sizeof_request ->
     write_returns w (Z.of_nat (length req)) = Z.of_nat (length req) ->
     delivers (w_polls w) (w_reads w) chunks ->
     response_size - 1 <= Z.of_nat (length (concat chunks)) ->
     ~ contains (firstn (Z.to_nat (response_size - 1)) (concat chunks))
                terminator ->
     fst r = Returns MOSQ_ERR_PROXY /\
     received evs = firstn (Z.to_nat (response_size - 1)) (concat chunks) /\
     exists evs0 block,
       holds block (firstn (Z.to_nat (response_size - 1)) (concat chunks)) /\
       evs = evs0
             ++ [EvFree block;
                 EvLog MOSQ_LOG_ERR
                       "Proxy response headers too long or incomplete." []]).
Proof.
  intros req r evs.
  pose proof (net__proxy_connect_run mosq dest_host dest_port w) as Hrun.
  pose proof (net__proxy_connect_events mosq dest_host dest_port w) as Hev.
  fold r in Hrun, Hev. fold evs in Hev.
  split; [split|].
  - eapply connect_run_returns. exact Hrun.
  - intros offset count data n Hin.
    rewrite Forall_forall in Hev. apply Hev in Hin.
    cbn [run_event_ok loop_event_ok] in Hin.
    destruct Hin as (H0 & Hc & Hl & _). repeat split; lia.
  - intros chunks Hok Hfit Hwr Hdel Hlen Hno.
    subst evs. destruct r as [o w']. cbn [fst snd] in *.
    pose proof (alloc_block_length w) as Hblock.
    apply not_contains_c_str in Hno.
    apply (strstr_none_spec _ _ nul_free_terminator) in Hno.
    assert (Hloop : forall it w3,
      loop_run mosq 0 (alloc_block w) (after_write (after_alloc w true) req)
               it w3 ->
      exists r' evs,
        it = Break (response_size - 1) r' /\
        holds r' (firstn (Z.to_nat (response_size - 1)) (concat chunks)) /\
        w_trace w3 = w_trace w
                     ++ [EvAlloc response_size true;
                         EvWrite req (Z.of_nat (length req))]
                     ++ evs /\
        received evs
        = firstn (Z.to_nat (response_size - 1)) (concat chunks)).
    { intros it w3 Hl.
      destruct (loop_run_flood mosq chunks _ _ _ _ _ Hl)
        as (r' & evs & Hit & Hheld & Htr & Hrecv);
        try (rewrite Z.sub_0_r; cbn [Z.to_nat firstn app]);
        try assumption; try (unfold response_size; lia);
        try (left; reflexivity).
      rewrite Z.sub_0_r in Hheld, Hrecv. cbn [Z.to_nat firstn app] in Hheld.
      exists r', evs. repeat split; try assumption.
      rewrite Htr. unfold after_write.
      rewrite write_returns_after_alloc, Hwr. unfold after_alloc.
      cbn [w_trace]. rewrite <- !app_assoc. reflexivity. }
    destruct Hrun as [Hfail|Hok' Hsz|req' w1 Hok' Hfit' Hwr'
                      |rc w3 req' w1 Hok' Hfit' Hwr' Hl
                      |t r0 w3 o' w4 req' w1 Hok' Hfit' Hwr' Hl Hcheck].
    + contradiction.
    + fold req in Hsz. lia.
    + subst req' w1. rewrite write_returns_after_alloc in Hwr'. contradiction.
    + destruct (Hloop _ _ Hl) as (r' & evs & Hit & _). discriminate.
    + destruct (Hloop _ _ Hl) as (r' & evs & Hit & Hheld & Htr & Hrecv).
      injection Hit as -> ->.
      rewrite <- (holds_strstr r' _ _ Hheld) in Hno.
      destruct Hcheck as [Hnone|Hfound Hrej|Hfound Hyes];
        [|contradiction|contradiction].
      assert (Hevs : events_since w
                (emits w3 [EvFree r';
                           EvLog MOSQ_LOG_ERR
                             "Proxy response headers too long or incomplete."
                             []])
              = ([EvAlloc response_size true;
                  EvWrite req (Z.of_nat (length req))] ++ evs)
                ++ [EvFree r';
                    EvLog MOSQ_LOG_ERR
                      "Proxy response headers too long or incomplete." []]).
      { apply events_since_app. unfold emits, after. cbn [w_trace].
        rewrite Htr, <- !app_assoc. reflexivity. }
      rewrite Hevs. split; [reflexivity|]. split.
      * rewrite received_app, received_run_prefix, Hrecv.
        cbn [received flat_map]. apply app_nil_r.
      * eexists _, r'. split; [exact Hheld|reflexivity].
Qed.

Lemma response_too_large_witness :
  let mosq := mk_mosquitto 3 (mk_proxy (Some (lit "proxy")) 8080 None) in
  let w := mk_world [] [] [mk_poll_ev 1 (PollEvents POLLIN)]
                    [ReadData (repeat "a"%char 3000)] 0 0 [] in
  let chunks := [repeat "a"%char 3000] in
  let req := format_request mosq (lit "broker") 1883 in
  (~ alloc_fails w /\
   Z.of_nat (length req) < sizeof_request /\
   write_returns w (Z.of_nat (length req)) = Z.of_nat (length req) /\
   delivers (w_polls w) (w_reads w) chunks /\
   response_size - 1 <= Z.of_nat (length (concat chunks)) /\
   ~ contains (firstn (Z.to_nat (response_size - 1)) (concat chunks))
              terminator) /\
  fst (net__proxy_connect mosq (lit "broker") 1883 w) = Returns MOSQ_ERR_PROXY.
Proof.
  intros mosq w chunks req.
  assert (H1 : ~ alloc_fails w) by discriminate.
  assert (H2 : Z.of_nat (length req) < sizeof_request) by reflexivity.
  assert (H3 : write_returns w (Z.of_nat (length req))
               = Z.of_nat (length req)) by reflexivity.
  assert (H4 : delivers (w_polls w) (w_reads w) chunks).
  { cbn [delivers w_polls w_reads w chunks]. unfold ready.
    cbn [delay what]. repeat split; discriminate. }
  assert (H5 : response_size - 1 <= Z.of_nat (length (concat chunks)))
    by (vm_compute; discriminate).
  assert (H6 : ~ contains (firstn (Z.to_nat (response_size - 1))
                                  (concat chunks)) terminator).
  { replace (firstn (Z.to_nat (response_size - 1)) (concat chunks))
      with (c_str (firstn (Z.to_nat (response_size - 1)) (concat chunks)))
      by (vm_compute; reflexivity).
    apply (strstr_none_spec _ _ nul_free_terminator).
    vm_compute. reflexivity. }
  split; [exact (conj H1 (conj H2 (conj H3 (conj H4 (conj H5 H6)))))|].
  destruct (response_too_large mosq (lit "broker") 1883 w) as [_ Hlarge].
  apply (Hlarge chunks H1 H2 H3 H4 H5 H6).
Defined.

(* ================================================================== *)
(** ** The shape of a run of the loop *)

(** A run of the loop is a number of passes that read data, each after
    a wait that ended before the timeout, and then either the end of
    the loop or one pass that returns. *)
Lemma loop_run_shape mosq t r w it w' :
  loop_run mosq t r w it w' ->
  0 <= t <= response_size - 1 ->
  Z.of_nat (length r) = response_size ->
  exists ps rest evs1 w1 t1 r1,
    w_polls w = ps ++ rest /\ Forall ready ps /\
    Forall data_event evs1 /\ ends_with_data evs1 /\
    w_trace w1 = w_trace w ++ evs1 /\
    w_polls w1 = rest /\
    w_clock w1 = w_clock w + waited ps /\
    ((it = Break t1 r1 /\ w' = w1)
     \/ (exists rc, it = Return rc /\
                    iter_step mosq t1 r1 w1 (Return rc) w')).
Proof.
  induction 1 as [t r w Hfull|t r w rc w' Hlt Hstep|t r w t' r' w' Hlt Hstep
                  |t r w t' r' w' it w'' Hlt Hstep Hrun IH]; intros Ht Hr.
  - exists [], (w_polls w), [], w, t, r. cbn [app waited fold_right].
    rewrite app_nil_r, Z.add_0_r.
    split_all; try reflexivity; try (constructor; fail).
    + left. reflexivity.
    + left. split; reflexivity.
  - exists [], (w_polls w), [], w, t, r. cbn [app waited fold_right].
    rewrite app_nil_r, Z.add_0_r.
    split_all; try reflexivity; try (constructor; fail).
    + left. reflexivity.
    + right. exists rc. split; [reflexivity|exact Hstep].
  - destruct (iter_step_data_inv _ _ _ _ _ _ t' r' (conj (proj1 Ht) Hlt) Hstep)
      as (d & revents & rest & data & rs & Hp & Hd & Hin & Hrd & Hne & Hgot
          & Hlen & Ht' & Hr' & Hw' & _ & _); [right; reflexivity|].
    cbn zeta in *. set (got := read_chunk t data) in *.
    exists [mk_poll_ev d (PollEvents revents)], rest,
      [ev_poll mosq 1; ev_read t got (Z.of_nat (length got))], w', t', r'.
    rewrite Hw'. cbn [after w_trace w_polls w_clock waited fold_right delay].
    rewrite Z.add_0_r. split_all; try reflexivity.
    + exact Hp.
    + constructor; [|constructor]. split; cbn [delay what]; assumption.
    + constructor; [reflexivity|]. constructor; [|constructor].
      split; [reflexivity|exact Hgot].
    + right. exists [ev_poll mosq 1], t, (response_size - 1 - t), got.
      split; [reflexivity|exact Hgot].
    + left. split; reflexivity.
  - destruct (iter_step_data_inv _ _ _ _ _ _ t' r' (conj (proj1 Ht) Hlt) Hstep)
      as (d & revents & rest & data & rs & Hp & Hd & Hin & Hrd & Hne & Hgot
          & Hlen & Ht' & Hr' & Hw' & _ & _); [left; reflexivity|].
    cbn zeta in *. set (got := read_chunk t data) in *.
    assert (Hpos : 0 < Z.of_nat (length got))
      by (destruct got; [congruence|cbn [length]; lia]).
    destruct IH as (ps & rest' & evs1 & w1 & t1 & r1 & Hps & Hready & Hdata
                    & Hends & Htr & Hpolls & Hclock & Hfinal).
    + lia.
    + subst r'. rewrite block_after_length; lia.
    + exists (mk_poll_ev d (PollEvents revents) :: ps), rest',
        ([ev_poll mosq 1; ev_read t got (Z.of_nat (length got))] ++ evs1),
        w1, t1, r1.
      rewrite Hw' in Hps, Htr, Hclock.
      cbn [after w_trace w_polls w_clock] in Hps, Htr, Hclock.
      split_all.
      * rewrite Hp, Hps. reflexivity.
      * constructor; [|exact Hready]. split; cbn [delay what]; assumption.
      * constructor; [reflexivity|]. constructor; [|exact Hdata].
        split; [reflexivity|exact Hgot].
      * right. destruct Hends as [->|(evs0 & offset & count & data' & -> & Hd')].
        -- exists [ev_poll mosq 1], t, (response_size - 1 - t), got.
           split; [reflexivity|exact Hgot].
        -- exists ([ev_poll mosq 1; ev_read t got (Z.of_nat (length got))]
                   ++ evs0), offset, count, data'.
           split; [rewrite <- app_assoc; reflexivity|exact Hd'].
      * rewrite Htr, <- app_assoc. reflexivity.
      * exact Hpolls.
      * rewrite Hclock. unfold waited. cbn [fold_right delay]. lia.
      * exact Hfinal.
Qed.

(* ================================================================== *)
(** ** The timeout of the waits *)

(** [poll] blocks for at most its timeout, and returns 0 exactly when
    nothing happened on the socket for all of it. *)
Lemma poll_blocks fd events timeout w :
  0 <= timeout ->
  let r := poll fd events timeout w in
  0 <= w_clock (snd r) - w_clock w <= timeout /\
  (fst (fst r) = 0 <->
   match w_polls w with
   | [] => True
   | p :: _ => timeout <= delay p
   end) /\
  (fst (fst r) = 0 -> w_clock (snd r) - w_clock w = timeout).
Proof.
  intros Ht. unfold poll.
  replace (0 <=? timeout) with true by (symmetry; apply Z.leb_le; exact Ht).
  cbn [andb].
  destruct (w_polls w) as [|[d wh] rest]; cbn [delay what].
  - cbn [fst snd emit w_clock]. split; [lia|]. split; [tauto|]. lia.
  - destruct (timeout <=? d) eqn:Hd.
    + apply Z.leb_le in Hd. cbn [fst snd emit w_clock].
      split; [lia|]. split; [tauto|]. lia.
    + apply Z.leb_gt in Hd.
      destruct wh; cbn [fst snd emit w_clock];
        (split; [lia|]); (split; [split; [discriminate|lia]|discriminate]).
Qed.

(** A pass that returns made one wait; it logs the timeout only when
    that wait lasted the whole timeout. *)
Lemma iter_step_return_wait mosq t r w rc w' :
  iter_step mosq t r w (Return rc) w' ->
  exists evs,
    w_trace w' = w_trace w ++ evs /\
    rc = MOSQ_ERR_PROXY /\
    length (filter is_poll evs) = 1%nat /\
    w_clock w <= w_clock w' <= w_clock w + connect_timeout_ms /\
    (In timeout_log evs ->
     poll_times_out w /\ w_clock w' = w_clock w + connect_timeout_ms).
Proof.
  intros Hstep.
  assert (HT : 0 <= connect_timeout_ms) by (unfold connect_timeout_ms; lia).
  inversion Hstep; subst;
    try (eexists; split; [reflexivity|];
         split; [reflexivity|]; split; [reflexivity|];
         cbn [after w_clock]; split; [lia|];
         unfold timeout_log, ev_poll, ev_read; cbn [In];
         intros Hin;
         repeat match goal with
                | H : _ \/ _ |- _ => destruct H
                | H : False |- _ => destruct H
                end;
         first [discriminate | split; [assumption|reflexivity]]).
  destruct (strstr _ terminator); discriminate.
Qed.

Lemma data_event_not_log evs level format args :
  Forall data_event evs -> ~ In (EvLog level format args) evs.
Proof.
  intros H Hin. rewrite Forall_forall in H. apply H in Hin. exact Hin.
Qed.

(** The loop of a handshake, which starts with an empty block: passes
    that read data, and then either a pass that returns or the check of
    a block that holds what was read. *)
Lemma loop_entered_shape mosq r0 w2 it w3 :
  loop_run mosq 0 r0 w2 it w3 ->
  Z.of_nat (length r0) = response_size ->
  exists ps rest evs1 w1,
    w_polls w2 = ps ++ rest /\ Forall ready ps /\
    Forall data_event evs1 /\ ends_with_data evs1 /\
    w_trace w1 = w_trace w2 ++ evs1 /\
    w_polls w1 = rest /\
    w_clock w1 = w_clock w2 + waited ps /\
    ((exists t' r',
        it = Break t' r' /\ w3 = w1 /\
        holds r' (received evs1) /\ evs1 <> [] /\
        Z.of_nat (length r') = response_size /\
        t' = Z.of_nat (length (received evs1)) /\
        (strstr r' terminator = None -> t' = response_size - 1))
     \/ (exists t1 r1 rc,
           it = Return rc /\ iter_step mosq t1 r1 w1 (Return rc) w3)).
Proof.
  intros Hrun Hr.
  assert (H0 : 0 <= 0 <= response_size - 1) by (unfold response_size; lia).
  destruct (loop_run_shape _ _ _ _ _ _ Hrun H0 Hr)
    as (ps & rest & evs1 & w1 & t1 & r1 & Hps & Hready & Hdata & Hends & Htr
        & Hpolls & Hclock & Hfinal).
  exists ps, rest, evs1, w1. split_all; try assumption.
  destruct Hfinal as [[-> ->]|(rc & -> & Hstep)].
  - left.
    destruct (loop_run_received _ _ _ _ _ _ Hrun H0 Hr eq_refl
                (or_introl eq_refl))
      as (evs & Htr' & Ht1 & Hpos & Hr1 & Hheld & Hfull).
    cbn [Z.to_nat firstn app] in Hheld.
    assert (evs = evs1).
    { apply (app_inv_head (w_trace w2)). congruence. }
    subst evs. exists t1, r1. split_all; try assumption; try reflexivity.
    intros ->. cbn in Ht1. lia.
  - right. exists t1, r1, rc. split; [reflexivity|exact Hstep].
Qed.

(** **** C8
    Every wait of the accumulation loop is a [poll] whose timeout
    argument is [connect_timeout_ms], 10000 ms, whatever the number of
    the pass and the time already spent; such a call blocks for at most
    the timeout.  The time a handshake spends blocked is therefore not
    bounded by the timeout: it is the sum of the waits of the passes
    that read data, each shorter than the timeout, and of at most one
    more wait.  The timeout failure is returned only when the wait of
    one pass lasted the whole timeout without an event: the waits
    before it all ended early, and their time is added to it. *)
Theorem wait_timeout_per_iteration mosq dest_host dest_port w :
  let r := net__proxy_connect mosq dest_host dest_port w in
  let evs := events_since w (snd r) in
  connect_timeout_ms = 10000 /\
  (forall fd events timeout n,
     In (EvPoll fd events timeout n) evs -> timeout = connect_timeout_ms) /\
  (forall fd events w0,
     let p := poll fd events connect_timeout_ms w0 in
     0 <= w_clock (snd p) - w_clock w0 <= connect_timeout_ms /\
     (fst (fst p) = 0 -> poll_times_out w0)) /\
  (exists ps rest,
     w_polls w = ps ++ rest /\ Forall ready ps /\
     w_clock w + waited ps <= w_clock (snd r)
       <= w_clock w + waited ps + connect_timeout_ms /\
     (In timeout_log evs ->
      fst r = Returns MOSQ_ERR_PROXY /\
      match rest with
      | [] => True
      | p :: _ => connect_timeout_ms <= delay p
      end /\
      w_clock (snd r) = w_clock w + waited ps + connect_timeout_ms)).
Proof.
  intros r evs.
  assert (HT : 0 <= connect_timeout_ms) by (unfold connect_timeout_ms; lia).
  split; [reflexivity|]. split; [|split].
  - intros fd events timeout n Hin.
    pose proof (net__proxy_connect_events mosq dest_host dest_port w) as Hev.
    fold r in Hev. fold evs in Hev. rewrite Forall_forall in Hev.
    apply Hev in Hin. cbn in Hin. tauto.
  - intros fd events w0 p.
    destruct (poll_blocks fd events connect_timeout_ms w0 HT) as (Hb & Hz & _).
    fold p in Hb, Hz. split; [exact Hb|]. intros Hn. apply Hz in Hn.
    exact Hn.
  - pose proof (net__proxy_connect_run mosq dest_host dest_port w) as Hrun.
    fold r in Hrun. subst evs. destruct r as [o w']. cbn [fst snd] in *.
    pose proof (alloc_block_length w) as Hblock.
    destruct Hrun as [Hfail|Hok Hsz|req w1 Hok Hfit Hwr
                      |rc w3 req w1 Hok Hfit Hwr Hl
                      |t r0 w3 o' w4 req w1 Hok Hfit Hwr Hl Hcheck].
    + exists [], (w_polls w). cbn [app waited fold_right after_alloc w_clock].
      split_all; try apply Forall_nil; try reflexivity; try lia.
      rewrite (events_since_app w _ [EvAlloc response_size false])
        by reflexivity.
      intros [Hin|[]]. discriminate.
    + exists [], (w_polls w).
      cbn [app waited fold_right after_alloc emits after w_clock].
      split_all; try apply Forall_nil; try reflexivity; try lia.
      rewrite (events_since_app w _
                 [EvAlloc response_size true; EvFree (alloc_block w);
                  EvLog MOSQ_LOG_ERR "Proxy CONNECT request too long." []])
        by (unfold emits, after, after_alloc; cbn [w_trace];
            rewrite <- app_assoc; reflexivity).
      intros [Hin|[Hin|[Hin|[]]]]; discriminate.
    + exists [], (w_polls w). subst w1.
      cbn [app waited fold_right after_alloc after_write emits after w_clock].
      split_all; try apply Forall_nil; try reflexivity; try lia.
      rewrite (events_since_app w _
                 [EvAlloc response_size true;
                  EvWrite req (write_returns (after_alloc w true)
                                             (Z.of_nat (length req)));
                  EvFree (alloc_block w);
                  EvLog MOSQ_LOG_ERR "Error writing to proxy: %s."
                        [ArgStrerror (errno_after_write (after_alloc w true))]])
        by (unfold emits, after, after_write, after_alloc;
            cbn [w_trace]; rewrite <- !app_assoc; reflexivity).
      intros [Hin|[Hin|[Hin|[Hin|[]]]]]; discriminate.
    + destruct (loop_entered_shape _ _ _ _ _ Hl Hblock)
        as (ps & rest & evs1 & w5 & Hps & Hready & Hdata & Hends & Htr
            & Hpolls & Hclock & [(t' & r' & Hit & _)|(t1 & r1 & rc' & Hit & Hstep)]);
        [discriminate|].
      injection Hit as <-.
      destruct (iter_step_return_wait _ _ _ _ _ _ Hstep)
        as (evs2 & Htr2 & -> & _ & Hwait & Hto).
      exists ps, rest. subst w1.
      cbn [after_write after_alloc w_polls w_clock] in *.
      split_all; try assumption; try lia.
      intros Hin.
      rewrite (events_since_app w _
                 ([EvAlloc response_size true;
                   EvWrite req (write_returns (after_alloc w true)
                                              (Z.of_nat (length req)))]
                  ++ evs1 ++ evs2)) in Hin
        by (rewrite Htr2, Htr; unfold after_write, after_alloc;
            cbn [w_trace]; rewrite <- !app_assoc; reflexivity).
      cbn [app In] in Hin.
      destruct Hin as [Hin|[Hin|Hin]]; try discriminate.
      apply in_app_or in Hin as [Hin|Hin];
        [exfalso; eapply data_event_not_log; eassumption|].
      destruct (Hto Hin) as [Hout Hclk].
      unfold poll_times_out in Hout. rewrite Hpolls in Hout.
      split_all; [reflexivity|exact Hout|lia].
    + destruct (loop_entered_shape _ _ _ _ _ Hl Hblock)
        as (ps & rest & evs1 & w5 & Hps & Hready & Hdata & Hends & Htr
            & Hpolls & Hclock
            & [(t' & r' & Hit & -> & _)|(t1 & r1 & rc' & Hit & _)]);
        [|discriminate].
      destruct (check_case_events _ _ _ _ Hcheck) as (evs2 & Htr2 & Hev2).
      assert (Hclk : w_clock w4 = w_clock w5)
        by (destruct Hcheck; reflexivity).
      exists ps, rest. subst w1.
      cbn [after_write after_alloc w_polls w_clock] in *.
      split_all; try assumption; try lia.
      intros Hin. exfalso.
      rewrite (events_since_app w _
                 ([EvAlloc response_size true;
                   EvWrite req (write_returns (after_alloc w true)
                                              (Z.of_nat (length req)))]
                  ++ evs1 ++ evs2)) in Hin
        by (rewrite Htr2, Htr; unfold after_write, after_alloc;
            cbn [w_trace]; rewrite <- !app_assoc; reflexivity).
      cbn [app In] in Hin.
      destruct Hin as [Hin|[Hin|Hin]]; try discriminate.
      apply in_app_or in Hin as [Hin|Hin];
        [eapply data_event_not_log; eassumption|].
      destruct Hcheck; cbn [emits after w_trace] in Htr2;
        apply app_inv_head in Htr2; subst evs2;
        destruct Hin as [Hin|[Hin|[]]]; discriminate.
Qed.

Lemma wait_timeout_per_iteration_witness :
  let mosq := mk_mosquitto 3 (mk_proxy (Some (lit "proxy")) 8080 None) in
  let w := mk_world [] []
             [mk_poll_ev 9999 (PollEvents POLLIN);
              mk_poll_ev 10000 (PollEvents POLLIN)]
             [ReadData (lit "HTTP/1.1 20");
              ReadData (lit "0 OK" ++ CRLF ++ CRLF)] 0 0 [] in
  let r := net__proxy_connect mosq (lit "broker") 1883 w in
  In timeout_log (events_since w (snd r)) /\
  fst r = Returns MOSQ_ERR_PROXY /\
  w_clock (snd r) = 19999.
Proof.
  intros mosq w r.
  assert (H : In timeout_log (events_since w (snd r))).
  { vm_compute. do 6 right. left. reflexivity. }
  split; [exact H|].
  destruct (wait_timeout_per_iteration mosq (lit "broker") 1883 w)
    as (_ & _ & _ & ps & rest & _ & _ & _ & Hto).
  split; [apply (Hto H)|reflexivity].
Defined.

(* ================================================================== *)
(** ** What a failure tells the caller *)

Lemma last_call_app evs1 evs2 :
  last_call (evs1 ++ evs2)
  = match last_call evs2 with
    | Some e => Some e
    | None => last_call evs1
    end.
Proof.
  induction evs1 as [|e evs1 IH]; cbn [app last_call].
  - destruct (last_call evs2); reflexivity.
  - rewrite IH. destruct (last_call evs2); reflexivity.
Qed.

Lemma diagnostic_app evs1 evs2 :
  diagnostic (evs1 ++ evs2)
  = match diagnostic evs2 with
    | Some d => Some d
    | None => diagnostic evs1
    end.
Proof.
  induction evs1 as [|e evs1 IH]; cbn [app diagnostic].
  - destruct (diagnostic evs2); reflexivity.
  - rewrite IH. destruct (diagnostic evs2); reflexivity.
Qed.

Lemma status_okb_spec response : status_okb response = true <-> status_ok response.
Proof.
  unfold status_okb. rewrite negb_true_iff. apply status_ok_strncmp.
Qed.

Lemma failure_text_injective k1 k2 :
  failure_text k1 = failure_text k2 -> k1 = k2.
Proof. destruct k1, k2; cbn; intros H; try reflexivity; discriminate. Qed.

(** The calls of passes that read data end with a read that stored
    data. *)
Lemma last_call_data evs :
  Forall data_event evs -> ends_with_data evs -> evs <> [] ->
  exists offset count data,
    last_call evs = Some (EvRead offset count data (Z.of_nat (length data)))
    /\ data <> [].
Proof.
  intros _ [->|(evs0 & offset & count & data & -> & Hd)] Hne; [congruence|].
  exists offset, count, data. split; [|exact Hd].
  rewrite last_call_app. reflexivity.
Qed.

(** A pass that returns logs the line of its cause. *)
Lemma iter_step_return_cause mosq t r w rc w' :
  iter_step mosq t r w (Return rc) w' ->
  exists evs2 k,
    w_trace w' = w_trace w ++ evs2 /\
    rc = MOSQ_ERR_PROXY /\
    diagnostic evs2 = Some (MOSQ_LOG_ERR, failure_text k) /\
    (forall evs0, cause (evs0 ++ evs2) = Some k).
Proof.
  intros Hstep. inversion Hstep; subst.
  - eexists _, Timeout. split; [reflexivity|]. split_all; try reflexivity.
    intros evs0. unfold cause. rewrite last_call_app. reflexivity.
  - eexists _, PollError. split; [reflexivity|]. split_all; try reflexivity.
    intros evs0. unfold cause. rewrite last_call_app. reflexivity.
  - eexists _, SocketError. split; [reflexivity|]. split_all; try reflexivity.
    intros evs0. unfold cause. rewrite last_call_app. reflexivity.
  - eexists _, ReadError. split; [reflexivity|]. split_all; try reflexivity.
    intros evs0. unfold cause. rewrite last_call_app. reflexivity.
  - eexists _, ConnectionClosed. split; [reflexivity|].
    split_all; try reflexivity.
    intros evs0. unfold cause. rewrite last_call_app. reflexivity.
  - destruct (strstr _ terminator); discriminate.
Qed.

(** The check of a block that holds what was read logs the line of its
    cause, or accepts the response. *)
Lemma check_case_cause response w o w' evs0 evs1 :
  check_case response w o w' ->
  holds response (received evs1) ->
  received evs0 = [] ->
  (exists offset count data,
     last_call evs1 = Some (EvRead offset count data (Z.of_nat (length data)))
     /\ data <> []) ->
  exists evs2,
    w_trace w' = w_trace w ++ evs2 /\
    ((o = Returns MOSQ_ERR_SUCCESS /\ cause (evs0 ++ evs1 ++ evs2) = None)
     \/ (exists k,
           o = Returns MOSQ_ERR_PROXY /\
           cause (evs0 ++ evs1 ++ evs2) = Some k /\
           diagnostic (evs0 ++ evs1 ++ evs2)
           = Some (MOSQ_LOG_ERR, failure_text k))).
Proof.
  intros Hcheck Hheld Hrecv0 (offset & count & data & Hlast & Hdata).
  assert (Hpos : 0 < Z.of_nat (length data))
    by (destruct data; [congruence|cbn [length]; lia]).
  assert (Hcause : forall evs2,
    last_call evs2 = None -> received evs2 = [] ->
    cause (evs0 ++ evs1 ++ evs2)
    = match strstr response terminator with
      | None => Some ResponseTooLarge
      | Some _ => if status_okb response then None else Some ProxyRejected
      end).
  { intros evs2 Hl2 Hr2. unfold cause.
    rewrite !last_call_app, Hl2, Hlast.
    replace (Z.of_nat (length data) <? 0) with false
      by (symmetry; apply Z.ltb_ge; lia).
    replace (Z.of_nat (length data) =? 0) with false
      by (symmetry; apply Z.eqb_neq; lia).
    rewrite !received_app, Hrecv0, Hr2, app_nil_r. cbn [app].
    rewrite <- (holds_strstr _ _ _ Hheld).
    destruct (strstr response terminator); [|reflexivity].
    replace (status_okb (received evs1)) with (status_okb response);
      [reflexivity|].
    destruct (status_okb response) eqn:E1, (status_okb (received evs1)) eqn:E2;
      try reflexivity; exfalso.
    - apply status_okb_spec in E1. apply (status_ok_holds _ _ Hheld) in E1.
      apply status_okb_spec in E1. congruence.
    - apply status_okb_spec in E2. apply (status_ok_holds _ _ Hheld) in E2.
      apply status_okb_spec in E2. congruence. }
  destruct Hcheck as [Hnone|Hfound Hno|Hfound Hyes].
  - eexists. split; [reflexivity|]. right. exists ResponseTooLarge.
    split; [reflexivity|]. split.
    + rewrite Hcause by reflexivity. rewrite Hnone. reflexivity.
    + rewrite !diagnostic_app. reflexivity.
  - eexists. split; [reflexivity|]. right. exists ProxyRejected.
    split; [reflexivity|]. split.
    + rewrite Hcause by reflexivity.
      destruct (strstr response terminator); [|congruence].
      destruct (status_okb response) eqn:E; [|reflexivity].
      apply status_okb_spec in E. contradiction.
    + rewrite !diagnostic_app. reflexivity.
  - eexists. split; [reflexivity|]. left. split; [reflexivity|].
    rewrite Hcause by reflexivity.
    destruct (strstr response terminator); [|congruence].
    apply status_okb_spec in Hyes. rewrite Hyes. reflexivity.
Qed.

(** **** C9 (as amended)
    Every call of [net__proxy_connect] returns, and every failure of
    the handshake is returned as the one value [MOSQ_ERR_PROXY]
    (a response block that cannot be allocated is [MOSQ_ERR_NOMEM]):
    the cause is not in the returned value.  It is in the line the
    function logs last, whose format is different for each cause:
    the request is too long, the write fell short, the poll failed or
    timed out or reported no input, the read failed or found the stream
    closed, the block filled up without terminator, or the status line
    was not accepted. *)
Theorem failures_share_return_value mosq dest_host dest_port w :
  let r := net__proxy_connect mosq dest_host dest_port w in
  let evs := events_since w (snd r) in
  (fst r = Returns MOSQ_ERR_SUCCESS \/ fst r = Returns MOSQ_ERR_NOMEM
   \/ fst r = Returns MOSQ_ERR_PROXY) /\
  (forall k,
     cause evs = Some k ->
     fst r = Returns MOSQ_ERR_PROXY /\
     diagnostic evs = Some (MOSQ_LOG_ERR, failure_text k)) /\
  (fst r = Returns MOSQ_ERR_PROXY -> exists k, cause evs = Some k) /\
  (forall k1 k2, failure_text k1 = failure_text k2 -> k1 = k2).
Proof.
  intros r evs.
  assert (Hmain :
    (fst r = Returns MOSQ_ERR_SUCCESS /\ cause evs = None)
    \/ (fst r = Returns MOSQ_ERR_NOMEM /\ cause evs = None)
    \/ (exists k,
          fst r = Returns MOSQ_ERR_PROXY /\ cause evs = Some k /\
          diagnostic evs = Some (MOSQ_LOG_ERR, failure_text k))).
  { pose proof (net__proxy_connect_run mosq dest_host dest_port w) as Hrun.
    fold r in Hrun. subst evs. destruct r as [o w']. cbn [fst snd] in *.
    pose proof (alloc_block_length w) as Hblock.
    destruct Hrun as [Hfail|Hok Hsz|req w1 Hok Hfit Hwr
                      |rc w3 req w1 Hok Hfit Hwr Hl
                      |t r0 w3 o' w4 req w1 Hok Hfit Hwr Hl Hcheck].
    - right. left.
      rewrite (events_since_app w _ [EvAlloc response_size false])
        by reflexivity.
      split; reflexivity.
    - right. right. exists RequestTooLarge.
      rewrite (events_since_app w _
                 [EvAlloc response_size true; EvFree (alloc_block w);
                  EvLog MOSQ_LOG_ERR "Proxy CONNECT request too long." []])
        by (unfold emits, after, after_alloc; cbn [w_trace];
            rewrite <- app_assoc; reflexivity).
      split_all; reflexivity.
    - right. right. exists WriteError. subst w1.
      rewrite (events_since_app w _
                 [EvAlloc response_size true;
                  EvWrite req (write_returns (after_alloc w true)
                                             (Z.of_nat (length req)));
                  EvFree (alloc_block w);
                  EvLog MOSQ_LOG_ERR "Error writing to proxy: %s."
                        [ArgStrerror (errno_after_write (after_alloc w true))]])
        by (unfold emits, after, after_write, after_alloc;
            cbn [w_trace]; rewrite <- !app_assoc; reflexivity).
      split_all; try reflexivity.
      unfold cause. cbn [last_call is_call].
      apply Z.eqb_neq in Hwr. rewrite Hwr. reflexivity.
    - right. right.
      destruct (loop_entered_shape _ _ _ _ _ Hl Hblock)
        as (ps & rest & evs1 & w5 & Hps & Hready & Hdata & Hends & Htr
            & Hpolls & Hclock
            & [(t' & r' & Hit & _)|(t1 & r1 & rc' & Hit & Hstep)]);
        [discriminate|].
      injection Hit as <-.
      destruct (iter_step_return_cause _ _ _ _ _ _ Hstep)
        as (evs2 & k & Htr2 & -> & Hdiag & Hcause).
      exists k. subst w1.
      rewrite (events_since_app w _
                 (([EvAlloc response_size true;
                    EvWrite req (write_returns (after_alloc w true)
                                               (Z.of_nat (length req)))]
                   ++ evs1) ++ evs2))
        by (rewrite Htr2, Htr; unfold after_write, after_alloc;
            cbn [w_trace]; rewrite <- !app_assoc; reflexivity).
      split_all; [reflexivity|apply Hcause|].
      rewrite diagnostic_app, Hdiag. reflexivity.
    - destruct (loop_entered_shape _ _ _ _ _ Hl Hblock)
        as (ps & rest & evs1 & w5 & Hps & Hready & Hdata & Hends & Htr
            & Hpolls & Hclock
            & [(t' & r' & Hit & -> & Hheld & Hne & _)
              |(t1 & r1 & rc' & Hit & _)]);
        [|discriminate].
      injection Hit as <- <-.
      destruct (check_case_cause _ _ _ _
                  [EvAlloc response_size true;
                   EvWrite req (write_returns (after_alloc w true)
                                              (Z.of_nat (length req)))]
                  evs1 Hcheck Hheld eq_refl
                  (last_call_data _ Hdata Hends Hne))
        as (evs2 & Htr2 & Hres).
      subst w1.
      rewrite (events_since_app w _
                 ([EvAlloc response_size true;
                   EvWrite req (write_returns (after_alloc w true)
                                              (Z.of_nat (length req)))]
                  ++ evs1 ++ evs2))
        by (rewrite Htr2, Htr; unfold after_write, after_alloc;
            cbn [w_trace]; rewrite <- !app_assoc; reflexivity).
      destruct Hres as [[-> Hc]|(k & -> & Hc & Hd)].
      + left. split; [reflexivity|exact Hc].
      + right. right. exists k. split_all; [reflexivity|exact Hc|exact Hd]. }
  split_all.
  - destruct Hmain as [[H _]|[[H _]|(k & H & _)]]; auto.
  - intros k Hk.
    destruct Hmain as [[_ H]|[[_ H]|(k' & Hrc & Hc & Hd)]]; try congruence.
    assert (k' = k) by congruence. subst k'. split; assumption.
  - intros Hrc.
    destruct Hmain as [[H _]|[[H _]|(k & _ & Hc & _)]]; try congruence.
    exists k. exact Hc.
  - apply failure_text_injective.
Qed.

(** A wait that times out and a stream that is closed are two causes
    with one returned value. *)
Lemma failures_indistinguishable_by_value :
  let mosq := mk_mosquitto 3 (mk_proxy (Some (lit "proxy")) 8080 None) in
  let silent := mk_world [] [] [] [] 0 0 [] in
  let closed := mk_world [] [] [mk_poll_ev 5 (PollEvents POLLIN)]
                         [ReadData []] 0 0 [] in
  let r1 := net__proxy_connect mosq (lit "broker") 1883 silent in
  let r2 := net__proxy_connect mosq (lit "broker") 1883 closed in
  cause (events_since silent (snd r1)) = Some Timeout /\
  cause (events_since closed (snd r2)) = Some ConnectionClosed /\
  Timeout <> ConnectionClosed /\
  fst r1 = fst r2.
Proof.
  vm_compute. split_all; try reflexivity. discriminate.
Qed.

Lemma failures_share_return_value_witness :
  let mosq := mk_mosquitto 3 (mk_proxy (Some (lit "proxy")) 8080 None) in
  let w := mk_world [] [] [mk_poll_ev 5 (PollFail 4)] [] 0 0 [] in
  let r := net__proxy_connect mosq (lit "broker") 1883 w in
  cause (events_since w (snd r)) = Some PollError /\
  fst r = Returns MOSQ_ERR_PROXY /\
  diagnostic (events_since w (snd r))
  = Some (MOSQ_LOG_ERR, "Proxy poll error: %s."%string).
Proof.
  intros mosq w r.
  assert (H : cause (events_since w (snd r)) = Some PollError) by reflexivity.
  split; [exact H|].
  destruct (failures_share_return_value mosq (lit "broker") 1883 w)
    as (_ & Hcause & _).
  exact (Hcause PollError H).
Defined.

(* ================================================================== *)
(** * Further properties *)

(* ================================================================== *)
(** ** The setter: results, memory and invariant *)

Lemma auth_line_size v :
  strlen (lit "Proxy-Authorization: ") + strlen v + strlen CRLF + 1
  = Z.of_nat (length (auth_line v)) + 1.
Proof.
  unfold auth_line, strlen, fmt_s. rewrite !length_app.
  change (length (c_str (lit "Proxy-Authorization: "))) with 21%nat.
  change (length (lit "Proxy-Authorization: ")) with 21%nat.
  change (length (c_str CRLF)) with 2%nat.
  change (length CRLF) with 2%nat. lia.
Qed.

(** A call with a host and a valid port does what [setter_outcome]
    says. *)
Lemma mosquitto_proxy_set_run m h port auth_value w :
  1 <= port <= 65535 ->
  let r := mosquitto_proxy_set (Some m) (Some h) port auth_value w in
  let o := setter_outcome m h port auth_value (alloc_ok w 0) (alloc_ok w 1) in
  fst (fst r) = fst (fst o) /\
  snd (fst r) = Some (snd (fst o)) /\
  events_since w (snd r) = snd o.
Proof.
  intros Hport r o. subst r o.
  unfold mosquitto_proxy_set, setter_outcome, wants_auth, clear_events.
  replace ((port <=? 0) || (port >? 65535)) with false
    by (symmetry; apply orb_false_iff; lia).
  unfold mosquitto__strdup, mosquitto__malloc, alloc_ok.
  destruct m as [s [ph pp pa]].
  destruct auth_value as [v|]; [destruct (0 <? strlen v) eqn:Hv|].
  - pose proof (auth_line_formatted v) as Hline.
    destruct (snprintf _ _) as [line n0]. cbn [fst] in Hline. subst line.
    rewrite auth_line_size.
    destruct ph, pa;
      cbn [proxy proxy_host proxy_auth_header set_proxy_host
           set_proxy_auth_header set_proxy_port sock proxy_port
           mosquitto__free emit w_allocs w_writes w_polls w_reads w_errno
           w_clock w_trace];
      destruct (w_allocs w) as [|[|j0] [|[|j1] rest]];
      cbn [nth_error negb fst snd proxy proxy_host proxy_auth_header
           set_proxy_host set_proxy_auth_header set_proxy_port sock
           proxy_port mosquitto__free emit w_allocs w_writes w_polls
           w_reads w_errno w_clock w_trace app];
      (split; [reflexivity|]); (split; [reflexivity|]); since_eq.
  - destruct ph, pa;
      cbn [proxy proxy_host proxy_auth_header set_proxy_host
           set_proxy_auth_header set_proxy_port sock proxy_port
           mosquitto__free emit w_allocs w_writes w_polls w_reads w_errno
           w_clock w_trace];
      destruct (w_allocs w) as [|[|j0] rest];
      cbn [nth_error negb fst snd proxy proxy_host proxy_auth_header
           set_proxy_host set_proxy_auth_header set_proxy_port sock
           proxy_port mosquitto__free emit w_allocs w_writes w_polls
           w_reads w_errno w_clock w_trace app];
      (split; [reflexivity|]); (split; [reflexivity|]); since_eq.
  - destruct ph, pa;
      cbn [proxy proxy_host proxy_auth_header set_proxy_host
           set_proxy_auth_header set_proxy_port sock proxy_port
           mosquitto__free emit w_allocs w_writes w_polls w_reads w_errno
           w_clock w_trace];
      destruct (w_allocs w) as [|[|j0] rest];
      cbn [nth_error negb fst snd proxy proxy_host proxy_auth_header
           set_proxy_host set_proxy_auth_header set_proxy_port sock
           proxy_port mosquitto__free emit w_allocs w_writes w_polls
           w_reads w_errno w_clock w_trace app];
      (split; [reflexivity|]); (split; [reflexivity|]); since_eq.
Qed.

(** A call without a host, or with a port out of range, changes
    nothing. *)
Lemma mosquitto_proxy_set_rejects m host port auth_value w :
  host = None \/ port <= 0 \/ 65535 < port ->
  mosquitto_proxy_set (Some m) host port auth_value w
  = (MOSQ_ERR_INVAL, Some m, w).
Proof.
  intros H. unfold mosquitto_proxy_set.
  destruct host as [h|]; [|reflexivity].
  destruct H as [H|H]; [discriminate|].
  replace ((port <=? 0) || (port >? 65535)) with true; [reflexivity|].
  symmetry. apply orb_true_iff. lia.
Qed.


Lemma auth_header_of_wants auth_value :
  auth_header_of auth_value = option_map auth_line (wants_auth auth_value).
Proof.
  unfold auth_header_of, wants_auth.
  destruct auth_value as [v|]; [|reflexivity].
  destruct (0 <? strlen v); reflexivity.
Qed.

(** **** X1
    A call to [mosquitto_proxy_set] on a client, with a host and a port
    in range, returns [MOSQ_ERR_SUCCESS] exactly when the allocations
    it makes succeed: the copy of the host, and the header line when
    the auth value is not empty.  Otherwise it returns
    [MOSQ_ERR_NOMEM].  After a success the client has the C string of
    the host, the port, and the header line or no header: nothing of
    the previous proxy settings is left, and the socket is as it
    was. *)
Theorem proxy_set_succeeds m h port auth_value w :
  1 <= port <= 65535 ->
  let r := mosquitto_proxy_set (Some m) (Some h) port auth_value w in
  (fst (fst r) = MOSQ_ERR_SUCCESS <->
   alloc_ok w 0 = true /\
   (wants_auth auth_value = None \/ alloc_ok w 1 = true)) /\
  (fst (fst r) = MOSQ_ERR_SUCCESS \/ fst (fst r) = MOSQ_ERR_NOMEM) /\
  (fst (fst r) = MOSQ_ERR_SUCCESS ->
   snd (fst r)
   = Some (mk_mosquitto (sock m)
             (mk_proxy (Some (fmt_s h)) port (auth_header_of auth_value)))).
Proof.
  intros Hport r.
  destruct (mosquitto_proxy_set_run m h port auth_value w Hport)
    as (Hrc & Hm & _).
  fold r in Hrc, Hm. rewrite Hrc, Hm, auth_header_of_wants.
  unfold setter_outcome.
  destruct (alloc_ok w 0), (wants_auth auth_value) as [v|],
    (alloc_ok w 1); cbn [negb fst snd option_map];
    (split; [split; [intros E; try discriminate E; auto
                    |intros [E1 [E2|E2]]; try discriminate; reflexivity]
            |split; [auto|intros E; try discriminate E; reflexivity]]).
Qed.

Lemma proxy_set_succeeds_witness :
  let m := mk_mosquitto 3 (mk_proxy (Some (lit "old-proxy")) 1080
                                    (Some (auth_line (lit "Basic b2xk")))) in
  let w := mk_world [] [] [] [] 0 0 [] in
  1 <= 3128 <= 65535 /\
  snd (fst (mosquitto_proxy_set (Some m) (Some (lit "proxy.example"))
                                3128 None w))
  = Some (mk_mosquitto 3 (mk_proxy (Some (lit "proxy.example")) 3128 None)).
Proof.
  intros m w.
  assert (H : 1 <= 3128 <= 65535) by lia.
  split; [exact H|].
  destruct (proxy_set_succeeds m (lit "proxy.example") 3128 None w H)
    as (Hiff & _ & Hres).
  apply Hres. apply Hiff. split; [reflexivity|left; reflexivity].
Defined.

Lemma events_since_refl w : events_since w w = [].
Proof. unfold events_since. apply skipn_all. Qed.

(** **** X2
    [mosquitto_proxy_set] neither leaks nor frees twice.  Whatever the
    arguments and the allocator do, the strings the client holds
    afterwards are the ones it held before, less the ones freed during
    the call, plus the ones allocated during it, by count.  A call that
    gets past the check of its arguments starts by freeing the host and
    the auth header the client held, each once; the only other block it
    can free is the copy of the host it has just made, when the
    allocation of the header line fails. *)
Theorem proxy_set_memory_balance m host port auth_value w :
  let r := mosquitto_proxy_set (Some m) host port auth_value w in
  let evs := events_since w (snd r) in
  exists m',
    snd (fst r) = Some m' /\
    (length (held m') + length (filter is_free evs)
     = length (held m) + length (filter is_alloc evs))%nat /\
    (fst (fst r) = MOSQ_ERR_INVAL -> m' = m /\ evs = []) /\
    (fst (fst r) <> MOSQ_ERR_INVAL ->
     exists rest,
       evs = map EvFree (held m) ++ rest /\
       (filter is_free rest = [] \/
        exists h, host = Some h /\ fst (fst r) = MOSQ_ERR_NOMEM /\
                  held m' = [] /\
                  filter is_free rest = [EvFree (fmt_s h)] /\
                  filter is_alloc rest = [EvAlloc (strlen h + 1) true])).
Proof.
  intros r evs.
  destruct (Z_le_dec 1 port) as [H1|H1];
    [destruct (Z_le_dec port 65535) as [H2|H2]|];
    [destruct host as [h|]| |].
  - destruct (mosquitto_proxy_set_run m h port auth_value w (conj H1 H2))
      as (Hrc & Hm & Hev).
    fold r in Hrc, Hm, Hev. fold evs in Hev.
    exists (snd (fst (setter_outcome m h port auth_value
                        (alloc_ok w 0) (alloc_ok w 1)))).
    split; [exact Hm|]. rewrite Hev, Hrc. clear Hrc Hm Hev.
    assert (Hclear : clear_events m = map EvFree (held m)).
    { unfold clear_events, held.
      destruct (proxy_host (proxy m)), (proxy_auth_header (proxy m));
        reflexivity. }
    assert (Hfree : forall l, filter is_free (map EvFree l) = map EvFree l).
    { induction l as [|x l IH]; cbn; [reflexivity|]. rewrite IH. reflexivity. }
    assert (Halloc : forall l, filter is_alloc (map EvFree l) = []).
    { induction l as [|x l IH]; cbn; [reflexivity|exact IH]. }
    unfold setter_outcome.
    destruct (alloc_ok w 0), (wants_auth auth_value) as [v|],
      (alloc_ok w 1);
      cbn [negb fst snd]; rewrite Hclear, !filter_app, Hfree, Halloc,
        !length_app, length_map; cbn [filter is_free is_alloc length app];
      (split; [unfold held; cbn [proxy proxy_host proxy_auth_header
                                 app length]; lia|]);
      (split; [intros E; discriminate E|]);
      intros _; eexists; (split; [reflexivity|]);
      cbn [filter is_free is_alloc];
      first [left; reflexivity
            |right; exists h; split_all; reflexivity].
  - exists m.
    assert (Hr : r = (MOSQ_ERR_INVAL, Some m, w)).
    { apply mosquitto_proxy_set_rejects. left. reflexivity. }
    subst evs. rewrite Hr. cbn [fst snd]. rewrite events_since_refl.
    split_all; [reflexivity|cbn; lia|auto|congruence].
  - exists m.
    assert (Hr : r = (MOSQ_ERR_INVAL, Some m, w)).
    { apply mosquitto_proxy_set_rejects. right. right. lia. }
    subst evs. rewrite Hr. cbn [fst snd]. rewrite events_since_refl.
    split_all; [reflexivity|cbn; lia|auto|congruence].
  - exists m.
    assert (Hr : r = (MOSQ_ERR_INVAL, Some m, w)).
    { apply mosquitto_proxy_set_rejects. right. left. lia. }
    subst evs. rewrite Hr. cbn [fst snd]. rewrite events_since_refl.
    split_all; [reflexivity|cbn; lia|auto|congruence].
Qed.

Lemma proxy_set_memory_balance_witness :
  let m := mk_mosquitto 3 (mk_proxy (Some (lit "old-proxy")) 1080 None) in
  let w := mk_world [AllocOk []; AllocFail] [] [] [] 0 0 [] in
  let r := mosquitto_proxy_set (Some m) (Some (lit "proxy.example")) 3128
             (Some (lit "Basic dTpw")) w in
  fst (fst r) <> MOSQ_ERR_INVAL /\
  exists rest,
    events_since w (snd r) = map EvFree (held m) ++ rest /\
    filter is_free rest = [EvFree (lit "proxy.example")].
Proof.
  intros m w r.
  assert (Hrc : fst (fst r) <> MOSQ_ERR_INVAL) by (vm_compute; discriminate).
  split; [exact Hrc|].
  destruct (proxy_set_memory_balance m (Some (lit "proxy.example")) 3128
              (Some (lit "Basic dTpw")) w)
    as (m' & _ & _ & _ & Hrest).
  destruct (Hrest Hrc) as (rest & Hev & Hfree).
  exists rest. split; [exact Hev|].
  destruct Hfree as [Hnone|(h & [= <-] & _ & _ & Hfree & _)];
    [|exact Hfree].
  exfalso. fold r in Hev.
  assert (Hcount : length (filter is_free (events_since w (snd r))) = 2%nat)
    by (vm_compute; reflexivity).
  rewrite Hev, filter_app, length_app, Hnone in Hcount.
  vm_compute in Hcount. discriminate.
Defined.

(** **** X3
    The blocks [mosquitto_proxy_set] allocates fit the strings it
    stores in them exactly.  After a successful call the allocations
    of the call are, in order, one per string the client holds, each
    of the length of its string plus one for the terminating NUL, and
    the strings contain no NUL: the copy of the host is not cut short
    and the formatting of the header line is never truncated. *)
Theorem proxy_set_blocks_fit m h port auth_value w :
  1 <= port <= 65535 ->
  let r := mosquitto_proxy_set (Some m) (Some h) port auth_value w in
  fst (fst r) = MOSQ_ERR_SUCCESS ->
  exists m',
    snd (fst r) = Some m' /\
    filter is_alloc (events_since w (snd r))
    = map (fun s => EvAlloc (Z.of_nat (length s) + 1) true) (held m') /\
    Forall nul_free (held m').
Proof.
  intros Hport r.
  destruct (mosquitto_proxy_set_run m h port auth_value w Hport)
    as (Hrc & Hm & Hev).
  fold r in Hrc, Hm, Hev. rewrite Hrc, Hev, Hm. clear Hrc Hm Hev r.
  assert (Hclear : filter is_alloc (clear_events m) = []).
  { unfold clear_events.
    destruct (proxy_host (proxy m)), (proxy_auth_header (proxy m));
      reflexivity. }
  unfold setter_outcome.
  destruct (alloc_ok w 0), (wants_auth auth_value) as [v|],
    (alloc_ok w 1); cbn [negb fst snd]; intros E; try discriminate E;
    eexists; (split; [reflexivity|]);
    rewrite filter_app, Hclear; unfold held;
    cbn [proxy proxy_host proxy_auth_header app filter is_alloc map];
    (split; [reflexivity|]);
    repeat first [apply c_str_nul_free | apply auth_line_nul_free
                 |apply Forall_cons | apply Forall_nil].
Qed.

Lemma proxy_set_blocks_fit_witness :
  let m := mk_mosquitto 3 (mk_proxy None 0 None) in
  let w := mk_world [] [] [] [] 0 0 [] in
  let r := mosquitto_proxy_set (Some m) (Some (lit "proxy.example")) 3128
             (Some (lit "Basic dTpw")) w in
  (1 <= 3128 <= 65535 /\ fst (fst r) = MOSQ_ERR_SUCCESS) /\
  filter is_alloc (events_since w (snd r))
  = [EvAlloc 14 true; EvAlloc 34 true].
Proof.
  intros m w r.
  assert (Hport : 1 <= 3128 <= 65535) by lia.
  assert (Hrc : fst (fst r) = MOSQ_ERR_SUCCESS) by reflexivity.
  split; [exact (conj Hport Hrc)|].
  destruct (proxy_set_blocks_fit m (lit "proxy.example") 3128
              (Some (lit "Basic dTpw")) w Hport Hrc)
    as (m' & Hm & Hev & _).
  fold r in Hev, Hm. rewrite Hev. injection Hm as <-. reflexivity.
Defined.

(** **** X4
    The setter keeps the proxy settings of a client well formed.  If,
    before a call, a host is a C string with a port between 1 and
    65535 and an auth header comes with a host and is the line
    [Proxy-Authorization: v\r\n] of a [v] that is not empty and holds
    no NUL, the same is true after the call, whatever its arguments,
    its result and the allocator; and the call leaves the socket
    alone. *)
Theorem proxy_set_keeps_invariant m host port auth_value w :
  proxy_inv m ->
  exists m',
    snd (fst (mosquitto_proxy_set (Some m) host port auth_value w)) = Some m' /\
    proxy_inv m' /\ sock m' = sock m.
Proof.
  intros Hinv.
  destruct (Z_le_dec 1 port) as [H1|H1];
    [destruct (Z_le_dec port 65535) as [H2|H2]|];
    [destruct host as [h|]| |];
    try (exists m; rewrite mosquitto_proxy_set_rejects by (auto; lia);
         split_all; (reflexivity || assumption)).
  destruct (mosquitto_proxy_set_run m h port auth_value w (conj H1 H2))
    as (_ & Hm & _).
  eexists. split; [exact Hm|]. clear Hm.
  assert (Hv : forall v, wants_auth auth_value = Some v -> fmt_s v <> []).
  { unfold wants_auth. intros v.
    destruct auth_value as [u|]; [|discriminate].
    destruct (0 <? strlen u) eqn:E; [|discriminate].
    intros [= <-] Hnil. apply Z.ltb_lt in E.
    unfold strlen, fmt_s in *. rewrite Hnil in E. cbn in E. lia. }
  unfold setter_outcome.
  destruct (alloc_ok w 0), (wants_auth auth_value) as [v|] eqn:Ew,
    (alloc_ok w 1); cbn [negb fst snd]; (split; [|reflexivity]);
    unfold proxy_inv; cbn [proxy proxy_host proxy_port proxy_auth_header];
    (split; intros x [= <-]);
    try (split; [apply c_str_nul_free|lia]);
    (split; [discriminate|]);
    exists (fmt_s v); split_all;
    [apply Hv; reflexivity|apply c_str_nul_free|reflexivity].
Qed.

Lemma proxy_set_keeps_invariant_witness :
  let m := mk_mosquitto 3 (mk_proxy None 0 None) in
  let w := mk_world [] [] [] [] 0 0 [] in
  proxy_inv m /\
  exists m',
    snd (fst (mosquitto_proxy_set (Some m) (Some (lit "proxy.example")) 3128
                (Some (lit "Basic dTpw")) w)) = Some m' /\
    proxy_inv m' /\ sock m' = sock m.
Proof.
  intros m w.
  assert (Hinv : proxy_inv m) by (split; intros x [=]).
  split; [exact Hinv|].
  exact (proxy_set_keeps_invariant m (Some (lit "proxy.example")) 3128
           (Some (lit "Basic dTpw")) w Hinv).
Defined.

(* ================================================================== *)
(** ** The two definitions of the setter *)

(** **** X5
    The file defines [mosquitto_proxy_set] twice.  The first
    definition, which takes a user name and a password, does to the
    client, returns and calls the allocator as the second does with
    the user name as the auth value.  The password has no effect: it
    only goes into a local buffer that is not used afterwards, and the
    user name is put as it is, not encoded, after
    [Proxy-Authorization: ]. *)
Theorem draft_ignores_password mosq host port username password w :
  Draft.mosquitto_proxy_set mosq host port username password w
  = mosquitto_proxy_set mosq host port username w /\
  forall password',
    Draft.mosquitto_proxy_set mosq host port username password' w
    = Draft.mosquitto_proxy_set mosq host port username password w.
Proof.
  split; [apply draft_agrees|].
  intros password'. rewrite !draft_agrees. reflexivity.
Qed.
(* ================================================================== *)
(** ** The handshake: the calls it makes, in order *)

Lemma iter_step_return_calls mosq t r w rc w' :
  iter_step mosq t r w (Return rc) w' ->
  exists calls l,
    w_trace w' = w_trace w ++ calls ++ [EvFree r; l] /\
    leaving_calls mosq t calls /\ is_err l.
Proof.
  intros Hstep. inversion Hstep; subst;
    try (destruct (strstr _ terminator); discriminate);
    cbn [after w_trace].
  - exists [ev_poll mosq 0]. eexists. split_all; [reflexivity| |eexists; eexists; reflexivity].
    left. exists 0. split; [lia|reflexivity].
  - exists [ev_poll mosq (-1)]. eexists. split_all; [reflexivity| |eexists; eexists; reflexivity].
    left. exists (-1). split; [lia|reflexivity].
  - exists [ev_poll mosq 1]. eexists. split_all; [reflexivity| |eexists; eexists; reflexivity].
    left. exists 1. split; [lia|reflexivity].
  - exists [ev_poll mosq 1; ev_read t [] (-1)]. eexists.
    split_all; [reflexivity| |eexists; eexists; reflexivity].
    right. exists (-1). split; [lia|reflexivity].
  - exists [ev_poll mosq 1; ev_read t [] 0]. eexists.
    split_all; [reflexivity| |eexists; eexists; reflexivity].
    right. exists 0. split; [lia|reflexivity].
Qed.

(** The calls of a run of the loop: the polls and reads of the passes
    that stored data, then nothing if the loop is left for the
    statement after it, or the calls of the pass that leaves the
    function. *)
Lemma loop_run_calls mosq t r w it w' :
  loop_run mosq t r w it w' ->
  0 <= t <= response_size - 1 ->
  Z.of_nat (length r) = response_size ->
  exists chunks,
    Forall (fun c => c <> []) chunks /\
    t + Z.of_nat (length (concat chunks)) <= response_size - 1 /\
    match it with
    | Break t' r' =>
        w_trace w' = w_trace w ++ chunk_events mosq t chunks /\
        t' = t + Z.of_nat (length (concat chunks)) /\
        Z.of_nat (length r') = response_size /\
        (chunks = [] -> r' = r /\ t = response_size - 1)
    | Return rc =>
        exists calls block l,
          w_trace w' = w_trace w ++ chunk_events mosq t chunks
                       ++ calls ++ [EvFree block; l] /\
          leaving_calls mosq (t + Z.of_nat (length (concat chunks))) calls /\
          t + Z.of_nat (length (concat chunks)) < response_size - 1 /\
          Z.of_nat (length block) = response_size /\ is_err l
    | _ => False
    end.
Proof.
  induction 1 as [t r w Hfull|t r w rc w' Hlt Hstep|t r w t' r' w' Hlt Hstep
                  |t r w t' r' w' it w'' Hlt Hstep Hrun IH]; intros Ht Hr.
  - exists []. cbn [concat length chunk_events]. rewrite app_nil_r.
    split_all; try reflexivity; try lia; [constructor|].
    intros _. split; [reflexivity|lia].
  - exists []. cbn [concat length chunk_events app].
    split_all; [constructor|lia|].
    destruct (iter_step_return_calls _ _ _ _ _ _ Hstep)
      as (calls & l & Htr & Hcalls & Hl).
    exists calls, r, l. rewrite Z.add_0_r.
    split_all; try assumption; lia.
  - destruct (iter_step_data_inv _ _ _ _ _ _ t' r' (conj (proj1 Ht) Hlt) Hstep)
      as (d & revents & rest & data & rs & Hp & Hd & Hin & Hrd & Hne & Hgot
          & Hlen & Ht' & Hr' & Hw' & _ & _); [right; reflexivity|].
    cbn zeta in *. set (got := read_chunk t data) in *.
    exists [got]. cbn [concat chunk_events]. rewrite app_nil_r.
    split_all.
    + constructor; [exact Hgot|constructor].
    + lia.
    + rewrite Hw'. reflexivity.
    + exact Ht'.
    + subst r'. rewrite block_after_length; lia.
    + discriminate.
  - destruct (iter_step_data_inv _ _ _ _ _ _ t' r' (conj (proj1 Ht) Hlt) Hstep)
      as (d & revents & rest & data & rs & Hp & Hd & Hin & Hrd & Hne & Hgot
          & Hlen & Ht' & Hr' & Hw' & _ & _); [left; reflexivity|].
    cbn zeta in *. set (got := read_chunk t data) in *.
    assert (Hpos : 0 < Z.of_nat (length got))
      by (destruct got; [congruence|cbn [length]; lia]).
    destruct IH as (chunks & Hne' & Hfit & Hit).
    + lia.
    + subst r'. rewrite block_after_length; lia.
    + exists (got :: chunks).
      assert (Hcat : t + Z.of_nat (length (concat (got :: chunks)))
                     = t' + Z.of_nat (length (concat chunks))).
      { cbn [concat]. rewrite length_app. lia. }
      rewrite Hcat. split_all.
      * constructor; assumption.
      * exact Hfit.
      * assert (Hw : w_trace w' = w_trace w
                       ++ [ev_poll mosq 1;
                           ev_read t got (Z.of_nat (length got))])
          by (rewrite Hw'; reflexivity).
        destruct it as [t2 r2|t2 r2|rc|]; try contradiction.
        -- destruct Hit as (Htr & Hit). split_all.
           ++ rewrite Htr, Hw, <- app_assoc. cbn [chunk_events app].
              rewrite <- Ht'. reflexivity.
           ++ apply Hit.
           ++ apply Hit.
           ++ discriminate.
        -- destruct Hit as (calls & block & l & Htr & Hit).
           exists calls, block, l. split; [|exact Hit].
           rewrite Htr, Hw, <- app_assoc. cbn [chunk_events app].
           rewrite <- Ht'. reflexivity.
Qed.

Lemma received_chunk_events mosq chunks :
  forall t, received (chunk_events mosq t chunks) = concat chunks.
Proof.
  induction chunks as [|c cs IH]; intros t; [reflexivity|].
  cbn [chunk_events concat]. unfold received in *. cbn [flat_map].
  rewrite IH. reflexivity.
Qed.

Lemma received_leaving_calls mosq t calls :
  leaving_calls mosq t calls -> received calls = [].
Proof.
  intros [(n & _ & ->)|(n & _ & ->)]; reflexivity.
Qed.

(** Every handshake returns, and its result and its calls are of one
    of the seven shapes. *)
Lemma net__proxy_connect_calls mosq dest_host dest_port w :
  let r := net__proxy_connect mosq dest_host dest_port w in
  exists rc,
    fst r = Returns rc /\
    (rc = MOSQ_ERR_NOMEM <-> alloc_fails w) /\
    handshake_calls mosq (format_request mosq dest_host dest_port) rc
      (events_since w (snd r)).
Proof.
  intros r.
  pose proof (net__proxy_connect_run mosq dest_host dest_port w) as Hrun.
  fold r in Hrun. destruct r as [o w']. cbn [fst snd] in *.
  pose proof (alloc_block_length w) as Hblock.
  destruct Hrun as [Hfail|Hok Hsz|req w1 Hok Hfit Hwr
                    |rc w3 req w1 Hok Hfit Hwr Hl
                    |t r0 w3 o' w4 req w1 Hok Hfit Hwr Hl Hcheck].
  - exists MOSQ_ERR_NOMEM. split; [reflexivity|]. split; [tauto|].
    rewrite (events_since_app w _ [EvAlloc response_size false])
      by reflexivity.
    constructor.
  - exists MOSQ_ERR_PROXY. split; [reflexivity|].
    split; [split; [discriminate|contradiction]|].
    rewrite (events_since_app w _
               [EvAlloc response_size true; EvFree (alloc_block w);
                EvLog MOSQ_LOG_ERR "Proxy CONNECT request too long." []])
      by (unfold emits, after, after_alloc; cbn [w_trace];
          rewrite <- !app_assoc; reflexivity).
    constructor; [exact Hblock|eexists; eexists; reflexivity|exact Hsz].
  - exists MOSQ_ERR_PROXY. split; [reflexivity|].
    split; [split; [discriminate|contradiction]|]. subst w1.
    rewrite (events_since_app w _
               [EvAlloc response_size true;
                EvWrite req (write_returns (after_alloc w true)
                                           (Z.of_nat (length req)));
                EvFree (alloc_block w);
                EvLog MOSQ_LOG_ERR "Error writing to proxy: %s."
                      [ArgStrerror (errno_after_write (after_alloc w true))]])
      by (unfold emits, after, after_write, after_alloc; cbn [w_trace];
          rewrite <- !app_assoc; reflexivity).
    constructor; [exact Hblock|eexists; eexists; reflexivity
                 |exact Hfit|exact Hwr].
  - destruct (loop_run_calls _ _ _ _ _ _ Hl) as (chunks & Hne & Hcap & Hit);
      [unfold response_size; lia|exact Hblock|].
    destruct Hit as (calls & block & l & Htr & Hcalls & Hlt & Hlen & Hlog).
    destruct (loop_run_received _ _ _ _ _ _ Hl) as (evs & Htr' & -> & Hnone);
      [unfold response_size; lia|exact Hblock|reflexivity|left; reflexivity|].
    cbn [Z.to_nat firstn app] in Hnone.
    rewrite Htr in Htr'. apply app_inv_head in Htr'. subst evs.
    assert (Hl' : received [EvFree block; l] = [])
      by (destruct Hlog as (f & a & ->); reflexivity).
    rewrite !received_app, received_chunk_events,
      (received_leaving_calls _ _ _ Hcalls), Hl', !app_nil_r in Hnone.
    apply (strstr_none_spec _ _ nul_free_terminator) in Hnone.
    exists MOSQ_ERR_PROXY. split; [reflexivity|].
    split; [split; [discriminate|contradiction]|].
    subst w1. cbn [Z.add] in *.
    rewrite (events_since_app w _
               ([EvAlloc response_size true;
                 EvWrite req (Z.of_nat (length req))]
                ++ chunk_events mosq 0 chunks ++ calls ++ [EvFree block; l])).
    + constructor; assumption.
    + rewrite Htr. unfold after_write. cbn [w_trace]. rewrite Hwr.
      unfold after_alloc. cbn [w_trace]. rewrite <- !app_assoc. reflexivity.
  - destruct (loop_run_calls _ _ _ _ _ _ Hl) as (chunks & Hne & Hcap & Hit);
      [unfold response_size; lia|exact Hblock|].
    destruct Hit as (Htr & Ht & Hlen & Hnil).
    assert (Hchunks : chunks <> []).
    { intros E. destruct (Hnil E) as [_ Hz]. unfold response_size in Hz. lia. }
    destruct (loop_run_received _ _ _ _ _ _ Hl)
      as (evs & Htr' & _ & _ & _ & Hheld & Hfull);
      [unfold response_size; lia|exact Hblock|reflexivity|left; reflexivity|].
    cbn [Z.to_nat firstn app] in Hheld.
    rewrite Htr in Htr'. apply app_inv_head in Htr'. subst evs.
    rewrite received_chunk_events in Hheld.
    subst w1. cbn [Z.add] in *.
    assert (Hpre : w_trace w3
                   = w_trace w
                     ++ [EvAlloc response_size true;
                         EvWrite req (Z.of_nat (length req))]
                     ++ chunk_events mosq 0 chunks).
    { rewrite Htr. unfold after_write. cbn [w_trace]. rewrite Hwr.
      unfold after_alloc. cbn [w_trace]. rewrite <- !app_assoc. reflexivity. }
    assert (Hterm : strstr r0 terminator <> None
                    <-> contains (c_str (concat chunks)) terminator).
    { rewrite (holds_strstr _ _ _ Hheld).
      apply (strstr_spec _ _ nul_free_terminator). }
    pose proof (status_ok_holds _ _ Hheld) as Hstatus.
    pose proof (status_line_holds _ _ Hheld) as Hline.
    destruct Hcheck as [Hnone|Hsome Hbad|Hsome Hgood].
    + exists MOSQ_ERR_PROXY. split; [reflexivity|].
    split; [split; [discriminate|contradiction]|].
      rewrite (events_since_app w _
                 ([EvAlloc response_size true;
                   EvWrite req (Z.of_nat (length req))]
                  ++ chunk_events mosq 0 chunks
                  ++ [EvFree r0;
                      EvLog MOSQ_LOG_ERR
                        "Proxy response headers too long or incomplete." []]))
        by (unfold emits, after; cbn [w_trace]; rewrite Hpre;
            rewrite <- !app_assoc; reflexivity).
      apply Calls_incomplete; try assumption.
      * eexists; eexists; reflexivity.
      * rewrite <- (Hfull Hnone). symmetry. exact Ht.
      * intros Hc. apply Hterm in Hc. contradiction.
    + exists MOSQ_ERR_PROXY. split; [reflexivity|].
    split; [split; [discriminate|contradiction]|].
      rewrite (events_since_app w _
                 ([EvAlloc response_size true;
                   EvWrite req (Z.of_nat (length req))]
                  ++ chunk_events mosq 0 chunks
                  ++ [EvLog MOSQ_LOG_ERR "Proxy CONNECT failed: %s"
                            [ArgStr (status_line r0)];
                      EvFree r0]))
        by (unfold emits, after; cbn [w_trace]; rewrite Hpre;
            rewrite <- !app_assoc; reflexivity).
      rewrite Hline.
      apply Calls_rejected; try assumption; try tauto; lia.
    + exists MOSQ_ERR_SUCCESS. split; [reflexivity|].
    split; [split; [discriminate|contradiction]|].
      rewrite (events_since_app w _
                 ([EvAlloc response_size true;
                   EvWrite req (Z.of_nat (length req))]
                  ++ chunk_events mosq 0 chunks
                  ++ [success_log; EvFree r0]))
        by (unfold emits, after, success_log; cbn [w_trace]; rewrite Hpre;
            rewrite <- !app_assoc; reflexivity).
      apply Calls_success; try assumption; try tauto; lia.
Qed.

Lemma chunk_events_sock mosq chunks :
  forall t, Forall (fun e => is_sock e = true) (chunk_events mosq t chunks).
Proof.
  induction chunks as [|c cs IH]; intros t; cbn [chunk_events].
  - constructor.
  - constructor; [reflexivity|]. constructor; [reflexivity|]. apply IH.
Qed.

Lemma leaving_calls_sock mosq t calls :
  leaving_calls mosq t calls -> Forall (fun e => is_sock e = true) calls.
Proof.
  intros [(n & _ & ->)|(n & _ & ->)]; repeat constructor.
Qed.

Lemma filter_none {A} (f : A -> bool) l :
  Forall (fun x => f x = false) l -> filter f l = [].
Proof.
  induction 1 as [|x l Hx _ IH]; cbn [filter]; [reflexivity|].
  rewrite Hx. exact IH.
Qed.

Lemma filter_all {A} (f : A -> bool) l :
  Forall (fun x => f x = true) l -> filter f l = l.
Proof.
  induction 1 as [|x l Hx _ IH]; cbn [filter]; [reflexivity|].
  rewrite Hx, IH. reflexivity.
Qed.


Lemma sock_not_write l :
  Forall (fun e => is_sock e = true) l ->
  Forall (fun e => is_write e = false) l.
Proof.
  apply Forall_impl. intros [| | | | |]; cbn; intros; congruence.
Qed.


Lemma chunk_events_polls mosq chunks :
  forall t,
    length (filter is_poll (chunk_events mosq t chunks)) = length chunks /\
    length (filter is_read (chunk_events mosq t chunks)) = length chunks.
Proof.
  induction chunks as [|c cs IH]; intros t; cbn [chunk_events filter is_poll
                                                 is_read length].
  - split; reflexivity.
  - destruct (IH (t + Z.of_nat (length c))) as [-> ->]. split; reflexivity.
Qed.

Lemma length_chunks chunks :
  Forall (fun c : bytes => c <> []) chunks ->
  (length chunks <= length (concat chunks))%nat.
Proof.
  induction 1 as [|c cs Hc _ IH]; cbn [concat length]; [lia|].
  rewrite length_app. destruct c; [congruence|]. cbn [length]. lia.
Qed.


Lemma app_split_head (f : event -> bool) hd :
  forall rest pre e post,
    hd ++ rest = pre ++ e :: post ->
    Forall (fun x => f x = false) hd -> f e = true ->
    exists pre', pre = hd ++ pre' /\ rest = pre' ++ e :: post.
Proof.
  induction hd as [|x hd IH]; intros rest pre e post Heq Hhd He.
  - exists pre. split; [reflexivity|exact Heq].
  - inversion Hhd as [|x' hd' Hx Hhd']; subst.
    destruct pre as [|y pre]; cbn [app] in Heq; injection Heq as -> Heq.
    + congruence.
    + destruct (IH _ _ _ _ Heq Hhd' He) as (pre' & -> & ->).
      exists pre'. split; reflexivity.
Qed.

Lemma app_split_tail (f : event -> bool) mid :
  forall tl pre e post,
    mid ++ tl = pre ++ e :: post ->
    Forall (fun x => f x = false) tl -> f e = true ->
    exists post', mid = pre ++ e :: post' /\ post = post' ++ tl.
Proof.
  induction mid as [|x mid IH]; intros tl pre e post Heq Htl He.
  - exfalso. cbn [app] in Heq. subst tl.
    apply Forall_app in Htl. destruct Htl as [_ Htl].
    inversion Htl; subst. congruence.
  - destruct pre as [|y pre]; cbn [app] in Heq; injection Heq as -> Heq.
    + exists mid. split; [reflexivity|symmetry; exact Heq].
    + destruct (IH _ _ _ _ Heq Htl He) as (post' & -> & ->).
      exists post'. split; reflexivity.
Qed.

Lemma received_cons_poll fd events timeout n evs :
  received (EvPoll fd events timeout n :: evs) = received evs.
Proof. reflexivity. Qed.

Lemma received_cons_read offset count data n evs :
  received (EvRead offset count data n :: evs) = data ++ received evs.
Proof. reflexivity. Qed.

(** A read among the socket calls of the loop comes straight after a
    poll that reported the socket ready, and stores at the offset the
    data read before it has reached. *)
Lemma chunk_events_read_split mosq chunks :
  forall t calls pre offset count data n post,
    chunk_events mosq t chunks ++ calls
    = pre ++ EvRead offset count data n :: post ->
    calls = []
    \/ leaving_calls mosq (t + Z.of_nat (length (concat chunks))) calls ->
    offset = t + Z.of_nat (length (received pre)) /\
    count = response_size - 1 - offset /\
    exists pre', pre = pre' ++ [ev_poll mosq 1].
Proof.
  induction chunks as [|c cs IH];
    intros t calls pre offset count data n post Heq Hcalls.
  - cbn [chunk_events app concat length] in *.
    rewrite Z.add_0_r in Hcalls.
    destruct Hcalls as [->|[(k & _ & ->)|(k & _ & ->)]].
    + destruct pre; discriminate.
    + destruct pre as [|x [|y pre]]; discriminate.
    + destruct pre as [|x [|y [|z pre]]]; try discriminate.
      injection Heq as <- <- <- _ _. cbn. split_all; [lia|reflexivity|].
      exists []. reflexivity.
  - cbn [chunk_events app] in Heq.
    destruct pre as [|x [|y pre]]; try discriminate.
    + injection Heq as <- <- <- _ _ _. cbn. split_all; [lia|reflexivity|].
      exists []. reflexivity.
    + cbn [app] in Heq. injection Heq as <- <- Heq.
      destruct (IH _ _ _ _ _ _ _ _ Heq) as (Hoff & Hcount & pre' & ->).
      * destruct Hcalls as [->|Hcalls]; [left; reflexivity|right].
        cbn [concat] in Hcalls. rewrite length_app in Hcalls.
        replace (t + Z.of_nat (length c) + Z.of_nat (length (concat cs)))
          with (t + Z.of_nat (length c + length (concat cs))) by lia.
        exact Hcalls.
      * split_all; [|exact Hcount|].
        -- rewrite Hoff.
           rewrite received_cons_poll, received_cons_read.
           rewrite length_app. lia.
        -- exists (EvPoll (sock mosq) POLLIN connect_timeout_ms 1
                   :: EvRead t (response_size - 1 - t) c (Z.of_nat (length c))
                   :: pre'). reflexivity.
Qed.

(** The calls of a handshake are calls that are not on the socket's
    input, then the polls and reads of the loop, then calls that are
    not on the socket at all. *)
Lemma handshake_calls_shape mosq req rc evs :
  handshake_calls mosq req rc evs ->
  exists hd chunks calls tl,
    evs = hd ++ (chunk_events mosq 0 chunks ++ calls) ++ tl /\
    Forall (fun e => is_sock e = false) hd /\
    Forall (fun e => is_sock e = false) tl /\
    Forall (fun e => is_write e = false) tl /\
    (calls = []
     \/ leaving_calls mosq (0 + Z.of_nat (length (concat chunks))) calls) /\
    (hd = [EvAlloc response_size true; EvWrite req (Z.of_nat (length req))]
     \/ chunks = [] /\ calls = [] /\ (length (filter is_write hd) <= 1)%nat).
Proof.
  assert (Herr : forall l, is_err l ->
                           is_sock l = false /\ is_write l = false)
    by (intros l (f & a & ->); split; reflexivity).
  intros [|block l Hb Hl Hsz|n block l Hb Hl Hsz Hn
          |chunks calls block l Hb Hl Hsz Hne Hlt Hterm Hcalls
          |chunks block l Hb Hl Hsz Hne Hfull Hterm Hheld
          |chunks block Hb Hsz Hne Hnil Hfit Hterm Hbad Hheld
          |chunks block Hb Hsz Hne Hnil Hfit Hterm Hgood Hheld].
  - exists [EvAlloc response_size false], [], [], [].
    split_all; [reflexivity|repeat constructor..|left; reflexivity|].
    right. split_all; try reflexivity; cbn; lia.
  - destruct (Herr _ Hl).
    exists [EvAlloc response_size true], [], [], [EvFree block; l].
    split_all; [reflexivity|repeat constructor; assumption..
               |left; reflexivity|].
    right. split_all; try reflexivity; cbn; lia.
  - destruct (Herr _ Hl).
    exists [EvAlloc response_size true; EvWrite req n], [], [],
      [EvFree block; l].
    split_all; [reflexivity|repeat constructor; assumption..
               |left; reflexivity|].
    right. split_all; try reflexivity; cbn; lia.
  - destruct (Herr _ Hl).
    exists [EvAlloc response_size true; EvWrite req (Z.of_nat (length req))],
      chunks, calls, [EvFree block; l].
    split_all; [rewrite <- ?app_assoc; reflexivity
               |repeat constructor; assumption..
               |right; exact Hcalls|left; reflexivity].
  - destruct (Herr _ Hl).
    exists [EvAlloc response_size true; EvWrite req (Z.of_nat (length req))],
      chunks, [], [EvFree block; l].
    split_all; [rewrite app_nil_r; reflexivity
               |repeat constructor; assumption..
               |left; reflexivity|left; reflexivity].
  - exists [EvAlloc response_size true; EvWrite req (Z.of_nat (length req))],
      chunks, [],
      [EvLog MOSQ_LOG_ERR "Proxy CONNECT failed: %s"
             [ArgStr (status_line (concat chunks))]; EvFree block].
    split_all; [rewrite app_nil_r; reflexivity
               |repeat constructor..
               |left; reflexivity|left; reflexivity].
  - exists [EvAlloc response_size true; EvWrite req (Z.of_nat (length req))],
      chunks, [], [success_log; EvFree block].
    split_all; [rewrite app_nil_r; reflexivity
               |repeat constructor..
               |left; reflexivity|left; reflexivity].
Qed.

(** **** X7
    The order of the calls of [net__proxy_connect].  It writes to the
    socket at most once.  A poll or a read happens only after the
    allocation and the write of the whole request, with nothing but
    polls and reads in between: the function does not wait for an
    answer to a request it has not sent in full.  Each read comes
    straight after a poll that returned 1, takes as many bytes as are
    left in the block before its last byte, and stores at the offset
    that is the number of bytes received so far, so that the data of
    the reads lie in the block one after the other. *)
Theorem handshake_call_order mosq dest_host dest_port w :
  let req := format_request mosq dest_host dest_port in
  let r := net__proxy_connect mosq dest_host dest_port w in
  let evs := events_since w (snd r) in
  (length (filter is_write evs) <= 1)%nat /\
  (forall pre e post,
     evs = pre ++ e :: post -> is_sock e = true ->
     exists calls,
       pre = [EvAlloc response_size true; EvWrite req (Z.of_nat (length req))]
             ++ calls /\
       Forall (fun c => is_sock c = true) calls) /\
  (forall pre offset count data n post,
     evs = pre ++ EvRead offset count data n :: post ->
     offset = Z.of_nat (length (received pre)) /\
     count = response_size - 1 - offset /\
     exists pre',
       pre = pre' ++ [EvPoll (sock mosq) POLLIN connect_timeout_ms 1]).
Proof.
  intros req r evs.
  destruct (net__proxy_connect_calls mosq dest_host dest_port w)
    as (rc & _ & _ & Hcalls).
  fold r req in Hcalls. fold evs in Hcalls. clearbody evs. clear r.
  destruct (handshake_calls_shape _ _ _ _ Hcalls)
    as (hd & chunks & calls & tl & -> & Hhd & Htl & Htlw & Hleave & Hfirst).
  assert (Hmid : Forall (fun e => is_sock e = true)
                        (chunk_events mosq 0 chunks ++ calls)).
  { apply Forall_app. split; [apply chunk_events_sock|].
    destruct Hleave as [->|Hleave]; [constructor|].
    exact (leaving_calls_sock _ _ _ Hleave). }
  assert (Hsplit : forall pre e post,
             hd ++ (chunk_events mosq 0 chunks ++ calls) ++ tl
             = pre ++ e :: post ->
             is_sock e = true ->
             exists pre' post',
               pre = [EvAlloc response_size true;
                      EvWrite req (Z.of_nat (length req))] ++ pre' /\
               chunk_events mosq 0 chunks ++ calls = pre' ++ e :: post').
  { intros pre e post Heq He.
    destruct (app_split_head is_sock _ _ _ _ _ Heq Hhd He)
      as (pre' & -> & Heq').
    destruct (app_split_tail is_sock _ _ _ _ _ Heq' Htl He)
      as (post' & Hmid' & _).
    exists pre', post'. split; [|exact Hmid'].
    destruct Hfirst as [->|(-> & -> & _)]; [reflexivity|].
    destruct pre'; discriminate. }
  split_all.
  - rewrite (filter_app _ hd), (filter_app _ _ tl), !length_app.
    rewrite (filter_none is_write _ (sock_not_write _ Hmid)).
    rewrite (filter_none is_write _ Htlw). cbn [length].
    destruct Hfirst as [->|(_ & _ & Hle)]; [cbn|]; lia.
  - intros pre e post Heq He.
    destruct (Hsplit _ _ _ Heq He) as (pre' & post' & -> & Hmid').
    exists pre'. split; [reflexivity|].
    rewrite Hmid' in Hmid. apply Forall_app in Hmid. apply Hmid.
  - intros pre offset count data n post Heq.
    destruct (Hsplit _ _ _ Heq eq_refl) as (pre' & post' & -> & Hmid').
    destruct (chunk_events_read_split _ _ _ _ _ _ _ _ _ _ Hmid' Hleave)
      as (Hoff & Hcount & pre'' & ->).
    split_all.
    + rewrite Hoff, received_run_prefix. lia.
    + exact Hcount.
    + exists ([EvAlloc response_size true;
               EvWrite req (Z.of_nat (length req))] ++ pre'').
      rewrite <- app_assoc. reflexivity.
Qed.

(* ================================================================== *)
(** ** The handshake: when it succeeds *)

Lemma sock_not_in e l :
  Forall (fun x => is_sock x = true) l -> is_sock e = false -> ~ In e l.
Proof.
  intros Hl He Hin. rewrite Forall_forall in Hl.
  specialize (Hl _ Hin). congruence.
Qed.

(** What the shape of the calls says about the bytes received and the
    result. *)
Lemma handshake_calls_verdict mosq req rc evs :
  handshake_calls mosq req rc evs ->
  Z.of_nat (length (received evs)) <= response_size - 1 /\
  (rc = MOSQ_ERR_SUCCESS <->
   contains (c_str (received evs)) terminator /\ status_ok (received evs)) /\
  (rc = MOSQ_ERR_SUCCESS <-> In success_log evs) /\
  (rc = MOSQ_ERR_SUCCESS ->
   exists pre block,
     evs = [EvAlloc response_size true; EvWrite req (Z.of_nat (length req))]
           ++ pre ++ [success_log; EvFree block] /\
     Forall (fun e => is_sock e = true) pre /\
     holds block (received evs)) /\
  (rc = MOSQ_ERR_SUCCESS \/ rc = MOSQ_ERR_PROXY
   \/ rc = MOSQ_ERR_NOMEM /\ received evs = []).
Proof.
  assert (Hnil : ~ contains (c_str []) terminator)
    by (intros H; apply contains_nil in H; discriminate).
  assert (Herr : forall l, is_err l -> l <> success_log /\ received [l] = [])
    by (intros l (f & a & ->); split; [discriminate|reflexivity]).
  intros [|block l Hb Hl Hsz|n block l Hb Hl Hsz Hn
          |chunks calls block l Hb Hl Hsz Hne Hlt Hterm Hcalls
          |chunks block l Hb Hl Hsz Hne Hfull Hterm Hheld
          |chunks block Hb Hsz Hne Hnil' Hfit Hterm Hbad Hheld
          |chunks block Hb Hsz Hne Hnil' Hfit Hterm Hgood Hheld].
  - cbn [received flat_map app length].
    split; [unfold response_size; lia|].
    split; [split; [discriminate|intros [Hc Hs]; tauto]|].
    split; [split; [discriminate|intros [H|[]]; discriminate]|].
    split; [discriminate|]. right. right. split; reflexivity.
  - destruct (Herr _ Hl) as [Hne Hrecv].
    change (received [EvAlloc response_size true; EvFree block; l])
      with (received [l]). rewrite Hrecv. cbn [length].
    split; [unfold response_size; lia|].
    split; [split; [discriminate|intros [Hc Hs]; tauto]|].
    split; [split; [discriminate|]|].
    { intros [H|[H|[H|[]]]]; try discriminate. congruence. }
    split; [discriminate|]. right. left. reflexivity.
  - destruct (Herr _ Hl) as [Hne Hrecv].
    change (received [EvAlloc response_size true; EvWrite req n;
                      EvFree block; l])
      with (received [l]). rewrite Hrecv. cbn [length].
    split; [unfold response_size; lia|].
    split; [split; [discriminate|intros [Hc Hs]; tauto]|].
    split; [split; [discriminate|]|].
    { intros [H|[H|[H|[H|[]]]]]; try discriminate. congruence. }
    split; [discriminate|]. right. left. reflexivity.
  - destruct (Herr _ Hl) as [Hne' Hrecv].
    rewrite received_run_prefix, !received_app, received_chunk_events,
      (received_leaving_calls _ _ _ Hcalls).
    change (received [EvFree block; l]) with (received [l]).
    rewrite Hrecv, !app_nil_r.
    split; [lia|].
    split; [split; [discriminate|intros [Hc Hs]; tauto]|].
    split; [split; [discriminate|]|].
    { intros Hin. exfalso. cbn [app] in Hin.
      destruct Hin as [H|[H|Hin]]; try discriminate.
      rewrite !in_app_iff in Hin. destruct Hin as [Hin|[Hin|Hin]].
      + exact (sock_not_in success_log _ (chunk_events_sock _ _ _) eq_refl Hin).
      + exact (sock_not_in success_log _ (leaving_calls_sock _ _ _ Hcalls)
               eq_refl Hin).
      + destruct Hin as [H|[H|[]]]; [discriminate|congruence]. }
    split; [discriminate|]. right. left. reflexivity.
  - destruct (Herr _ Hl) as [Hne' Hrecv].
    rewrite received_run_prefix, !received_app, received_chunk_events.
    change (received [EvFree block; l]) with (received [l]).
    rewrite Hrecv, !app_nil_r.
    split; [lia|].
    split; [split; [discriminate|intros [Hc Hs]; tauto]|].
    split; [split; [discriminate|]|].
    { intros Hin. exfalso. cbn [app] in Hin.
      destruct Hin as [H|[H|Hin]]; try discriminate.
      rewrite !in_app_iff in Hin. destruct Hin as [Hin|Hin].
      + exact (sock_not_in success_log _ (chunk_events_sock _ _ _) eq_refl Hin).
      + destruct Hin as [H|[H|[]]]; [discriminate|congruence]. }
    split; [discriminate|]. right. left. reflexivity.
  - rewrite received_run_prefix, !received_app, received_chunk_events.
    cbn [received flat_map app]. rewrite !app_nil_r.
    split; [lia|].
    split; [split; [discriminate|intros [Hc Hs]; tauto]|].
    split; [split; [discriminate|]|].
    { intros Hin. exfalso. cbn [app] in Hin.
      destruct Hin as [H|[H|Hin]]; try discriminate.
      rewrite !in_app_iff in Hin. destruct Hin as [Hin|Hin].
      + exact (sock_not_in success_log _ (chunk_events_sock _ _ _) eq_refl Hin).
      + destruct Hin as [H|[H|[]]]; discriminate. }
    split; [discriminate|]. right. left. reflexivity.
  - rewrite received_run_prefix, !received_app, received_chunk_events.
    cbn [received flat_map app]. rewrite !app_nil_r.
    split; [lia|].
    split; [split; [intros _; split; assumption|reflexivity]|].
    split; [split; [|reflexivity]|].
    { intros _. cbn [app]. right. right. rewrite in_app_iff. right.
      left. reflexivity. }
    split; [|left; reflexivity].
    intros _. exists (chunk_events mosq 0 chunks), block.
    split_all; [reflexivity|apply chunk_events_sock|exact Hheld].
Qed.

(** **** X8
    [net__proxy_connect] returns [MOSQ_ERR_SUCCESS] exactly when the C
    string of the bytes it has read contains the blank line that ends
    the headers and the bytes start with [HTTP/1.1 200] or
    [HTTP/1.0 200]; and exactly when it logs the line that reports the
    connection.  A successful handshake has written the whole request,
    which fitted its buffer, has made only polls and reads between the
    write and that line of the log, and ends by freeing the block that
    holds the bytes read, followed by a NUL. *)
Theorem handshake_success_iff mosq dest_host dest_port w :
  let req := format_request mosq dest_host dest_port in
  let r := net__proxy_connect mosq dest_host dest_port w in
  let evs := events_since w (snd r) in
  let response := received evs in
  (fst r = Returns MOSQ_ERR_SUCCESS <->
   contains (c_str response) terminator /\ status_ok response) /\
  (fst r = Returns MOSQ_ERR_SUCCESS <-> In success_log evs) /\
  (fst r = Returns MOSQ_ERR_SUCCESS ->
   Z.of_nat (length req) < sizeof_request /\
   exists pre block,
     evs = [EvAlloc response_size true; EvWrite req (Z.of_nat (length req))]
           ++ pre ++ [success_log; EvFree block] /\
     Forall (fun e => is_sock e = true) pre /\
     holds block response).
Proof.
  intros req r evs response.
  destruct (net__proxy_connect_calls mosq dest_host dest_port w)
    as (rc & Hrc & _ & Hcalls).
  fold r req in Hrc, Hcalls. fold evs in Hcalls.
  destruct (handshake_calls_verdict _ _ _ _ Hcalls)
    as (_ & Hiff & Hlog & Hshape & _).
  fold response in Hiff, Hshape. rewrite Hrc.
  assert (Hrcs : Returns rc = Returns MOSQ_ERR_SUCCESS
                 <-> rc = MOSQ_ERR_SUCCESS)
    by (split; [intros [= ->]; reflexivity|intros ->; reflexivity]).
  rewrite Hrcs. split; [exact Hiff|]. split; [exact Hlog|].
  intros E. split; [|exact (Hshape E)].
  subst rc. inversion Hcalls; assumption.
Qed.

(** **** X9
    A NUL among the bytes read ends the response as far as
    [net__proxy_connect] can see, since it searches the block as a C
    string.  If the bytes read contain a NUL and the blank line that
    ends the headers does not occur before the first NUL, the handshake
    fails with [MOSQ_ERR_PROXY], whatever follows the NUL, be it a
    complete and successful response. *)
Theorem nul_truncates_response mosq dest_host dest_port w a b :
  let r := net__proxy_connect mosq dest_host dest_port w in
  received (events_since w (snd r)) = a ++ NUL :: b ->
  ~ contains a terminator ->
  fst r = Returns MOSQ_ERR_PROXY.
Proof.
  intros r Hrecv Hno.
  destruct (net__proxy_connect_calls mosq dest_host dest_port w)
    as (rc & Hrc & _ & Hcalls).
  fold r in Hrc, Hcalls.
  destruct (handshake_calls_verdict _ _ _ _ Hcalls)
    as (_ & Hiff & _ & _ & Hres).
  rewrite Hrc. rewrite Hrecv in Hiff, Hres.
  destruct Hres as [->|[->|[_ Hnil]]].
  - exfalso. destruct (proj1 Hiff eq_refl) as [Hterm _].
    rewrite c_str_app_nul in Hterm.
    exact (not_contains_c_str _ _ Hno Hterm).
  - reflexivity.
  - destruct a; discriminate.
Qed.

Lemma nul_truncates_response_witness :
  let mosq := mk_mosquitto 3 (mk_proxy (Some (lit "proxy")) 8080 None) in
  let w := mk_world [] [] [mk_poll_ev 5 (PollEvents POLLIN)]
             [ReadData (lit "HTTP/1.1 200 OK" ++ NUL :: CRLF ++ CRLF)]
             0 0 [] in
  let r := net__proxy_connect mosq (lit "broker") 1883 w in
  (received (events_since w (snd r))
   = lit "HTTP/1.1 200 OK" ++ NUL :: CRLF ++ CRLF /\
   ~ contains (lit "HTTP/1.1 200 OK") terminator) /\
  fst r = Returns MOSQ_ERR_PROXY.
Proof.
  intros mosq w r.
  assert (Hrecv : received (events_since w (snd r))
                  = lit "HTTP/1.1 200 OK" ++ NUL :: CRLF ++ CRLF)
    by (vm_compute; reflexivity).
  assert (Hno : ~ contains (lit "HTTP/1.1 200 OK") terminator).
  { rewrite <- (c_str_id (lit "HTTP/1.1 200 OK"))
      by (repeat constructor; discriminate).
    apply (strstr_none_spec _ _ nul_free_terminator). reflexivity. }
  split; [exact (conj Hrecv Hno)|].
  exact (nul_truncates_response mosq (lit "broker") 1883 w
           (lit "HTTP/1.1 200 OK") (CRLF ++ CRLF) Hrecv Hno).
Defined.

(* ================================================================== *)
(** ** The handshake: how long it can take *)

(** The time a run of the loop takes is at most the timeout for each
    of its polls. *)
Lemma loop_run_clock mosq t r w it w' :
  loop_run mosq t r w it w' ->
  0 <= t <= response_size - 1 ->
  Z.of_nat (length r) = response_size ->
  exists evs,
    w_trace w' = w_trace w ++ evs /\
    0 <= w_clock w' - w_clock w
      <= connect_timeout_ms * Z.of_nat (length (filter is_poll evs)).
Proof.
  assert (HT : 0 <= connect_timeout_ms) by (unfold connect_timeout_ms; lia).
  induction 1 as [t r w Hfull|t r w rc w' Hlt Hstep|t r w t' r' w' Hlt Hstep
                  |t r w t' r' w' it w'' Hlt Hstep Hrun IH]; intros Ht Hr.
  - exists []. rewrite app_nil_r. cbn [filter length]. split; [reflexivity|lia].
  - destruct (iter_step_return_wait _ _ _ _ _ _ Hstep)
      as (evs & Htr & _ & Hpolls & Hclock & _).
    exists evs. split; [exact Htr|]. rewrite Hpolls. lia.
  - destruct (iter_step_data_inv _ _ _ _ _ _ t' r' (conj (proj1 Ht) Hlt) Hstep)
      as (d & revents & rest & data & rs & Hp & Hd & Hin & Hrd & Hne & Hgot
          & Hlen & Ht' & Hr' & Hw' & _ & _); [right; reflexivity|].
    cbn zeta in *. eexists. rewrite Hw'. cbn [after w_trace w_clock].
    split; [reflexivity|]. cbn [filter is_poll ev_poll ev_read length]. lia.
  - destruct (iter_step_data_inv _ _ _ _ _ _ t' r' (conj (proj1 Ht) Hlt) Hstep)
      as (d & revents & rest & data & rs & Hp & Hd & Hin & Hrd & Hne & Hgot
          & Hlen & Ht' & Hr' & Hw' & _ & _); [left; reflexivity|].
    cbn zeta in *.
    assert (Hpos : 0 < Z.of_nat (length (read_chunk t data)))
      by (destruct (read_chunk t data); [congruence|cbn [length]; lia]).
    destruct IH as (evs & Htr & Hclock).
    + lia.
    + subst r'. rewrite block_after_length; lia.
    + rewrite Hw' in Htr, Hclock. cbn [after w_trace w_clock] in Htr, Hclock.
      eexists. split; [rewrite Htr, <- app_assoc; reflexivity|].
      cbn [app filter is_poll ev_poll ev_read length]. lia.
Qed.

(** **** X10
    [net__proxy_connect] always comes back, within a bound.  It polls
    at most 2047 times and reads at most once for each poll; the reads
    together store at most 2047 bytes, one less than the size of the
    response block; and the function is blocked for at most the
    timeout of 10000 ms for each poll it makes, so for at most
    2047 times 10 seconds in all. *)
Theorem handshake_bounded mosq dest_host dest_port w :
  let r := net__proxy_connect mosq dest_host dest_port w in
  let evs := events_since w (snd r) in
  (exists rc, fst r = Returns rc) /\
  (length (filter is_read evs) <= length (filter is_poll evs) <= 2047)%nat /\
  Z.of_nat (length (received evs)) <= response_size - 1 /\
  0 <= w_clock (snd r) - w_clock w
    <= connect_timeout_ms * Z.of_nat (length (filter is_poll evs)) /\
  w_clock (snd r) - w_clock w <= 2047 * 10000.
Proof.
  intros r evs.
  assert (Hclock : 0 <= w_clock (snd r) - w_clock w
                   <= connect_timeout_ms
                      * Z.of_nat (length (filter is_poll evs))).
  { subst evs.
    pose proof (net__proxy_connect_run mosq dest_host dest_port w) as Hrun.
    fold r in Hrun. destruct r as [o w']. cbn [fst snd] in *.
    pose proof (alloc_block_length w) as Hblock.
    destruct Hrun as [Hfail|Hok Hsz|req w1 Hok Hfit Hwr
                      |rc w3 req w1 Hok Hfit Hwr Hl
                      |t r0 w3 o' w4 req w1 Hok Hfit Hwr Hl Hcheck].
    - cbn [after_alloc w_clock]. unfold connect_timeout_ms. lia.
    - unfold emits, after, after_alloc. cbn [w_clock].
      unfold connect_timeout_ms. lia.
    - subst w1. unfold emits, after, after_write, after_alloc.
      cbn [w_clock]. unfold connect_timeout_ms. lia.
    - destruct (loop_run_clock _ _ _ _ _ _ Hl) as (evs & Htr & Hclock);
        [unfold response_size; lia|exact Hblock|].
      subst w1.
      rewrite (events_since_app w _
                 ([EvAlloc response_size true;
                   EvWrite req (write_returns (after_alloc w true)
                                              (Z.of_nat (length req)))]
                  ++ evs))
        by (rewrite Htr; unfold after_write, after_alloc; cbn [w_trace];
            rewrite <- !app_assoc; reflexivity).
      cbn [after_write after_alloc w_clock] in Hclock.
      cbn [app filter is_poll]. exact Hclock.
    - destruct (loop_run_clock _ _ _ _ _ _ Hl) as (evs & Htr & Hclock);
        [unfold response_size; lia|exact Hblock|].
      subst w1. cbn [after_write after_alloc w_clock] in Hclock.
      assert (Hw4 : exists tl, w_trace w4 = w_trace w3 ++ tl /\
                               filter is_poll tl = [] /\
                               w_clock w4 = w_clock w3).
      { destruct Hcheck; eexists; (split; [reflexivity|]);
          split; reflexivity. }
      destruct Hw4 as (tl & Htl & Hnone & ->).
      rewrite (events_since_app w _
                 ([EvAlloc response_size true;
                   EvWrite req (write_returns (after_alloc w true)
                                              (Z.of_nat (length req)))]
                  ++ evs ++ tl))
        by (rewrite Htl, Htr; unfold after_write, after_alloc; cbn [w_trace];
            rewrite <- !app_assoc; reflexivity).
      cbn [app filter is_poll]. rewrite filter_app, Hnone, app_nil_r.
      exact Hclock. }
  destruct (net__proxy_connect_calls mosq dest_host dest_port w)
    as (rc & Hrc & _ & Hcalls).
  fold r in Hrc, Hcalls. fold evs in Hcalls.
  destruct (handshake_calls_verdict _ _ _ _ Hcalls) as (Hrecv & _).
  assert (Hcount : (length (filter is_read evs)
                    <= length (filter is_poll evs) <= 2047)%nat).
  { clear Hclock Hrecv Hrc. clearbody evs. clear r.
    assert (Hleave : forall t calls,
               leaving_calls mosq t calls ->
               (length (filter is_read calls) <= 1)%nat /\
               length (filter is_poll calls) = 1%nat).
    { intros t calls [(n & _ & ->)|(n & _ & ->)]; split; cbn; lia. }
    assert (Herr : forall l, is_err l ->
                             is_read l = false /\ is_poll l = false)
      by (intros l (f & a & ->); split; reflexivity).
    destruct Hcalls as [|block l Hb Hl Hsz|n block l Hb Hl Hsz Hn
                        |chunks calls block l Hb Hl Hsz Hne Hlt Hterm Hcalls
                        |chunks block l Hb Hl Hsz Hne Hfull Hterm Hheld
                        |chunks block Hb Hsz Hne Hnil Hfit Hterm Hbad Hheld
                        |chunks block Hb Hsz Hne Hnil Hfit Hterm Hgood Hheld];
      try (destruct (Herr _ Hl) as [Hlr Hlp]);
      try (pose proof (length_chunks _ Hne) as Hlen);
      try (destruct (chunk_events_polls mosq chunks 0) as [Hp Hr]);
      try (destruct (Hleave _ _ Hcalls) as [Hcr Hcp]);
      cbn [app filter is_read is_poll success_log];
      rewrite ?Hlr, ?Hlp, ?filter_app, ?length_app, ?Hp, ?Hr, ?Hcp;
      cbn [app filter is_read is_poll length success_log];
      rewrite ?Hlr, ?Hlp, ?Hcp; cbn [length];
      unfold response_size in *; lia. }
  split; [exists rc; exact Hrc|]. split; [exact Hcount|].
  split; [exact Hrecv|]. split; [exact Hclock|].
  unfold connect_timeout_ms in Hclock. lia.
Qed.

(* ================================================================== *)
(** ** The setter and the handshake together *)

Lemma request_length_auth mosq dest_host dest_port auth :
  proxy_auth_header (proxy mosq) = Some auth ->
  31 + strlen auth
  <= Z.of_nat (length (format_request mosq dest_host dest_port)).
Proof.
  intros Hauth. unfold format_request. rewrite Hauth.
  unfold strlen, fmt_s. rewrite !length_app.
  change (length (lit "CONNECT ")) with 8%nat.
  change (length (lit ":")) with 1%nat.
  change (length (lit " HTTP/1.1")) with 9%nat.
  change (length (lit "Host: ")) with 6%nat.
  change (length CRLF) with 2%nat. lia.
Qed.

(** **** X11
    [mosquitto_proxy_set] puts no limit on the length of the auth
    value, but [net__proxy_connect] formats the request into a buffer
    of 1024 bytes.  After a successful call of the setter with an auth
    value of 970 bytes or more, every handshake of the client fails,
    whatever the destination and whatever the proxy would answer: it
    returns [MOSQ_ERR_PROXY], or [MOSQ_ERR_NOMEM] when the response
    block cannot be allocated, and never writes to the socket, polls it
    or reads from it. *)
Theorem oversized_auth_blocks_handshake
    m0 host port v w0 mosq w0' dest_host dest_port w :
  mosquitto_proxy_set m0 host port (Some v) w0
    = (MOSQ_ERR_SUCCESS, Some mosq, w0') ->
  970 <= strlen v ->
  let r := net__proxy_connect mosq dest_host dest_port w in
  let evs := events_since w (snd r) in
  (fst r = Returns MOSQ_ERR_PROXY \/ fst r = Returns MOSQ_ERR_NOMEM) /\
  Forall (fun e => is_write e = false /\ is_sock e = false) evs.
Proof.
  intros Hset Hlen r evs.
  destruct (mosquitto_proxy_set_success _ _ _ _ _ _ _ Hset)
    as (m & h & _ & _ & _ & Hmosq).
  assert (Hauth : proxy_auth_header (proxy mosq) = Some (auth_line v)).
  { subst mosq. cbn [proxy proxy_auth_header auth_header_of].
    replace (0 <? strlen v) with true by (symmetry; apply Z.ltb_lt; lia).
    reflexivity. }
  pose proof (request_length_auth mosq dest_host dest_port _ Hauth) as Hreq.
  assert (Hline : strlen (auth_line v) = 23 + strlen v).
  { unfold strlen. rewrite (c_str_id _ (auth_line_nul_free v)).
    unfold auth_line, fmt_s. rewrite !length_app.
    change (length (lit "Proxy-Authorization: ")) with 21%nat.
    change (length CRLF) with 2%nat. lia. }
  destruct (net__proxy_connect_calls mosq dest_host dest_port w)
    as (rc & Hrc & _ & Hcalls).
  fold r in Hrc, Hcalls. fold evs in Hcalls. rewrite Hrc.
  clearbody evs. clear Hrc r.
  destruct Hcalls as [|block l Hb Hl Hsz|n block l Hb Hl Hsz Hn
                      |chunks calls block l Hb Hl Hsz Hne Hlt Hterm Hcalls
                      |chunks block l Hb Hl Hsz Hne Hfull Hterm Hheld
                      |chunks block Hb Hsz Hne Hnil Hfit Hterm Hbad Hheld
                      |chunks block Hb Hsz Hne Hnil Hfit Hterm Hgood Hheld];
    try (exfalso; unfold sizeof_request in *; lia).
  - split; [right; reflexivity|]. repeat constructor.
  - split; [left; reflexivity|].
    destruct Hl as (f & a & ->). repeat constructor.
Qed.

Lemma oversized_auth_blocks_handshake_witness :
  let m0 := mk_mosquitto 3 (mk_proxy None 0 None) in
  let v := repeat "a"%char 970 in
  let w0 := mk_world [] [] [] [] 0 0 [] in
  let set := mosquitto_proxy_set (Some m0) (Some (lit "proxy")) 8080
               (Some v) w0 in
  let mosq := mk_mosquitto 3 (mk_proxy (Some (lit "proxy")) 8080
                                       (Some (auth_line v))) in
  (set = (MOSQ_ERR_SUCCESS, Some mosq, snd set) /\ 970 <= strlen v) /\
  fst (net__proxy_connect mosq (lit "b") 1 w0) = Returns MOSQ_ERR_PROXY.
Proof.
  intros m0 v w0 set mosq.
  assert (Hset : set = (MOSQ_ERR_SUCCESS, Some mosq, snd set))
    by (vm_compute; reflexivity).
  assert (Hlen : 970 <= strlen v) by (vm_compute; discriminate).
  split; [exact (conj Hset Hlen)|].
  destruct (oversized_auth_blocks_handshake _ _ _ _ _ _ _ (lit "b") 1 w0
              Hset Hlen) as [[H|H] _]; [exact H|].
  vm_compute in H. discriminate H.
Defined.

(* ================================================================== *)
(** ** The handshake: what it logs *)

(** [strstr] finds the first occurrence: what precedes the offset it
    returns is free of NUL and, followed by the needle, is the start of
    the C string; the needle does not occur in it. *)
Lemma strstr_first needle :
  nul_free needle -> needle <> [] ->
  forall h i,
    strstr h needle = Some i ->
    nul_free (firstn i h) /\
    ~ contains (firstn i h) needle /\
    exists rest, c_str h = firstn i h ++ needle ++ rest.
Proof.
  intros Hn Hne h. induction h as [|c h IH]; intros i Hfind.
  - cbn [strstr] in Hfind.
    destruct (starts_with needle []) eqn:Hs; [|discriminate].
    injection Hfind as <-. cbn [firstn].
    split; [constructor|]. split.
    + intros Hc. apply contains_nil in Hc. contradiction.
    + apply (starts_with_spec _ _ Hn) in Hs. destruct Hs as (rest & Hs).
      symmetry in Hs. apply app_eq_nil in Hs. destruct Hs as [Hs _].
      contradiction.
  - cbn [strstr] in Hfind.
    destruct (starts_with needle (c :: h)) eqn:Hs.
    + injection Hfind as <-. cbn [firstn app].
      split; [constructor|]. split.
      * intros Hc. apply contains_nil in Hc. contradiction.
      * apply (starts_with_spec _ _ Hn) in Hs. destruct Hs as (rest & Hs).
        rewrite Hs.
        destruct (c_str_app_prefix needle rest) as (rest' & Hrest).
        rewrite Hrest, (c_str_id _ Hn). exists rest'. reflexivity.
    + destruct (Ascii.eqb_spec c NUL) as [->|Hc]; [discriminate|].
      destruct (strstr h needle) as [j|] eqn:Hj; [|discriminate].
      injection Hfind as <-.
      destruct (IH j eq_refl) as (Hfree & Hno & rest & Hstr).
      cbn [firstn c_str].
      destruct (Ascii.eqb_spec c NUL) as [|_]; [contradiction|].
      split; [constructor; assumption|]. split.
      * intros Hcont. apply contains_cons in Hcont.
        destruct Hcont as [(rest' & Hpre)|Hcont]; [|contradiction].
        assert (Hstart : starts_with needle (c :: h) = true).
        { apply (starts_with_spec _ _ Hn).
          destruct (c_str_prefix h) as (tail & Htail).
          rewrite Htail, Hstr.
          exists (rest' ++ needle ++ rest ++ tail).
          change (c :: (firstn j h ++ needle ++ rest) ++ tail)
            with ((c :: firstn j h) ++ (needle ++ rest) ++ tail)
            || rewrite app_comm_cons.
          rewrite app_comm_cons, Hpre, <- !app_assoc. reflexivity. }
        congruence.
      * exists rest. rewrite Hstr. reflexivity.
Qed.

Lemma contains_terminator_CRLF s : contains s terminator -> contains s CRLF.
Proof.
  intros (l1 & l2 & ->). exists l1, (CRLF ++ l2).
  unfold terminator. rewrite <- !app_assoc. reflexivity.
Qed.

(** **** X12
    What [net__proxy_connect] logs for a response that is complete but
    does not start with an accepted status.  The statements after the
    loop return [MOSQ_ERR_PROXY], log one error line whose argument is
    the first line of the response, that is the text of the C string in
    the block up to its first CR LF, without it, and then free the
    block with the CR they had overwritten put back: the block that is
    freed is the block they were given. *)
Theorem rejected_logs_first_line response w :
  strstr response terminator <> None ->
  ~ status_ok response ->
  let r := check_response response w in
  fst r = Returns MOSQ_ERR_PROXY /\
  exists line rest,
    events_since w (snd r)
    = [EvLog MOSQ_LOG_ERR "Proxy CONNECT failed: %s" [ArgStr line];
       EvFree response] /\
    c_str response = line ++ CRLF ++ rest /\
    ~ contains line CRLF /\ nul_free line.
Proof.
  intros Hterm Hbad r.
  pose proof (check_response_case response w) as Hcase. fold r in Hcase.
  destruct r as [o w']. cbn [fst snd] in *.
  inversion Hcase as [Hnone|Hsome _|Hsome Hgood]; subst;
    [contradiction| |contradiction].
  split; [reflexivity|].
  assert (Hfind : strstr response CRLF <> None).
  { apply (strstr_spec _ _ nul_free_CRLF).
    apply contains_terminator_CRLF.
    apply (strstr_spec _ _ nul_free_terminator). exact Hterm. }
  unfold status_line.
  destruct (strstr response CRLF) as [i|] eqn:Hi; [|contradiction].
  destruct (strstr_first CRLF nul_free_CRLF ltac:(discriminate) _ _ Hi)
    as (Hfree & Hno & rest & Hstr).
  exists (firstn i response), rest.
  split_all; try assumption.
  unfold fmt_s. rewrite (c_str_id _ Hfree).
  apply events_since_app. reflexivity.
Qed.

Lemma rejected_logs_first_line_witness :
  let response :=
    lit "HTTP/1.1 407 Proxy Authentication Required" ++ CRLF
    ++ lit "Proxy-Authenticate: Basic" ++ CRLF ++ CRLF ++ [NUL] in
  let w := mk_world [] [] [] [] 0 0 [] in
  (strstr response terminator <> None /\ ~ status_ok response) /\
  exists rest,
    events_since w (snd (check_response response w))
    = [EvLog MOSQ_LOG_ERR "Proxy CONNECT failed: %s"
             [ArgStr (lit "HTTP/1.1 407 Proxy Authentication Required")];
       EvFree response] /\
    c_str response
    = lit "HTTP/1.1 407 Proxy Authentication Required" ++ CRLF ++ rest.
Proof.
  intros response w.
  assert (Hterm : strstr response terminator <> None)
    by (vm_compute; discriminate).
  assert (Hbad : ~ status_ok response)
    by (intros [H|H]; vm_compute in H; discriminate H).
  split; [exact (conj Hterm Hbad)|].
  destruct (rejected_logs_first_line response w Hterm Hbad)
    as (_ & line & rest & Hev & Hstr & _ & _).
  assert (Hline : line = lit "HTTP/1.1 407 Proxy Authentication Required").
  { assert (Hev' : events_since w (snd (check_response response w))
                   = [EvLog MOSQ_LOG_ERR "Proxy CONNECT failed: %s"
                        [ArgStr (lit "HTTP/1.1 407 Proxy Authentication Required")];
                      EvFree response]) by (vm_compute; reflexivity).
    rewrite Hev' in Hev. injection Hev as Hev. symmetry. exact Hev. }
  subst line. exists rest. split; [exact Hev|exact Hstr].
Defined.

(** **** X13
    A short write ends the handshake.  When [net__write] returns a
    count that is not the length of the request, [net__proxy_connect]
    does not write the rest: it frees the response block, logs an
    error and returns [MOSQ_ERR_PROXY] without a poll or a read.  The
    line it logs takes its argument from [errno]; after a write that
    stored part of the request and did not set [errno], that is the
    value [errno] had before the call. *)
Theorem short_write_fails mosq dest_host dest_port w n rest :
  let req := format_request mosq dest_host dest_port in
  ~ alloc_fails w ->
  Z.of_nat (length req) < sizeof_request ->
  w_writes w = WriteSome n :: rest ->
  n <> Z.of_nat (length req) ->
  let r := net__proxy_connect mosq dest_host dest_port w in
  fst r = Returns MOSQ_ERR_PROXY /\
  events_since w (snd r)
  = [EvAlloc response_size true; EvWrite req n; EvFree (alloc_block w);
     EvLog MOSQ_LOG_ERR "Error writing to proxy: %s."
           [ArgStrerror (w_errno w)]] /\
  w_writes (snd r) = rest /\
  w_polls (snd r) = w_polls w /\ w_reads (snd r) = w_reads w.
Proof.
  intros req Hok Hfit Hwrites Hn r.
  pose proof (net__proxy_connect_run mosq dest_host dest_port w) as Hrun.
  fold r in Hrun. destruct r as [o w']. cbn [fst snd] in *.
  assert (Hret : write_returns (after_alloc w true) (Z.of_nat (length req)) = n)
    by (unfold write_returns, after_alloc; cbn [w_writes];
        rewrite Hwrites; reflexivity).
  assert (Herrno : errno_after_write (after_alloc w true) = w_errno w)
    by (unfold errno_after_write, after_alloc; cbn [w_writes w_errno];
        rewrite Hwrites; reflexivity).
  destruct Hrun as [Hfail|_ Hsz|req' w1 _ _ Hwr
                    |rc w3 req' w1 _ _ Hwr Hl
                    |t r0 w3 o' w4 req' w1 _ _ Hwr Hl Hcheck];
    try contradiction; try (exfalso; subst req; lia);
    try (exfalso; subst req' w1; fold req in Hwr; congruence).
  subst req' w1. fold req.
  split; [reflexivity|]. split.
  - rewrite (events_since_app w _
               [EvAlloc response_size true;
                EvWrite req (write_returns (after_alloc w true)
                                           (Z.of_nat (length req)));
                EvFree (alloc_block w);
                EvLog MOSQ_LOG_ERR "Error writing to proxy: %s."
                      [ArgStrerror (errno_after_write (after_alloc w true))]])
      by (unfold emits, after, after_write, after_alloc; cbn [w_trace];
          rewrite <- !app_assoc; reflexivity).
    rewrite Hret, Herrno. reflexivity.
  - unfold emits, after, after_write, after_alloc.
    cbn [w_writes w_polls w_reads]. rewrite Hwrites.
    split_all; reflexivity.
Qed.

Lemma short_write_fails_witness :
  let mosq := mk_mosquitto 3 (mk_proxy (Some (lit "proxy")) 8080 None) in
  let w := mk_world [] [WriteSome 10] [mk_poll_ev 5 (PollEvents POLLIN)]
             [ReadData (lit "HTTP/1.1 200 OK" ++ CRLF ++ CRLF)] 17 0 [] in
  let req := format_request mosq (lit "broker") 1883 in
  (~ alloc_fails w /\ Z.of_nat (length req) < sizeof_request /\
   w_writes w = [WriteSome 10] /\ 10 <> Z.of_nat (length req)) /\
  fst (net__proxy_connect mosq (lit "broker") 1883 w)
  = Returns MOSQ_ERR_PROXY.
Proof.
  intros mosq w req.
  assert (H1 : ~ alloc_fails w) by (intros H; discriminate H).
  assert (H2 : Z.of_nat (length req) < sizeof_request) by (vm_compute; reflexivity).
  assert (H3 : w_writes w = [WriteSome 10]) by reflexivity.
  assert (H4 : 10 <> Z.of_nat (length req)) by (vm_compute; discriminate).
  split; [exact (conj H1 (conj H2 (conj H3 H4)))|].
  exact (proj1 (short_write_fails mosq (lit "broker") 1883 w 10 [] H1 H2 H3 H4)).
Defined.

(* ================================================================== *)
(** ** One pass through the loop: what it does to the block *)

Lemma block_after_frame t r got :
  0 <= t -> t + Z.of_nat (length got) < Z.of_nat (length r) ->
  let t' := Z.to_nat (t + Z.of_nat (length got)) in
  firstn (Z.to_nat t) (block_after t r got) = firstn (Z.to_nat t) r /\
  firstn (length got) (skipn (Z.to_nat t) (block_after t r got)) = got /\
  nth_error (block_after t r got) t' = Some NUL /\
  skipn (t' + 1) (block_after t r got) = skipn (t' + 1) r.
Proof.
  intros Ht Hfit t'.
  assert (Hlen : length (firstn (Z.to_nat t) r) = Z.to_nat t)
    by (rewrite length_firstn; lia).
  assert (Ht' : t' = (Z.to_nat t + length got)%nat) by (subst t'; lia).
  unfold block_after. rewrite Ht'. split_all.
  - rewrite <- !app_assoc, firstn_app, Hlen, Nat.sub_diag, firstn_firstn,
      Nat.min_id. cbn [firstn]. apply app_nil_r.
  - rewrite <- !app_assoc, skipn_app, Hlen, Nat.sub_diag, skipn_firstn_comm,
      Nat.sub_diag. cbn [firstn skipn app].
    rewrite firstn_app, Nat.sub_diag, firstn_all. cbn [firstn]. apply app_nil_r.
  - rewrite nth_error_app2 by (rewrite length_app, Hlen; lia).
    rewrite length_app, Hlen, Nat.sub_diag. reflexivity.
  - rewrite skipn_app, length_app, Hlen.
    rewrite skipn_all2 by (rewrite length_app, Hlen; lia).
    replace (Z.to_nat t + length got + 1 - (Z.to_nat t + length got))%nat
      with 1%nat by lia.
    reflexivity.
Qed.

(** **** X14
    What one pass through the body of the loop does to the response
    block, when the cursor is before the last byte of a block of
    [response_size] bytes.  The pass never stores outside the block.
    If it goes on or breaks, the cursor has advanced by the number of
    bytes read, at least one, and is still at most [response_size - 1];
    the block has the same size, the same bytes before the old cursor,
    the bytes read from the old cursor on, a NUL at the new cursor and
    the same bytes after it; and the pass breaks exactly when the C
    string in the block contains the blank line.  Otherwise it leaves
    the function with [MOSQ_ERR_PROXY]. *)
Theorem loop_body_keeps_block mosq total_read response w :
  0 <= total_read < response_size - 1 ->
  Z.of_nat (length response) = response_size ->
  let res := loop_body mosq total_read response w in
  let data := received (events_since w (snd res)) in
  let stored t' r' :=
    t' = total_read + Z.of_nat (length data) /\
    total_read < t' <= response_size - 1 /\
    length r' = length response /\
    firstn (Z.to_nat total_read) r' = firstn (Z.to_nat total_read) response /\
    firstn (length data) (skipn (Z.to_nat total_read) r') = data /\
    nth_error r' (Z.to_nat t') = Some NUL /\
    skipn (Z.to_nat t' + 1) r' = skipn (Z.to_nat t' + 1) response in
  match fst res with
  | Continue t' r' => stored t' r' /\ ~ contains (c_str r') terminator
  | Break t' r' => stored t' r' /\ contains (c_str r') terminator
  | Return rc => rc = MOSQ_ERR_PROXY
  | Fault => False
  end.
Proof.
  intros Ht Hr res data stored.
  pose proof (loop_body_step mosq total_read response w Ht Hr) as Hstep.
  fold res in Hstep. subst data.
  assert (Hdata : forall t' r',
             fst res = Continue t' r' \/ fst res = Break t' r' ->
             stored t' r' /\
             r' = block_after total_read response
                    (received (events_since w (snd res))) /\
             (fst res = Continue t' r' ->
              strstr (firstn (Z.to_nat total_read) response
                      ++ received (events_since w (snd res))) terminator
              = None) /\
             (fst res = Break t' r' ->
              strstr (firstn (Z.to_nat total_read) response
                      ++ received (events_since w (snd res))) terminator
              <> None)).
  { intros t' r' Hit.
    destruct (iter_step_data_inv _ _ _ _ _ _ t' r' Ht Hstep Hit)
      as (d & revents & rest & dat & rs & Hp & Hd & Hin & Hrd & Hne & Hgot
          & Hlen & Ht' & Hr' & Hw' & Hcont & Hbrk).
    cbn zeta in *. set (got := read_chunk total_read dat) in *.
    assert (Hrecv : received (events_since w (snd res)) = got).
    { rewrite (events_since_app w _
                 [ev_poll mosq 1;
                  ev_read total_read got (Z.of_nat (length got))])
        by (rewrite Hw'; reflexivity).
      cbn [received flat_map ev_poll ev_read app]. apply app_nil_r. }
    assert (Hpos : 0 < Z.of_nat (length got))
      by (destruct got; [congruence|cbn [length]; lia]).
    destruct (block_after_frame total_read response got)
      as (Hpre & Hgot' & Hnul & Hpost); [lia|lia|].
    rewrite Hrecv. split; [|split; [exact Hr'|split; assumption]].
    unfold stored. rewrite Hrecv. subst t' r'.
    split_all; try assumption; try lia.
    apply block_after_length; lia. }
  destruct (fst res) as [t' r'|t' r'|rc|] eqn:Eit.
  - destruct (Hdata t' r') as (Hs & Hr' & Hnone & _); [left; reflexivity|].
    split; [exact Hs|].
    apply (strstr_none_spec _ _ nul_free_terminator).
    rewrite Hr', strstr_block_after. exact (Hnone eq_refl).
  - destruct (Hdata t' r') as (Hs & Hr' & _ & Hsome); [right; reflexivity|].
    split; [exact Hs|].
    apply (strstr_spec _ _ nul_free_terminator).
    rewrite Hr', strstr_block_after. exact (Hsome eq_refl).
  - exact (proj1 (iter_step_return_inv _ _ _ _ _ _ Hstep)).
  - exact (iter_step_no_fault _ _ _ _ _ Hstep).
Qed.

Lemma loop_body_keeps_block_witness :
  let mosq := mk_mosquitto 3 (mk_proxy None 0 None) in
  let response := lit "HTTP" ++ repeat "x"%char 2044 in
  let w := mk_world [] [] [mk_poll_ev 5 (PollEvents POLLIN)]
             [ReadData (lit "/1.1 200 OK")] 0 0 [] in
  (0 <= 4 < response_size - 1 /\
   Z.of_nat (length response) = response_size) /\
  exists r',
    fst (loop_body mosq 4 response w) = Continue 15 r' /\
    firstn 16 r' = lit "HTTP/1.1 200 OK" ++ [NUL].
Proof.
  intros mosq response w.
  assert (Ht : 0 <= 4 < response_size - 1) by (unfold response_size; lia).
  assert (Hr : Z.of_nat (length response) = response_size)
    by (vm_compute; reflexivity).
  split; [exact (conj Ht Hr)|].
  pose proof (loop_body_keeps_block mosq 4 response w Ht Hr) as H.
  cbn zeta in H.
  destruct (fst (loop_body mosq 4 response w)) as [t' r'|t' r'|rc|] eqn:E;
    try (vm_compute in E; discriminate E).
  destruct H as [(Ht' & _) _].
  assert (E' : exists r0, Continue t' r' = Continue 15 r0 /\
                          firstn 16 r0 = lit "HTTP/1.1 200 OK" ++ [NUL]).
  { rewrite <- E. vm_compute. eexists. split; reflexivity. }
  destruct E' as (r0 & [= -> ->] & Hfirst).
  exists r0. split; [reflexivity|exact Hfirst].
Defined.

(* ================================================================== *)
(** ** The request, as it is written *)

Lemma string_of_uint_no_LF d :
  ~ In LF (lit (NilEmpty.string_of_uint d)).
Proof.
  unfold lit.
  induction d; cbn [NilEmpty.string_of_uint list_ascii_of_string In];
    [intros []|intros [H|H]; [discriminate H|auto]..].
Qed.

Lemma fmt_d_no_LF n : ~ In LF (fmt_d n).
Proof.
  unfold fmt_d, NilZero.string_of_int, NilZero.string_of_uint.
  destruct (Z.to_int n) as [d|d].
  - destruct d; try apply string_of_uint_no_LF.
    cbn. intros [H|[]]. discriminate H.
  - unfold lit. cbn [list_ascii_of_string In]. intros [H|H]; [discriminate H|].
    destruct d; try (exact (string_of_uint_no_LF _ H)).
    cbn in H. destruct H as [H|[]]. discriminate H.
Qed.

(** The text the function formats for a client configured by the
    setter: the two lines, the auth header line if there is one, and
    the empty line. *)
Lemma format_request_configured mosq dest_host dest_port :
  configured mosq ->
  format_request mosq dest_host dest_port
  = request_line dest_host dest_port ++ host_line dest_host dest_port
    ++ match proxy_auth_header (proxy mosq) with
       | Some line => line
       | None => []
       end
    ++ CRLF.
Proof.
  intros Hconf. unfold format_request, request_line, host_line.
  pose proof (configured_auth_header mosq Hconf) as Hwf.
  unfold auth_header_wf in Hwf.
  destruct (proxy_auth_header (proxy mosq)) as [a|].
  - destruct Hwf as [v ->]. unfold fmt_s at 3.
    rewrite (c_str_id (auth_line v)) by apply auth_line_nul_free.
    rewrite <- !app_assoc. reflexivity.
  - rewrite <- !app_assoc. reflexivity.
Qed.

(** Where the first line feed of a text is. *)
Lemma first_LF a :
  ~ In LF a ->
  forall b l1 l2,
    a ++ LF :: b = l1 ++ LF :: l2 ->
    (l1 = a /\ l2 = b) \/ exists l1', l1 = a ++ LF :: l1' /\ b = l1' ++ LF :: l2.
Proof.
  induction a as [|x a IH]; intros Ha b l1 l2 Heq.
  - destruct l1 as [|y l1]; cbn [app] in Heq.
    + injection Heq as Heq. left. split; [reflexivity|symmetry; exact Heq].
    + injection Heq as Heq1 Heq2. right. exists l1. subst y.
      split; [reflexivity|exact Heq2].
  - destruct l1 as [|y l1]; cbn [app] in Heq; injection Heq as Heq1 Heq2.
    + exfalso. apply Ha. left. exact Heq1.
    + destruct (IH (fun H => Ha (or_intror H)) _ _ _ Heq2)
        as [[-> ->]|(l1' & -> & ->)].
      * left. subst y. split; reflexivity.
      * right. exists l1'. subst y. split; reflexivity.
Qed.

(** The two lines the function always formats, when the destination
    host has no line feed in it. *)
Lemma request_lines dest_host dest_port :
  ~ In LF (fmt_s dest_host) ->
  exists line1 line2,
    request_line dest_host dest_port = line1 ++ CRLF /\
    host_line dest_host dest_port = line2 ++ CRLF /\
    ~ In LF line1 /\ ~ In LF line2 /\
    (exists rest, line1 = lit "CONNECT " ++ rest) /\
    (exists rest, line2 = lit "Host: " ++ rest).
Proof.
  intros Hhost.
  pose proof (fmt_d_no_LF dest_port) as Hport.
  exists (lit "CONNECT " ++ fmt_s dest_host ++ lit ":" ++ fmt_d dest_port
          ++ lit " HTTP/1.1"),
    (lit "Host: " ++ fmt_s dest_host ++ lit ":" ++ fmt_d dest_port).
  split_all.
  - unfold request_line. rewrite <- !app_assoc. reflexivity.
  - unfold host_line. rewrite <- !app_assoc. reflexivity.
  - rewrite !in_app_iff. intros [H|[H|[H|[H|H]]]]; try contradiction;
      cbn in H; intuition discriminate.
  - rewrite !in_app_iff. intros [H|[H|[H|H]]]; try contradiction;
      cbn in H; intuition discriminate.
  - eexists. reflexivity.
  - eexists. reflexivity.
Qed.

(** **** C4 (as amended)
    For every destination and every configuration that calls of
    [mosquitto_proxy_set] lead to, let the request be the CONNECT
    line, the Host line, the configured auth header line if there is
    one and nothing otherwise, and an empty line; it ends with
    CR LF CR LF.  Whenever the response block is allocated and the
    request is shorter than the 1024 bytes of the request buffer,
    [net__proxy_connect] formats this request and hands it to
    [net__write], right after the allocation and as its only write;
    and whatever the function writes is this request, which then is
    shorter than the buffer.  With the auth value
    ["Basic dXNlcjpwYXNz"] configured the request has, after the Host
    line, the line ["Proxy-Authorization: Basic dXNlcjpwYXNz"] and
    CR LF, byte for byte.  With no auth value (NULL or empty)
    configured the function adds no line: when the destination host
    contains no line feed, the header block is the CONNECT line and
    the Host line and nothing else, and no line of the request starts
    with [Proxy-Authorization]. *)
Theorem connect_request_format mosq dest_host dest_port w :
  configured mosq ->
  let req := request_line dest_host dest_port ++ host_line dest_host dest_port
             ++ match proxy_auth_header (proxy mosq) with
                | Some line => line
                | None => []
                end
             ++ CRLF in
  let r := net__proxy_connect mosq dest_host dest_port w in
  let evs := events_since w (snd r) in
  (exists l, req = l ++ terminator) /\
  (~ alloc_fails w ->
   Z.of_nat (length req) < sizeof_request ->
   exists n rest,
     evs = EvAlloc response_size true :: EvWrite req n :: rest /\
     Forall (fun e => is_write e = false) rest) /\
  (forall data n,
     In (EvWrite data n) evs ->
     data = req /\ Z.of_nat (length req) < sizeof_request) /\
  (forall mosq0 host port w0 w0',
     mosquitto_proxy_set mosq0 host port (Some (lit "Basic dXNlcjpwYXNz")) w0
       = (MOSQ_ERR_SUCCESS, Some mosq, w0') ->
     req = request_line dest_host dest_port ++ host_line dest_host dest_port
           ++ (lit "Proxy-Authorization: Basic dXNlcjpwYXNz" ++ CRLF)
           ++ CRLF) /\
  (forall mosq0 host port auth_value w0 w0',
     auth_value = None \/ (exists v, auth_value = Some v /\ strlen v = 0) ->
     mosquitto_proxy_set mosq0 host port auth_value w0
       = (MOSQ_ERR_SUCCESS, Some mosq, w0') ->
     req = request_line dest_host dest_port ++ host_line dest_host dest_port
           ++ CRLF /\
     (~ In LF (fmt_s dest_host) ->
      (exists line1 line2,
         req = line1 ++ CRLF ++ line2 ++ CRLF ++ CRLF /\
         ~ In LF line1 /\ ~ In LF line2 /\
         (exists rest, line1 = lit "CONNECT " ++ rest) /\
         (exists rest, line2 = lit "Host: " ++ rest)) /\
      ~ contains req (LF :: lit "Proxy-Authorization"))).
Proof.
  intros Hconf req r evs.
  pose proof (format_request_configured mosq dest_host dest_port Hconf)
    as Hreq.
  fold req in Hreq.
  split; [|split; [|split; [|split]]].
  - subst req.
    pose proof (configured_auth_header mosq Hconf) as Hwf.
    unfold auth_header_wf in Hwf.
    destruct (proxy_auth_header (proxy mosq)) as [a|].
    + destruct Hwf as [v ->]. unfold auth_line, host_line.
      exists (request_line dest_host dest_port
              ++ (lit "Host: " ++ fmt_s dest_host ++ lit ":"
                  ++ fmt_d dest_port ++ CRLF)
              ++ lit "Proxy-Authorization: " ++ fmt_s v).
      unfold terminator. rewrite <- !app_assoc. reflexivity.
    + unfold host_line.
      exists (request_line dest_host dest_port
              ++ lit "Host: " ++ fmt_s dest_host ++ lit ":" ++ fmt_d dest_port).
      unfold terminator. rewrite <- !app_assoc. reflexivity.
  - intros Hok Hfit.
    destruct (net__proxy_connect_calls mosq dest_host dest_port w)
      as (rc & _ & Hnomem & Hcalls).
    fold r in Hcalls. fold evs in Hcalls. rewrite Hreq in Hcalls.
    clearbody evs req. clear r Hreq.
    destruct Hcalls as [|block l Hb Hl Hsz|n block l Hb Hl Hsz Hn
                        |chunks calls block l Hb Hl Hsz Hne Hlt Hterm Hcalls
                        |chunks block l Hb Hl Hsz Hne Hfull Hterm Hheld
                        |chunks block Hb Hsz Hne Hnil Hfit' Hterm Hbad Hheld
                        |chunks block Hb Hsz Hne Hnil Hfit' Hterm Hgood Hheld].
    + exfalso. apply Hok. apply Hnomem. reflexivity.
    + exfalso. lia.
    + destruct Hl as (f & a & ->). eexists. eexists.
      split; [reflexivity|]. repeat constructor.
    + destruct Hl as (f & a & ->). eexists. eexists.
      split; [reflexivity|].
      repeat (apply Forall_app; split).
      * apply sock_not_write, chunk_events_sock.
      * apply sock_not_write, (leaving_calls_sock _ _ _ Hcalls).
      * repeat constructor.
    + destruct Hl as (f & a & ->). eexists. eexists.
      split; [reflexivity|].
      apply Forall_app; split;
        [apply sock_not_write, chunk_events_sock|repeat constructor].
    + eexists. eexists. split; [reflexivity|].
      apply Forall_app; split;
        [apply sock_not_write, chunk_events_sock|repeat constructor].
    + eexists. eexists. split; [reflexivity|].
      apply Forall_app; split;
        [apply sock_not_write, chunk_events_sock|repeat constructor].
  - intros data n Hin.
    pose proof (net__proxy_connect_events mosq dest_host dest_port w) as Hev.
    rewrite Forall_forall in Hev. apply Hev in Hin. cbn in Hin.
    destruct Hin as [-> Hlen]. rewrite Hreq in *. split; [reflexivity|exact Hlen].
  - intros mosq0 host port w0 w0' Hset.
    apply mosquitto_proxy_set_success in Hset as (m0 & h0 & _ & _ & _ & Hm).
    subst req. rewrite Hm. reflexivity.
  - intros mosq0 host port auth_value w0 w0' Hauth Hset.
    apply mosquitto_proxy_set_success in Hset as (m0 & h0 & _ & _ & _ & Hm).
    assert (Hnone : proxy_auth_header (proxy mosq) = None).
    { rewrite Hm. destruct Hauth as [-> | (v & -> & Hv)]; [reflexivity|].
      cbn [proxy proxy_auth_header auth_header_of]. rewrite Hv. reflexivity. }
    clear Hreq. subst req. rewrite Hnone. cbn [app].
    split; [reflexivity|].
    intros Hhost.
    destruct (request_lines dest_host dest_port Hhost)
      as (line1 & line2 & -> & -> & H1 & H2 & (rest1 & Hc) & (rest2 & Hh)).
    split.
    + exists line1, line2. rewrite <- !app_assoc.
      split_all; try assumption; try reflexivity.
      * exists rest1. exact Hc.
      * exists rest2. exact Hh.
    + intros (l1 & l2 & Heq).
      assert (Ha1 : ~ In LF (line1 ++ [CR])).
      { rewrite in_app_iff. intros [H|[H|[]]]; [contradiction|discriminate]. }
      assert (Ha2 : ~ In LF (line2 ++ [CR])).
      { rewrite in_app_iff. intros [H|[H|[]]]; [contradiction|discriminate]. }
      assert (Ha3 : ~ In LF [CR]) by (intros [H|[]]; discriminate).
      assert (Hshape :
        (line1 ++ CRLF) ++ (line2 ++ CRLF) ++ CRLF
        = (line1 ++ [CR])
          ++ LF :: ((line2 ++ [CR]) ++ LF :: ([CR] ++ LF :: []))).
      { unfold CRLF. rewrite <- !app_assoc. reflexivity. }
      rewrite Hshape in Heq. cbn [app] in Heq.
      change (l1 ++ LF :: lit "Proxy-Authorization" ++ l2)
        with (l1 ++ LF :: (lit "Proxy-Authorization" ++ l2)) in Heq.
      destruct (first_LF _ Ha1 _ _ _ Heq) as [[_ Hb]|(l1' & _ & Hb)].
      * rewrite Hh in Hb. cbn in Hb. discriminate Hb.
      * destruct (first_LF _ Ha2 _ _ _ Hb) as [[_ Hb']|(l1'' & _ & Hb')].
        -- cbn in Hb'. discriminate Hb'.
        -- destruct (first_LF _ Ha3 _ _ _ Hb')
             as [[_ Hb'']|(l1''' & _ & Hb'')].
           ++ cbn in Hb''. discriminate Hb''.
           ++ destruct l1'''; discriminate Hb''.
Qed.

Lemma connect_request_format_witness :
  let fresh := mk_mosquitto 3 (mk_proxy None 0 None) in
  let w := mk_world [] [] [] [] 0 0 [] in
  let mosq := mk_mosquitto 3
                (mk_proxy (Some (lit "proxy")) 8080
                          (Some (lit "Proxy-Authorization: Basic dXNlcjpwYXNz"
                                 ++ CRLF))) in
  let req := lit "CONNECT broker:1883 HTTP/1.1" ++ CRLF
             ++ lit "Host: broker:1883" ++ CRLF
             ++ lit "Proxy-Authorization: Basic dXNlcjpwYXNz" ++ CRLF
             ++ CRLF in
  (configured mosq /\ ~ alloc_fails w /\
   Z.of_nat (length req) < sizeof_request) /\
  exists n rest,
    events_since w (snd (net__proxy_connect mosq (lit "broker") 1883 w))
    = EvAlloc response_size true :: EvWrite req n :: rest.
Proof.
  intros fresh w mosq req.
  assert (Hset :
    mosquitto_proxy_set (Some fresh) (Some (lit "proxy")) 8080
                        (Some (lit "Basic dXNlcjpwYXNz")) w
    = (MOSQ_ERR_SUCCESS, Some mosq,
       snd (mosquitto_proxy_set (Some fresh) (Some (lit "proxy")) 8080
                                (Some (lit "Basic dXNlcjpwYXNz")) w)))
    by reflexivity.
  assert (H : configured mosq).
  { eapply Configured_set; [apply (Configured_fresh 3 None 0)|exact Hset]. }
  assert (Hok : ~ alloc_fails w) by (intros E; discriminate E).
  assert (Hfit : Z.of_nat (length req) < sizeof_request)
    by (vm_compute; reflexivity).
  split; [exact (conj H (conj Hok Hfit))|].
  destruct (connect_request_format mosq (lit "broker") 1883 w H)
    as (_ & Hsend & _ & _ & _).
  destruct (Hsend Hok Hfit) as (n & rest & Hev & _).
  exists n, rest. exact Hev.
Defined.

(** The claim as it was: for every destination host, and so for one
    that carries a line break, the header block has no
    [Proxy-Authorization] line when no auth value is configured; and
    the request formatted always ends with the empty line.  With no
    auth value configured, the function copies a destination host that
    contains CR LF and a [Proxy-Authorization] line into the request it
    writes; and for a destination host of 1020 bytes the buffer holds
    the first 1023 bytes of the text, which end in the middle of the
    host and not with CR LF CR LF, and nothing is written. *)
Lemma connect_request_host_not_checked :
  let fresh := mk_mosquitto 3 (mk_proxy None 0 None) in
  let w := mk_world [] [] [] [] 0 0 [] in
  let set := mosquitto_proxy_set (Some fresh) (Some (lit "proxy")) 8080
               None w in
  let mosq := mk_mosquitto 3 (mk_proxy (Some (lit "proxy")) 8080 None) in
  let dest_host := lit "b:1 HTTP/1.1" ++ CRLF
                   ++ lit "Proxy-Authorization: Basic eA==" ++ CRLF
                   ++ lit "X: y" in
  let long_host := repeat "a"%char 1020 in
  fst set = (MOSQ_ERR_SUCCESS, Some mosq) /\
  (exists n rest,
     events_since w (snd (net__proxy_connect mosq dest_host 1883 w))
     = EvAlloc response_size true
       :: EvWrite (lit "CONNECT b:1 HTTP/1.1" ++ CRLF
                   ++ lit "Proxy-Authorization: Basic eA==" ++ CRLF
                   ++ lit "X: y:1883 HTTP/1.1" ++ CRLF
                   ++ lit "Host: b:1 HTTP/1.1" ++ CRLF
                   ++ lit "Proxy-Authorization: Basic eA==" ++ CRLF
                   ++ lit "X: y:1883" ++ CRLF
                   ++ CRLF) n
       :: rest) /\
  (let request :=
     fst (snprintf sizeof_request (format_request mosq long_host 1883)) in
   length request = 1023%nat /\
   skipn 1019 request = lit "aaaa" /\
   events_since w (snd (net__proxy_connect mosq long_host 1883 w))
   = [EvAlloc response_size true; EvFree (repeat NUL 2048);
      EvLog MOSQ_LOG_ERR "Proxy CONNECT request too long." []]).
Proof.
  intros fresh w set mosq dest_host long_host.
  split; [reflexivity|]. split.
  - eexists. eexists. vm_compute. reflexivity.
  - vm_compute. split_all; reflexivity.
Qed.
